(** * The audio generation engine of RFC-002, embedded in Rocq

    The program is the [AudioGenerationEngine] class of
    docs/RFC-002-Audio-Generation-Engine.md (section 4.4) together with the
    [AudioParameters] model (section 4.2).

    Conventions of the embedding:
    - samples are real numbers ([R]); NumPy's float64 arithmetic is read as
      exact real arithmetic;
    - the float parameters ([duration], [reverb_amount], [distortion]) are
      rationals ([Q]); the number of samples of a request,
      [int(duration * sr)], is computed as the code computes it, from the
      binary64 product ([Float64]);
    - Python integers are [Z];
    - exceptions are the left summand of [Result];
    - the two global generators ([random] and [np.random]) are an explicit
      state threaded through every call that draws from them;
    - librosa and scipy are interfaces ([DspLibrary]) with the length
      contracts their documentation gives. *)

From Stdlib Require Import String Ascii.
From Stdlib Require Import Reals QArith Qround Qabs Qminmax Qreals ZArith List Lia Lra Bool.
Import ListNotations.

Set Implicit Arguments.

(** ** Exceptions and results *)

(** The exceptions the engine can end with.  [MissingAssetError] and
    [TransformInstabilityError] are named by the specification; no line of the
    source raises them. *)
Inductive error : Type :=
| ValueError
| ZeroDivisionError
| KeyError
| ParameterError
| MissingAssetError
| TransformInstabilityError.

Definition Result (A : Type) : Type := (error + A)%type.

#[warnings="-notation-for-abbreviation"]
Notation Ok := (@inr error _).
#[warnings="-notation-for-abbreviation"]
Notation Err := (@inl error _).

Definition rbind {A B : Type} (r : Result A) (f : A -> Result B) : Result B :=
  match r with
  | inl e => inl e
  | inr a => f a
  end.

Definition is_ok {A : Type} (r : Result A) : bool :=
  match r with inl _ => false | inr _ => true end.

(** A call into a library that may raise: [None] is the library's exception. *)
Definition lift_lib {A : Type} (e : error) (o : option A) : Result A :=
  match o with
  | Some a => Ok a
  | None => Err e
  end.

(** ** Python and NumPy primitives *)

Module Py.

(** [int(x)] on a float: truncation toward zero. *)
Definition int (x : Q) : Z := Z.quot (Qnum x) (Zpos (Qden x)).

(** [round(x)] on a float: to the nearest integer, ties to the even one. *)
Definition round (x : Q) : Z :=
  let f := Qfloor x in
  match Qcompare (x - inject_Z f) (1 # 2) with
  | Lt => f
  | Gt => (f + 1)%Z
  | Eq => if Z.even f then f else (f + 1)%Z
  end.

(** [a / b] on Python numbers: [ZeroDivisionError] when [b] is zero. *)
Definition div (a b : Q) : Result Q :=
  if Qeq_bool b 0 then Err ZeroDivisionError else Ok (a / b)%Q.

Definition Qltb (a b : Q) : bool := negb (Qle_bool b a).

(** [min(a, b)] on integers. *)
Definition min (a b : Z) : Z := Z.min a b.

End Py.

(** ** Binary64 arithmetic

    Python's [float] is IEEE 754 binary64.  A finite float is the rational
    it denotes; an operation on floats returns the float nearest to the exact
    result, ties going to the even significand.  The exponent range is
    bounded below (subnormal numbers, down to [2**-1074]) and not above:
    magnitudes from [2**1024] on, where Python overflows, are sizes no array
    of the engine can have. *)

Module Float64.

(** [floor(log2(n / d))] for positive [n] and [d]. *)
Definition ilog2 (n d : Z) : Z :=
  let k := (Z.log2 n - Z.log2 d)%Z in
  if (0 <=? k)%Z
  then (if (n <? d * 2 ^ k)%Z then k - 1 else k)%Z
  else (if (n * 2 ^ (- k) <? d)%Z then k - 1 else k)%Z.

(** [2**e] for an integer [e] of either sign. *)
Definition pow2 (e : Z) : Q :=
  if (0 <=? e)%Z then inject_Z (2 ^ e) else 1 # Z.to_pos (2 ^ (- e)).

(** The float nearest to [q]: [q] is scaled so that its significand has 53
    bits (fewer for a subnormal result), the significand is rounded to the
    nearest integer, ties to even, and the scale is put back. *)
Definition nearest (q : Q) : Q :=
  if Qeq_bool q 0 then 0
  else
    let e := Z.max (ilog2 (Z.abs (Qnum q)) (Zpos (Qden q)) - 52) (-1074) in
    inject_Z (Py.round (q / pow2 e)) * pow2 e.

(** [float(z)] for an integer, as in the mixed product [x * z]. *)
Definition of_int (z : Z) : Q := nearest (inject_Z z).

(** [a * b] on floats. *)
Definition mul (a b : Q) : Q := nearest (a * b).

End Float64.

Module Np.

Local Open Scope R_scope.

(** [np.zeros(n)]: a negative dimension is an error. *)
Definition zeros (n : Z) : Result (list R) :=
  if (n <? 0)%Z then Err ValueError else Ok (repeat 0 (Z.to_nat n)).

(** [np.linspace(a, b, n)] with the default [endpoint=True]:
    [a + i * (b - a) / (n - 1)] for [i < n]; the single point [a] when
    [n = 1]; an error when [n] is negative. *)
Definition linspace_pts (a b : R) (n : nat) : list R :=
  map (fun i => a + INR i * ((b - a) / INR (n - 1))) (seq 0 n).

Definition linspace (a b : R) (n : Z) : Result (list R) :=
  if (n <? 0)%Z then Err ValueError else Ok (linspace_pts a b (Z.to_nat n)).

(** [np.abs(a).max()]: an error on an empty array. *)
Fixpoint max_list (x : R) (l : list R) : R :=
  match l with
  | [] => x
  | y :: l' => max_list (Rmax x y) l'
  end.

Definition abs_max (a : list R) : Result R :=
  match map Rabs a with
  | [] => Err ValueError
  | x :: l => Ok (max_list x l)
  end.

(** Element-wise arithmetic of an array with a scalar and with an array of
    the same length. *)
Definition scale (a : list R) (c : R) : list R := map (fun x => x * c) a.

Fixpoint add (a b : list R) : list R :=
  match a, b with
  | x :: a', y :: b' => (x + y) :: add a' b'
  | _, _ => []
  end.

Fixpoint mul (a b : list R) : list R :=
  match a, b with
  | x :: a', y :: b' => (x * y) :: mul a' b'
  | _, _ => []
  end.

(** [a[:k] *= f] and [a[-k:] *= f] for [k = len(f)]: the slice is clipped to
    the array, and in-place broadcasting accepts the operand only when it is
    as long as the slice or has exactly one element. *)
Definition imul_slice (slice f : list R) : Result (list R) :=
  if (length slice =? length f)%nat then Ok (mul slice f)
  else match f with
       | [c] => Ok (scale slice c)
       | _ => Err ValueError
       end.

(** [a += b] on whole arrays, with the same broadcasting rule. *)
Definition iadd (a b : list R) : Result (list R) :=
  if (length a =? length b)%nat then Ok (add a b)
  else match b with
       | [c] => Ok (map (fun x => x + c) a)
       | _ => Err ValueError
       end.

Definition imul_head (a f : list R) : Result (list R) :=
  let k := length f in
  rbind (imul_slice (firstn k a) f) (fun s => Ok (s ++ skipn k a)).

(** [a[-k:]] is the last [min k n] elements for [k > 0], and the whole array
    for [k = 0] (because [-0 = 0]). *)
Definition imul_tail (a f : list R) : Result (list R) :=
  let k := length f in
  let start := match k with O => O | _ => (length a - k)%nat end in
  rbind (imul_slice (skipn start a) f) (fun s => Ok (firstn start a ++ s)).

End Np.

(** ** Data model (RFC-002, section 4.2) *)

Inductive FartType : Type := squeaker | rumbler | stutterer | classic | wet.

Record AudioParameters : Type := mkParams {
  duration : Q;
  wetness : Z;
  pitch : Z;
  type : FartType;
  reverb_amount : Q;
  distortion : Q;
  randomness_seed : Z;
  sample_rate : Z
}.

(** The [Field] constraints of the pydantic model.  The source puts no
    constraint on [randomness_seed] and none on [sample_rate]. *)
Definition valid_params (p : AudioParameters) : Prop :=
  ((1 # 2) <= duration p /\ duration p <= 10)%Q /\
  (0 <= wetness p <= 10)%Z /\
  (0 <= pitch p <= 10)%Z /\
  (0 <= reverb_amount p /\ reverb_amount p <= 1)%Q /\
  (0 <= distortion p /\ distortion p <= 1)%Q.

(** A mono recording with its sample rate, as [sf.read] returns it. *)
Definition Sample : Type := (list R * Z)%type.

(** [self.sample_cache]: every preset type has an entry after
    [_load_samples], possibly an empty one. *)
Definition SampleCache : Type := FartType -> list Sample.

(** The layer set: a dict from layer name to buffer, in insertion order. *)
Definition Layers : Type := list (string * list R).

Fixpoint lookup (key : string) (layers : Layers) : option (list R) :=
  match layers with
  | [] => None
  | (k, v) :: rest => if String.eqb key k then Some v else lookup key rest
  end.

Definition contains (key : string) (layers : Layers) : bool :=
  match lookup key layers with Some _ => true | None => false end.

(** [layers[key]]: [KeyError] on a missing key. *)
Definition getitem (layers : Layers) (key : string) : Result (list R) :=
  lift_lib KeyError (lookup key layers).

(** ** The random sources

    [random] (the standard library's generator) and [np.random] (NumPy's
    legacy global generator) are kept abstract: a state, a seeding function
    and the elementary draws, with the ranges their documentation gives.
    [py_randbelow n] is an integer in [[0, n)]; [py_random] and
    [np_random_sample] are reals in [[0, 1)]; [np_standard_normal] is any
    real; [py_sample_indices n k] are the positions [random.sample] picks
    out of a population of [n]: [k] distinct positions. *)

Class RandomSource : Type := {
  py_state : Type;
  np_state : Type;
  py_seed : Z -> py_state;
  np_seed : Z -> np_state;
  py_random : py_state -> R * py_state;
  py_randbelow : Z -> py_state -> Z * py_state;
  py_sample_indices : nat -> nat -> py_state -> list nat * py_state;
  np_random_sample : np_state -> R * np_state;
  np_standard_normal : np_state -> R * np_state;
  py_random_unit :
    forall s, (0 <= fst (py_random s) < 1)%R;
  py_randbelow_range :
    forall n s, (0 < n)%Z -> (0 <= fst (py_randbelow n s) < n)%Z;
  py_sample_indices_spec :
    forall n k s, (k <= n)%nat ->
      let l := fst (py_sample_indices n k s) in
      length l = k /\ NoDup l /\ Forall (fun i => (i < n)%nat) l;
  np_random_sample_unit :
    forall s, (0 <= fst (np_random_sample s) < 1)%R
}.

Section Engine.

Context {RS : RandomSource}.

(** The state of the two global generators. *)
Definition World : Type := (py_state * np_state)%type.

(** A computation that may draw random numbers and may raise. *)
Definition M (A : Type) : Type := World -> Result (A * World).

Definition ret {A : Type} (a : A) : M A := fun w => Ok (a, w).

Definition bind {A B : Type} (m : M A) (f : A -> M B) : M B :=
  fun w => match m w with
           | inl e => inl e
           | inr (a, w') => f a w'
           end.

Definition raise {A : Type} (e : error) : M A := fun _ => Err e.

Definition lift {A : Type} (r : Result A) : M A :=
  fun w => match r with
           | inl e => inl e
           | inr a => Ok (a, w)
           end.

Definition with_py {A : Type} (f : py_state -> A * py_state) : M A :=
  fun w => let '(a, s) := f (fst w) in Ok (a, (s, snd w)).

Definition with_np {A : Type} (f : np_state -> A * np_state) : M A :=
  fun w => let '(a, s) := f (snd w) in Ok (a, (fst w, s)).

End Engine.

Declare Scope engine_scope.
Delimit Scope engine_scope with engine.
Notation "x <- m ;; k" := (bind m (fun x => k))
  (at level 61, m at next level, right associativity) : engine_scope.
Notation "' pat <- m ;; k" := (bind m (fun x => match x with pat => k end))
  (at level 61, pat pattern, m at next level, right associativity) : engine_scope.

Module Random.
Section Random.

Context {RS : RandomSource}.
Local Open Scope engine_scope.

(** [random.seed(n)] and [np.random.seed(n)].  NumPy's legacy seeding accepts
    only [0 <= n < 2**32]. *)
Definition seed (n : Z) : M unit :=
  fun w => Ok (tt, (py_seed n, snd w)).

Definition np_seed_checked (n : Z) : M unit :=
  fun w => if ((0 <=? n) && (n <? 2 ^ 32))%Z
           then Ok (tt, (fst w, np_seed n))
           else Err ValueError.

(** [random.randint(a, b)]: an integer of [[a, b]]; [ValueError] when the
    range is empty. *)
Definition randint (a b : Z) : M Z :=
  if (b <? a)%Z then raise ValueError
  else r <- with_py (py_randbelow (b - a + 1)) ;; ret (a + r)%Z.

(** [random.uniform(a, b)] is [a + (b - a) * random()]. *)
Definition uniform (a b : R) : M R :=
  u <- with_py py_random ;; ret (a + (b - a) * u)%R.

(** [random.sample(population, k)]: [ValueError] when [k] exceeds the
    population (or is negative). *)
Definition sample {A : Type} (population : list A) (k : Z) : M (list A) :=
  if ((k <? 0) || (Z.of_nat (length population) <? k))%Z then raise ValueError
  else
    idx <- with_py (py_sample_indices (length population) (Z.to_nat k)) ;;
    ret (flat_map (fun i => match nth_error population i with
                            | Some x => [x]
                            | None => []
                            end) idx).

(** [np.random.uniform(low, high)]. *)
Definition np_uniform (low high : R) : M R :=
  u <- with_np np_random_sample ;; ret (low + (high - low) * u)%R.

(** [np.random.normal(loc, scale, size)]: [size] draws
    [loc + scale * standard_normal()]. *)
Fixpoint np_draws (n : nat) : M (list R) :=
  match n with
  | O => ret []
  | S n' => z <- with_np np_standard_normal ;;
            zs <- np_draws n' ;;
            ret (z :: zs)
  end.

Definition np_normal (loc scale : R) (size : Z) : M (list R) :=
  if (size <? 0)%Z then raise ValueError
  else zs <- np_draws (Z.to_nat size) ;;
       ret (map (fun z => loc + scale * z)%R zs).

End Random.
End Random.

(** ** NumPy and SciPy routines with a closed form *)

Module Fft.

Local Open Scope R_scope.

(** Complex numbers as pairs (real part, imaginary part). *)
Definition C : Type := (R * R)%type.

Definition sum_R (f : nat -> R) (n : nat) : R :=
  fold_right Rplus 0 (map f (seq 0 n)).

(** [np.fft.fft(x)]: [X[k] = sum_n x[n] * exp(-2 pi i k n / N)];
    an empty input is an error. *)
Definition dft (x : list R) : list C :=
  let N := length x in
  map (fun k =>
         (sum_R (fun n => nth n x 0 * cos (2 * PI * INR k * INR n / INR N)) N,
          - sum_R (fun n => nth n x 0 * sin (2 * PI * INR k * INR n / INR N)) N))
      (seq 0 N).

Definition fft (x : list R) : Result (list C) :=
  match x with
  | [] => Err ValueError
  | _ => Ok (dft x)
  end.

(** [np.fft.ifft(X).real]:
    [x[n] = (1/N) * sum_k X[k] * exp(2 pi i k n / N)], real part. *)
Definition ifft_real (X : list C) : list R :=
  let N := length X in
  map (fun n =>
         sum_R (fun k =>
                  let '(re, im) := nth k X (0, 0) in
                  re * cos (2 * PI * INR k * INR n / INR N)
                  - im * sin (2 * PI * INR k * INR n / INR N)) N / INR N)
      (seq 0 N).

(** [np.fft.fftfreq(n, d)]: [[0, 1, ..., (n-1)//2, -(n//2), ..., -1] / (d*n)]. *)
Definition fftfreq (n : nat) (d : R) : list R :=
  map (fun i => (if (i <=? (n - 1) / 2)%nat then INR i else - INR (n - i))
                / (INR n * d))
      (seq 0 n).

(** Element-wise division of a complex array by a real array. *)
Fixpoint cdiv (X : list C) (d : list R) : list C :=
  match X, d with
  | (re, im) :: X', y :: d' => (re / y, im / y) :: cdiv X' d'
  | _, _ => []
  end.

End Fft.

Module Signal.

Local Open Scope R_scope.

(** The full discrete convolution at lag [k]: [sum_j a[j] * v[k - j]]. *)
Definition conv_at (a v : list R) (k : nat) : R :=
  Fft.sum_R (fun j => if (j <=? k)%nat then nth j a 0 * nth (k - j) v 0 else 0)
            (length a).

(** [scipy.signal.convolve(a, v, mode='same')]: the [len(a)] central entries
    of the full convolution, which start at lag [(len(v) - 1) // 2].  The
    engine reaches this call with both arrays non-empty only. *)
Definition convolve_same (a v : list R) : list R :=
  map (fun i => conv_at a v (i + (length v - 1) / 2)) (seq 0 (length a)).

End Signal.

(** ** librosa and scipy.signal filtering

    [time_stretch y rate] is [librosa.effects.time_stretch]: [rate > 1]
    speeds the signal up, and the output has [round(len(y) / rate)] samples.
    [pitch_shift y sr n_steps] is [librosa.effects.pitch_shift], which keeps
    the length.  [butter n wn] designs the low-pass filter and [sosfilt]
    runs it, keeping the length.  [None] stands for the library's
    exception.  The interface is generic in the type of samples. *)

Class DspLibrary (A : Type) : Type := {
  Sos : Type;
  time_stretch : list A -> Q -> option (list A);
  pitch_shift : list A -> Z -> Z -> option (list A);
  butter : Z -> Q -> option Sos;
  sosfilt : Sos -> list A -> option (list A);
  time_stretch_length :
    forall y rate out, time_stretch y rate = Some out ->
      Z.of_nat (length out) = Py.round (inject_Z (Z.of_nat (length y)) / rate);
  pitch_shift_length :
    forall y sr n out, pitch_shift y sr n = Some out -> length out = length y;
  sosfilt_length :
    forall sos y out, sosfilt sos y = Some out -> length out = length y
}.

(** ** The transform stage *)

Section Transform.

Context {A : Type} {L : DspLibrary A}.

Definition _apply_lowpass_filter (audio : list A) (cutoff : Z) (sr : Z)
  : Result (list A) :=
  let nyquist := (inject_Z sr / 2)%Q in
  rbind (Py.div (inject_Z cutoff) nyquist) (fun normalized_cutoff =>
  rbind (lift_lib ValueError (butter 4 normalized_cutoff)) (fun sos =>
  lift_lib ValueError (sosfilt sos audio))).

Definition _apply_transformations (audio : list A) (params : AudioParameters)
  : Result (list A) :=
  rbind (Py.div (inject_Z (Z.of_nat (length audio)))
                (inject_Z (sample_rate params))) (fun current_duration =>
  rbind (Py.div (duration params) current_duration) (fun stretch_factor =>
  rbind (lift_lib ParameterError (time_stretch audio stretch_factor)) (fun audio =>
  let pitch_shift_semitones := ((pitch params - 5) * 2)%Z in
  rbind (lift_lib ParameterError
           (pitch_shift audio (sample_rate params) pitch_shift_semitones))
        (fun audio =>
  if (5 <? wetness params)%Z then
    let cutoff_freq := (800 + (10 - wetness params) * 200)%Z in
    _apply_lowpass_filter audio cutoff_freq (sample_rate params)
  else Ok audio)))).

End Transform.

(** ** The engine *)

Section AudioGenerationEngine.

Context {RS : RandomSource} {L : DspLibrary R}.

Local Open Scope R_scope.
Local Open Scope engine_scope.

(** [self.sample_cache], filled once by [_load_samples]. *)
Variable sample_cache : SampleCache.

(** *** Sample selection *)

(** Sum of two buffers aligned at their first sample; the longer one decides
    the length. *)
Fixpoint overlay (a b : list R) : list R :=
  match a, b with
  | [], _ => b
  | _, [] => a
  | x :: a', y :: b' => (x + y) :: overlay a' b'
  end.

(** Modelled from the spec: [_overlap_samples] is called by the engine but its
    body is not part of the source.  Section 4.3 of the specification: the
    selected samples are aligned to start at time 0 and summed, and the sum is
    scaled by [1/count]. *)
Definition _overlap_samples (selected : list Sample) : list R :=
  Np.scale (fold_right overlay [] (map fst selected))
           (1 / INR (length selected)).

(** The first three lines of [_select_and_load_samples]: how many samples,
    and which ones. *)
Definition select_samples (fart_type : FartType) : M (list Sample) :=
  let samples := sample_cache fart_type in
  num_samples <- Random.randint 1 (Py.min 3 (Z.of_nat (length samples))) ;;
  Random.sample samples num_samples.

Definition _select_and_load_samples (fart_type : FartType) : M (list R) :=
  selected <- select_samples fart_type ;;
  match selected with
  | [(audio, sr)] => ret audio
  | _ => ret (_overlap_samples selected)
  end.

(** *** Procedural layers *)

Inductive NoiseType : Type := white | pink.

Definition _generate_noise (length : Z) (sr : Z) (noise_type : NoiseType)
  : M (list R) :=
  match noise_type with
  | white => Random.np_normal 0 (1 / 10) length
  | pink =>
      white <- Random.np_normal 0 1 length ;;
      fft <- lift (Fft.fft white) ;;
      d <- lift (Py.div 1 (inject_Z sr)) ;;
      let freqs := Fft.fftfreq (Z.to_nat length) (Q2R d) in
      let fft := Fft.cdiv fft (map (fun f => sqrt (Rabs f + 1)) freqs) in
      let pink := Fft.ifft_real fft in
      ret (Np.scale pink (1 / 10))
  end.

Definition _pitch_to_freq (pitch : Z) : R :=
  40 * Rpower 2 (IZR pitch / 5).

(** One pass of the loop of [_generate_rumble]. *)
Definition rumble_partial (base_freq : R) (t : list R) (i : nat)
                          (rumble : list R) : M (list R) :=
  let freq := base_freq * (95 / 100 + INR i * (5 / 100)) in
  phase <- Random.np_uniform 0 (2 * PI) ;;
  ret (Np.add rumble (map (fun ti => sin (2 * PI * freq * ti + phase) / 3) t)).

Definition _generate_rumble (length : Z) (sr : Z) (base_freq : R) : M (list R) :=
  d <- lift (Py.div (inject_Z length) (inject_Z sr)) ;;
  t <- lift (Np.linspace 0 (Q2R d) length) ;;
  rumble <- lift (Np.zeros length) ;;
  rumble <- rumble_partial base_freq t 0 rumble ;;
  rumble <- rumble_partial base_freq t 1 rumble ;;
  rumble <- rumble_partial base_freq t 2 rumble ;;
  mod_freq <- Random.uniform 5 15 ;;
  let modulator := map (fun ti => 1 / 2 + 1 / 2 * sin (2 * PI * mod_freq * ti)) t in
  let rumble := Np.mul rumble modulator in
  ret (Np.scale rumble (3 / 10)).

(** One bubble: where it starts, how long it is and its carrier frequency. *)
Record Bubble : Type := mkBubble {
  pos : Z;
  bubble_length : Z;
  freq : R
}.

(** The three draws at the head of the loop body of [_generate_bubbling]. *)
Definition draw_bubble (length : Z) : M Bubble :=
  pos <- Random.randint 0 (length - 1000) ;;
  bubble_length <- Random.randint 100 500 ;;
  freq <- Random.uniform 300 1000 ;;
  ret (mkBubble pos bubble_length freq).

(** The decay envelope [np.exp(-t * 50)]. *)
Definition envelope (t : list R) : list R := map (fun ti => exp (- ti * 50)) t.

(** The burst itself: the carrier times the envelope, over
    [t = np.linspace(0, bubble_length/sr, bubble_length)]. *)
Definition bubble_wave (sr : Z) (b : Bubble) : Result (list R) :=
  rbind (Py.div (inject_Z (bubble_length b)) (inject_Z sr)) (fun d =>
  rbind (Np.linspace 0 (Q2R d) (bubble_length b)) (fun t =>
  let bubble := map (fun ti => sin (2 * PI * freq b * ti)) t in
  Ok (Np.mul bubble (envelope t)))).

(** [audio[pos:end_pos] += bubble[:end_pos-pos] * 0.1] for [0 <= pos]. *)
Definition add_burst (length : Z) (b : Bubble) (bubble audio : list R)
  : Result (list R) :=
  let end_pos := Py.min (pos b + bubble_length b) length in
  let p := Z.to_nat (pos b) in
  let n := Z.to_nat (end_pos - pos b) in
  let target := firstn n (skipn p audio) in
  let addend := Np.scale (firstn n bubble) (1 / 10) in
  rbind (Np.iadd target addend) (fun target =>
  Ok (firstn p audio ++ target ++ skipn (p + n) audio)).

Definition add_bubble (length sr : Z) (b : Bubble) (audio : list R)
  : Result (list R) :=
  rbind (bubble_wave sr b) (fun bubble => add_burst length b bubble audio).

(** The loop [for _ in range(num_bubbles)]. *)
Fixpoint bubble_loop (n : nat) (length sr : Z) (audio : list R) : M (list R) :=
  match n with
  | O => ret audio
  | S n' =>
      b <- draw_bubble length ;;
      audio <- lift (add_bubble length sr b audio) ;;
      bubble_loop n' length sr audio
  end.

Definition _generate_bubbling (length : Z) (sr : Z) (wetness : Z) : M (list R) :=
  audio <- lift (Np.zeros length) ;;
  let num_bubbles := (wetness * 5)%Z in
  bubble_loop (Z.to_nat num_bubbles) length sr audio.

Definition _generate_synthesis_layers (params : AudioParameters) : M Layers :=
  let sr := sample_rate params in
  let duration_samples :=
    Py.int (Float64.mul (Float64.nearest (duration params)) (Float64.of_int sr)) in
  let noise_type := if (5 <? wetness params)%Z then pink else white in
  noise <- _generate_noise duration_samples sr noise_type ;;
  let rumble_freq := _pitch_to_freq (pitch params) in
  rumble <- _generate_rumble duration_samples sr rumble_freq ;;
  let layers := [("noise"%string, noise); ("rumble"%string, rumble)] in
  if (5 <? wetness params)%Z then
    bubbling <- _generate_bubbling duration_samples sr (wetness params) ;;
    ret (layers ++ [("bubbling"%string, bubbling)])
  else ret layers.

(** *** Mixer *)

Definition _resize_audio (audio : list R) (target_length : nat) : list R :=
  if (length audio =? target_length)%nat then audio
  else if (length audio <? target_length)%nat
       then audio ++ repeat 0 (target_length - length audio)
       else firstn target_length audio.

Definition _mix_layers (base : list R) (layers : Layers) (params : AudioParameters)
  : Result (list R) :=
  let target_length := length base in
  let layers := map (fun kv => (fst kv, _resize_audio (snd kv) target_length)) layers in
  let mixed := Np.scale base (6 / 10) in
  rbind (getitem layers "noise") (fun noise =>
  rbind (Np.iadd mixed (Np.scale noise (15 / 100))) (fun mixed =>
  rbind (getitem layers "rumble") (fun rumble =>
  rbind (Np.iadd mixed (Np.scale rumble (20 / 100))) (fun mixed =>
  if contains "bubbling" layers then
    rbind (getitem layers "bubbling") (fun bubbling =>
    rbind (Np.iadd mixed (Np.scale bubbling (15 / 100))) (fun mixed =>
    Ok (Np.scale mixed (8 / 10))))
  else Ok mixed)))).

(** *** Post-processing *)

Definition _normalize (audio : list R) (target_peak : R) : Result (list R) :=
  rbind (Np.abs_max audio) (fun peak =>
  if Rlt_dec 0 peak then Ok (Np.scale audio (target_peak / peak))
  else Ok audio).

(** The soft limiter [np.tanh(audio * 1.2) * 0.9]. *)
Definition soft_limit (audio : list R) : list R :=
  Np.scale (map tanh (Np.scale audio (12 / 10))) (9 / 10).

Definition _apply_fade (audio : list R) (fade_samples : Z) : Result (list R) :=
  rbind (Np.linspace 0 1 fade_samples) (fun fade_in =>
  rbind (Np.linspace 1 0 fade_samples) (fun fade_out =>
  rbind (Np.imul_head audio fade_in) (fun audio =>
  Np.imul_tail audio fade_out))).

(** The impulse response of [_apply_reverb]: normal noise under the decay
    [exp(-i / (sr * 0.2))]. *)
Definition impulse_response (noise : list R) (sr : Z) : list R :=
  Np.mul noise
         (map (fun i => exp (- INR i / (IZR sr * (2 / 10)))) (seq 0 (length noise))).

Definition _apply_reverb (audio : list R) (amount : Q) (sr : Z) : M (list R) :=
  let ir_length := Py.int ((1 # 2) * inject_Z sr) in
  ir <- Random.np_normal 0 1 ir_length ;;
  let ir := impulse_response ir sr in
  let reverb := Np.scale (Signal.convolve_same audio ir) (Q2R amount) in
  lift (Np.iadd (Np.scale audio (1 - Q2R amount)) (Np.scale reverb (Q2R amount))).

Definition _post_process (audio : list R) (params : AudioParameters) : M (list R) :=
  audio <- lift (_normalize audio (95 / 100)) ;;
  let audio := soft_limit audio in
  let fade_samples := Py.int ((5 # 100) * inject_Z (sample_rate params)) in
  audio <- lift (_apply_fade audio fade_samples) ;;
  if Py.Qltb 0 (reverb_amount params) then
    _apply_reverb audio (reverb_amount params) (sample_rate params)
  else ret audio.

(** *** The pipeline *)

Definition generate (params : AudioParameters) : M (list R * Z) :=
  _ <- Random.np_seed_checked (randomness_seed params) ;;
  _ <- Random.seed (randomness_seed params) ;;
  base_audio <- _select_and_load_samples (type params) ;;
  synthesis_layers <- _generate_synthesis_layers params ;;
  base_audio <- lift (_apply_transformations base_audio params) ;;
  mixed_audio <- lift (_mix_layers base_audio synthesis_layers params) ;;
  final_audio <- _post_process mixed_audio params ;;
  ret (final_audio, sample_rate params).

End AudioGenerationEngine.

(** ** A concrete generator and a concrete signal library

    The interfaces above are inhabited.  [Counter] is a generator whose state
    is an integer that every draw advances by one; [Padding] is a signal
    library that only changes lengths.  They serve to run the engine on
    concrete inputs. *)

Module Counter.

Local Open Scope Z_scope.

Definition unit_draw (s : Z) : R * Z := ((IZR (s mod 8) / 8)%R, s + 1).
Definition randbelow (n s : Z) : Z * Z := (s mod n, s + 1).
Definition sample_indices (n k : nat) (s : Z) : list nat * Z := (seq 0 k, s + 1).
(** Standard-normal draws cycle through [-3, -2, ..., 3]. *)
Definition standard_normal (s : Z) : R * Z := (IZR (s mod 7 - 3), s + 1).

Lemma unit_draw_range (s : Z) : (0 <= fst (unit_draw s) < 1)%R.
Proof.
  unfold unit_draw; simpl.
  pose proof (Z.mod_pos_bound s 8 ltac:(lia)) as [H0 H8].
  apply IZR_le in H0. apply IZR_lt in H8. lra.
Qed.

Lemma randbelow_range (n s : Z) : 0 < n -> 0 <= fst (randbelow n s) < n.
Proof. intros Hn. unfold randbelow; simpl. apply Z.mod_pos_bound, Hn. Qed.

Lemma sample_indices_spec (n k : nat) (s : Z) :
  (k <= n)%nat ->
  let l := fst (sample_indices n k s) in
  length l = k /\ NoDup l /\ Forall (fun i => (i < n)%nat) l.
Proof.
  intros Hk. simpl. repeat split.
  - apply length_seq.
  - apply seq_NoDup.
  - apply Forall_forall. intros i Hi. apply in_seq in Hi. lia.
Qed.

#[export] Instance source : RandomSource := {|
  py_state := Z;
  np_state := Z;
  py_seed := fun n => n;
  np_seed := fun n => n;
  py_random := unit_draw;
  py_randbelow := randbelow;
  py_sample_indices := sample_indices;
  np_random_sample := unit_draw;
  np_standard_normal := standard_normal;
  py_random_unit := unit_draw_range;
  py_randbelow_range := randbelow_range;
  py_sample_indices_spec := sample_indices_spec;
  np_random_sample_unit := unit_draw_range
|}.

(** A state of the two generators. *)
Definition world (py np : Z) : @World source := (py, np).

End Counter.

Module Padding.

(** Truncates or zero-pads to [n] entries. *)
Definition fit {A : Type} (zero : A) (y : list A) (n : nat) : list A :=
  firstn n y ++ repeat zero (n - length y).

Lemma fit_length {A : Type} (zero : A) (y : list A) (n : nat) :
  length (fit zero y n) = n.
Proof.
  unfold fit. rewrite length_app, length_firstn, repeat_length. lia.
Qed.

Section Library.

Context {A : Type} (zero : A).

Definition stretch (y : list A) (rate : Q) : option (list A) :=
  let n := Py.round (inject_Z (Z.of_nat (length y)) / rate) in
  if Qle_bool rate 0 || (n <? 0)%Z then None
  else Some (fit zero y (Z.to_nat n)).

Definition shift (y : list A) (sr n_steps : Z) : option (list A) := Some y.

Definition design (order : Z) (wn : Q) : option unit :=
  if Py.Qltb 0 wn && Py.Qltb wn 1 then Some tt else None.

Definition filter (sos : unit) (y : list A) : option (list A) := Some y.

Lemma stretch_length (y : list A) (rate : Q) (out : list A) :
  stretch y rate = Some out ->
  Z.of_nat (length out) = Py.round (inject_Z (Z.of_nat (length y)) / rate).
Proof.
  unfold stretch.
  destruct (Qle_bool rate 0); simpl; [discriminate |].
  destruct (Z.ltb_spec (Py.round (inject_Z (Z.of_nat (length y)) / rate)) 0) as [Hn | Hn];
    [discriminate |].
  intros H. inversion H. rewrite fit_length. apply Z2Nat.id, Hn.
Qed.

Lemma shift_length (y : list A) (sr n : Z) (out : list A) :
  shift y sr n = Some out -> length out = length y.
Proof. unfold shift. intros H. inversion H. reflexivity. Qed.

Lemma filter_length (sos : unit) (y out : list A) :
  filter sos y = Some out -> length out = length y.
Proof. unfold filter. intros H. inversion H. reflexivity. Qed.

Definition library : DspLibrary A := {|
  Sos := unit;
  time_stretch := stretch;
  pitch_shift := shift;
  butter := design;
  sosfilt := filter;
  time_stretch_length := stretch_length;
  pitch_shift_length := shift_length;
  sosfilt_length := filter_length
|}.

End Library.

End Padding.

(** ** A signal library that overflows

    float64 samples with their non-finite values, and a signal library whose
    pitch shift overflows to infinity. *)

Module Overflow.

Inductive float64 : Type :=
| finite (x : Q)
| infinity
| nan.

Definition isfinite (x : float64) : bool :=
  match x with
  | finite _ => true
  | _ => false
  end.

Definition shift (y : list float64) (sr n_steps : Z) : option (list float64) :=
  Some (map (fun _ => infinity) y).

Lemma overflowing_shift_length (y : list float64) (sr n : Z) (out : list float64) :
  shift y sr n = Some out -> length out = length y.
Proof. unfold shift. intros H. inversion H. apply length_map. Qed.

Definition library : DspLibrary float64 := {|
  Sos := unit;
  time_stretch := Padding.stretch (finite 0);
  pitch_shift := shift;
  butter := Padding.design;
  sosfilt := @Padding.filter float64;
  time_stretch_length := Padding.stretch_length (finite 0);
  pitch_shift_length := overflowing_shift_length;
  sosfilt_length := @Padding.filter_length float64
|}.

End Overflow.

(** ** Vocabulary of the properties *)

Section Vocabulary.

Context {RS : RandomSource}.

Local Open Scope R_scope.

(** Every sample is strictly inside [(-B, B)]. *)
Definition peak_below (B : R) (audio : list R) : Prop :=
  Forall (fun x => Rabs x < B) audio.

(** Every entry is a gain between 0 and 1. *)
Definition unit_gains (f : list R) : Prop :=
  Forall (fun c => 0 <= c <= 1) f.

(** The layer set after the resizing loop of [_mix_layers]. *)
Definition resized (n : nat) (layers : Layers) : Layers :=
  map (fun kv => (fst kv, _resize_audio (snd kv) n)) layers.

(** The bursts of a list, added to a buffer one after the other. *)
Fixpoint superpose (length sr : Z) (bubbles : list Bubble) (audio : list R)
  : Result (list R) :=
  match bubbles with
  | [] => Ok audio
  | b :: rest => rbind (add_bubble length sr b audio) (superpose length sr rest)
  end.

(** The ranges the three draws of a bubble come from. *)
Definition drawn_in_range (length : Z) (b : Bubble) : Prop :=
  (0 <= pos b <= length - 1000)%Z /\
  (100 <= bubble_length b <= 500)%Z /\
  300 <= freq b <= 1000.

(** The first [n] standard-normal draws from a state of NumPy's generator,
    and the state they leave. *)
Fixpoint draws_from (n : nat) (s : np_state) : list R * np_state :=
  match n with
  | O => ([], s)
  | S n' => let (z, s1) := np_standard_normal s in
            let (zs, s2) := draws_from n' s1 in
            (z :: zs, s2)
  end.

(** The spectral shaping of the pink branch, as a function of the white
    buffer. *)
Definition shape_pink (white : list R) (sr : Z) : list R :=
  let freqs := Fft.fftfreq (length white) (Q2R (1 / inject_Z sr)) in
  Np.scale
    (Fft.ifft_real
       (Fft.cdiv (Fft.dft white) (map (fun f => sqrt (Rabs f + 1)) freqs)))
    (1 / 10).

(** [duration_samples] of [_generate_synthesis_layers]:
    [int(params.duration * sr)], the float product truncated.  The field
    [duration] holds a float, the one nearest to the number it was given. *)
Definition duration_samples (params : AudioParameters) : Z :=
  Py.int (Float64.mul (Float64.nearest (duration params))
                      (Float64.of_int (sample_rate params))).

(** [noise_type] of [_generate_synthesis_layers]. *)
Definition noise_type_of (params : AudioParameters) : NoiseType :=
  if (5 <? wetness params)%Z then pink else white.

(** The value the soft limiter gives to a sample at the normalised peak. *)
Definition limited_peak : R := tanh (95 / 100 * (12 / 10)) * (9 / 10).

(** [fade_samples] of [_post_process]. *)
Definition fade_samples_of (params : AudioParameters) : Z :=
  Py.int ((5 # 100) * inject_Z (sample_rate params)).

End Vocabulary.

(** [sel] holds the entries of [population] at the positions [idx]. *)
Definition picked {A : Type} (population : list A) (idx : list nat) (sel : list A)
  : Prop :=
  Forall2 (fun i x => nth_error population i = Some x) idx sel.

(** The stretch factor the stage passes to [time_stretch] as [rate]. *)
Definition stretch_factor {A : Type} (audio : list A) (params : AudioParameters) : Q :=
  duration params
  / (inject_Z (Z.of_nat (length audio)) / inject_Z (sample_rate params)).

(** The duration tolerance of the specification: the output of [n_out]
    samples lasts within 2% of [duration], or within one sample period,
    whichever is larger. *)
Definition duration_within_tolerance (params : AudioParameters) (n_out : nat) : Prop :=
  let actual := inject_Z (Z.of_nat n_out) / inject_Z (sample_rate params) in
  Qabs (actual - duration params)
  <= Qmax ((2 # 100) * duration params) (1 / inject_Z (sample_rate params)).

(** ** Concrete inputs *)

(** A dry render at 20 Hz of a three-sample buffer. *)
Definition dry_params : AudioParameters :=
  mkParams (1 # 2) 0 5 classic 0 0 42 20.

(** A base of three samples, a noise layer that is too short, a rumble layer
    that is too long and a bubbling layer. *)
Definition mixer_layers : Layers :=
  [("noise"%string, [1]%R); ("rumble"%string, [1; 1; 1; 1; 1]%R);
   ("bubbling"%string, [1; 1; 1]%R)].

(** Ten seconds at 100 Hz with wetness 6: a buffer of exactly 1000 samples. *)
Definition wet_params : AudioParameters :=
  mkParams 10 6 5 wet 0 0 42 100.

(** Half a second at 100 Hz with wetness 6: 50 samples. *)
Definition short_wet_params : AudioParameters :=
  mkParams (1 # 2) 6 5 wet 0 0 42 100.

(** Half a second of dry sound at 20 Hz: ten samples of white noise. *)
Definition dry_noise_params : AudioParameters :=
  mkParams (1 # 2) 0 5 classic 0 0 6 20.


(** Half a second of dry sound at 4 Hz. *)
Definition tiny_params : AudioParameters :=
  mkParams (1 # 2) 0 5 classic 0 0 42 4.

(** A request for two seconds of dry sound at 44.1 kHz. *)
Definition two_second_params : AudioParameters :=
  mkParams 2 0 5 classic 0 0 42 44100.

(** Half a second at 22 Hz with the reverb fully wet. *)
Definition reverb_params : AudioParameters :=
  mkParams (1 # 2) 0 5 classic 1 0 2 22.

(** Half a second of dry sound at 40 Hz. *)
Definition demo_params : AudioParameters :=
  mkParams (1 # 2) 0 5 classic 0 0 42 40.

(** One recording of twenty samples at 40 Hz under every preset type. *)
Definition demo_cache : SampleCache :=
  fun _ => [(repeat 1%R 20, 40%Z)].

(** ** Loading the sample library (RFC-002, section 4.3 and [_load_samples]) *)

(** [SAMPLE_LIBRARY], in the order of the dict literal. *)
Definition SAMPLE_LIBRARY : list (FartType * list string) :=
  [(squeaker, ["samples/squeaker_01.wav"; "samples/squeaker_02.wav";
               "samples/squeaker_03.wav"]%string);
   (rumbler, ["samples/rumbler_01.wav"; "samples/rumbler_02.wav";
              "samples/rumbler_03.wav"]%string);
   (stutterer, ["samples/stutterer_01.wav"; "samples/stutterer_02.wav"]%string);
   (classic, ["samples/classic_01.wav"; "samples/classic_02.wav";
              "samples/classic_03.wav"; "samples/classic_04.wav"]%string);
   (wet, ["samples/wet_01.wav"; "samples/wet_02.wav"]%string)].

Definition FartType_eqb (a b : FartType) : bool :=
  match a, b with
  | squeaker, squeaker | rumbler, rumbler | stutterer, stutterer
  | classic, classic | wet, wet => true
  | _, _ => false
  end.

Section Loading.

(** [sf.read(path)]: the recording and its rate, or [None] when the library
    raises (missing or unreadable file). *)
Variable sf_read : string -> option Sample.

(** The inner loop of [_load_samples]: the recordings of one type, in the
    order of their paths; the first failing read ends the loading. *)
Fixpoint read_all (paths : list string) : option (list Sample) :=
  match paths with
  | [] => Some []
  | path :: rest =>
      match sf_read path with
      | None => None
      | Some s =>
          match read_all rest with
          | None => None
          | Some l => Some (s :: l)
          end
      end
  end.

(** The outer loop, over the items of the library. *)
Fixpoint load_items (items : list (FartType * list string))
  : option (list (FartType * list Sample)) :=
  match items with
  | [] => Some []
  | (fart_type, sample_paths) :: rest =>
      match read_all sample_paths with
      | None => None
      | Some l =>
          match load_items rest with
          | None => None
          | Some c => Some ((fart_type, l) :: c)
          end
      end
  end.

(** [self.sample_cache[fart_type]] on the loaded entries.  The five preset
    types are keys of [SAMPLE_LIBRARY], so the last case is never reached. *)
Fixpoint cache_entry (entries : list (FartType * list Sample)) (t : FartType)
  : list Sample :=
  match entries with
  | [] => []
  | (k, l) :: rest => if FartType_eqb t k then l else cache_entry rest t
  end.

(** [_load_samples]: the cache, or [None] when a read raised. *)
Definition _load_samples : option SampleCache :=
  option_map cache_entry (load_items SAMPLE_LIBRARY).

End Loading.

(** ** The rule-based fallback (RFC-003, section 7.2)

    [get_fallback_parameters] builds an [AudioParameters] from keywords of the
    prompt.  Prompts are ASCII strings here: [str.lower] is the lower-casing
    of the letters [A] to [Z]. *)

Module Fallback.

(** The exceptions of this function: a local variable read before it is
    assigned, and a validation failure of the pydantic constructor. *)
Inductive exn : Type := UnboundLocalError | ValidationError.

Definition lower_char (c : ascii) : ascii :=
  let n := nat_of_ascii c in
  if ((65 <=? n) && (n <=? 90))%nat then ascii_of_nat (n + 32) else c.

(** [s.lower()]. *)
Fixpoint lower (s : string) : string :=
  match s with
  | EmptyString => EmptyString
  | String c rest => String (lower_char c) (lower rest)
  end.

(** [word in s]: [word] occurs in [s] as a contiguous substring. *)
Fixpoint contains (word s : string) : bool :=
  String.prefix word s ||
  match s with
  | EmptyString => false
  | String _ rest => contains word rest
  end.

(** [any(word in s for word in words)]. *)
Definition any_in (words : list string) (s : string) : bool :=
  existsb (fun word => contains word s) words.

Definition ascii_only (s : string) : bool :=
  forallb (fun c => (nat_of_ascii c <? 128)%nat) (list_ascii_of_string s).

(** The [Literal] type of the field [type]. *)
Definition parse_type (s : string) : option FartType :=
  if String.eqb s "squeaker" then Some squeaker
  else if String.eqb s "rumbler" then Some rumbler
  else if String.eqb s "stutterer" then Some stutterer
  else if String.eqb s "classic" then Some classic
  else if String.eqb s "wet" then Some wet
  else None.

(** The default seed: [int(time.time() * 1000)]. *)
Definition default_seed (now : Q) : Z := Py.int (now * 1000).

(** [AudioParameters(duration=..., wetness=..., pitch=..., type=...)]: the
    other fields take their defaults, and the [Field] constraints are
    checked.  [now] is the value of [time.time()]. *)
Definition new_parameters (duration : Q) (wetness pitch : Z) (type_ : string)
                          (now : Q) : exn + AudioParameters :=
  match parse_type type_ with
  | None => inl ValidationError
  | Some t =>
      if Qle_bool (1 # 2) duration && Qle_bool duration 10
         && (0 <=? wetness)%Z && (wetness <=? 10)%Z
         && (0 <=? pitch)%Z && (pitch <=? 10)%Z
      then inr (mkParams duration wetness pitch t 0 0 (default_seed now) 44100)
      else inl ValidationError
  end.

(** The local variables after the two [if] chains; [pitch] is [None] while
    it has not been assigned. *)
Definition get_fallback_parameters (prompt : string) (now : Q)
  : exn + AudioParameters :=
  let p := lower prompt in
  let duration : Q :=
    if any_in ["long"; "huge"; "massive"]%string p then 5
    else if any_in ["quick"; "short"; "brief"]%string p then 1
    else 5 # 2 in
  let '(wetness, pitch, type_) :=
    if any_in ["wet"; "sloppy"; "liquid"]%string p
    then (8%Z, @None Z, "wet"%string)
    else if any_in ["squeaky"; "high"; "sharp"]%string p
    then (2%Z, Some 8%Z, "squeaker"%string)
    else if any_in ["low"; "deep"; "rumble"]%string p
    then (3%Z, Some 2%Z, "rumbler"%string)
    else (5%Z, Some 5%Z, "classic"%string) in
  match pitch with
  | None => inl UnboundLocalError
  | Some pitch => new_parameters duration wetness pitch type_ now
  end.

End Fallback.

(** ** Vocabulary of the further properties *)

(** Every sample is within [[-B, B]]. *)
Definition peak_within (B : R) (audio : list R) : Prop :=
  Forall (fun x => (Rabs x <= B)%R) audio.

(** The parameters with another [distortion], and with another [wetness]. *)
Definition with_distortion (p : AudioParameters) (d : Q) : AudioParameters :=
  mkParams (duration p) (wetness p) (pitch p) (type p) (reverb_amount p) d
           (randomness_seed p) (sample_rate p).

Definition with_wetness (p : AudioParameters) (wetness : Z) : AudioParameters :=
  mkParams (duration p) wetness (pitch p) (type p) (reverb_amount p)
           (distortion p) (randomness_seed p) (sample_rate p).

(** [ir_length] of [_apply_reverb]. *)
Definition ir_length_of (sr : Z) : Z := Py.int ((1 # 2) * inject_Z sr).

(** The gain the fade gives to sample [i] of [n], for a ramp of [k] samples
    at each end. *)
Definition fade_gain (k n i : nat) : R :=
  (if (i <? k)%nat then INR i / INR (k - 1)
   else if (i <? n - k)%nat then 1
   else 1 - INR (i - (n - k)) / INR (k - 1))%R.

(** [SAMPLE_LIBRARY[fart_type]]: the paths registered under a type. *)
Definition paths_of (t : FartType) : list string :=
  concat (map snd (filter (fun kv => FartType_eqb t (fst kv)) SAMPLE_LIBRARY)).

(** ** Vocabulary of the bubbling layer *)

(** The instant of sample [j] of a burst: point [j] of
    [np.linspace(0, bubble_length / sr, bubble_length)]. *)
Definition burst_instant (sr : Z) (b : Bubble) (j : nat) : R :=
  (INR j * (Q2R (inject_Z (bubble_length b) / inject_Z sr)
            / INR (Z.to_nat (bubble_length b) - 1)))%R.

(** What the burst [b] adds to sample [i] of the layer: nothing outside
    [[pos, pos + bubble_length)], and inside it 0.1 times the carrier
    [sin(2 pi freq t)] times the decay [exp(-t * 50)]. *)
Definition burst_at (sr : Z) (b : Bubble) (i : nat) : R :=
  if ((Z.to_nat (pos b) <=? i)
      && (i <? Z.to_nat (pos b) + Z.to_nat (bubble_length b)))%nat
  then (let t := burst_instant sr b (i - Z.to_nat (pos b)) in
        sin (2 * PI * freq b * t) * exp (- t * 50) * (1 / 10))%R
  else 0%R.

(** The sum of the bursts of a list at sample [i]. *)
Definition bursts_at (sr : Z) (bubbles : list Bubble) (i : nat) : R :=
  fold_right (fun b acc => (burst_at sr b i + acc)%R) 0%R bubbles.

(** 0.57 s of dry sound at 100 Hz: the float product is
    56.99999999999999, so the request covers 56 samples. *)
Definition float_params : AudioParameters :=
  mkParams (57 # 100) 0 5 classic 0 0 42 100.

(** Half a second at 100 Hz with wetness 10: 50 samples. *)
Definition short_wettest_params : AudioParameters :=
  mkParams (1 # 2) 10 5 wet 0 0 42 100.

(** A request at 1620 Hz whose exact product [duration * sample_rate] is
    below 1000 while the float product is 1000.0. *)
Definition boundary_params : AudioParameters :=
  mkParams (6172839506172839 # 10000000000000000) 10 5 wet 0 0 42 1620.

(** One recording of a thousand samples at 1620 Hz under every preset type. *)
Definition boundary_cache : SampleCache :=
  fun _ => [(repeat 1%R 1000, 1620%Z)].

(** ** Finite distributions

    What [random] draws is random: a draw is described by the finite list of
    its outcomes, each with its probability. *)

Module Dist.

Definition dist (A : Type) : Type := list (A * Q).

(** The outcome [x], with probability 1. *)
Definition ret {A : Type} (x : A) : dist A := [(x, 1)].

(** Each entry of [l] with the same probability [1 / len(l)]. *)
Definition uniform {A : Type} (l : list A) : dist A :=
  map (fun x => (x, 1 / inject_Z (Z.of_nat (length l)))) l.

(** A draw from [d] followed by a draw from [f a]; an exception ends the
    computation. *)
Definition bind {A B : Type} (d : dist (Result A)) (f : A -> dist (Result B))
  : dist (Result B) :=
  flat_map (fun ap =>
              match fst ap with
              | inl e => [(inl e, snd ap)]
              | inr a => map (fun bq => (fst bq, snd ap * snd bq)) (f a)
              end) d.

(** The probability of an event. *)
Definition prob {A : Type} (d : dist A) (event : A -> bool) : Q :=
  fold_right (fun ap acc => (if event (fst ap) then snd ap else 0) + acc) 0 d.

End Dist.

(** [random.randint(a, b)]: every integer of [[a, b]] with the same
    probability; [ValueError] when the range is empty. *)
Definition randint_dist (a b : Z) : Dist.dist (Result Z) :=
  if (b <? a)%Z then Dist.ret (Err ValueError)
  else Dist.uniform (map (fun i => Ok (a + Z.of_nat i)%Z)
                         (seq 0 (Z.to_nat (b - a + 1)))).




(** The draw is the integer [k]. *)
Definition draws (k : Z) (r : Result Z) : bool :=
  match r with
  | inr z => (z =? k)%Z
  | inl _ => false
  end.




(** * Properties *)

(** ** Results and the engine monad *)

Lemma rbind_ok {A B : Type} (r : Result A) (f : A -> Result B) (b : B) :
  rbind r f = Ok b -> exists a, r = Ok a /\ f a = Ok b.
Proof.
  destruct r as [e | a]; simpl; intros H.
  - discriminate H.
  - exists a. split; [reflexivity | exact H].
Qed.

Section MonadFacts.

Context {RS : RandomSource}.

Lemma bind_ok {A B : Type} (m : M A) (f : A -> M B) (w w' : World) (b : B) :
  bind m f w = Ok (b, w') ->
  exists a w1, m w = Ok (a, w1) /\ f a w1 = Ok (b, w').
Proof.
  unfold bind. destruct (m w) as [e | [a w1]]; intros H.
  - discriminate H.
  - exists a, w1. split; [reflexivity | exact H].
Qed.

Lemma lift_ok {A : Type} (r : Result A) (w w' : World) (a : A) :
  lift r w = Ok (a, w') -> r = Ok a /\ w' = w.
Proof.
  unfold lift. destruct r as [e | x]; intros H.
  - discriminate H.
  - inversion H. split; reflexivity.
Qed.

Lemma ret_ok {A : Type} (x a : A) (w w' : World) :
  ret x w = Ok (a, w') -> a = x /\ w' = w.
Proof. unfold ret. intros H. inversion H. split; reflexivity. Qed.

End MonadFacts.

(** Inverts a successful run of a monadic computation, step by step. *)
Ltac invert_run H :=
  repeat match type of H with
         | bind _ _ _ = Ok _ =>
             let a := fresh "a" in
             let w := fresh "w" in
             let H1 := fresh "Hrun" in
             apply bind_ok in H; destruct H as (a & w & H1 & H)
         | rbind _ _ = Ok _ =>
             let a := fresh "a" in
             let H1 := fresh "Hrun" in
             apply rbind_ok in H; destruct H as (a & H1 & H)
         end.

(** ** Amplitude bounds *)

Section Bounds.

Local Open Scope R_scope.

Lemma tanh_abs_lt_1 (x : R) : Rabs (tanh x) < 1.
Proof.
  pose proof (exp_pos x) as Ha.
  pose proof (exp_pos (- x)) as Hb.
  assert (Hq : tanh x * (exp x + exp (- x)) = exp x - exp (- x)).
  { unfold tanh, sinh, cosh. field. lra. }
  apply Rabs_def1; nra.
Qed.

Lemma soft_limit_sample (x : R) : Rabs (tanh (x * (12 / 10)) * (9 / 10)) < 9 / 10.
Proof.
  pose proof (tanh_abs_lt_1 (x * (12 / 10))) as H.
  apply Rabs_def2 in H. destruct H as [H1 H2].
  apply Rabs_def1; lra.
Qed.

Lemma soft_limit_peak (audio : list R) : peak_below (9 / 10) (soft_limit audio).
Proof.
  unfold peak_below, soft_limit, Np.scale.
  rewrite !Forall_map.
  apply Forall_forall. intros x _. apply soft_limit_sample.
Qed.

Lemma attenuate_sample (B x c : R) :
  Rabs x < B -> 0 <= c <= 1 -> Rabs (x * c) < B.
Proof.
  intros Hx Hc. apply Rabs_def2 in Hx. destruct Hx as [H1 H2].
  apply Rabs_def1; nra.
Qed.

Lemma peak_below_mul (B : R) (a f : list R) :
  peak_below B a -> unit_gains f -> peak_below B (Np.mul a f).
Proof.
  unfold peak_below, unit_gains. intros Ha. revert f.
  induction Ha as [| x a Hx Ha IH]; intros f Hf; simpl.
  - constructor.
  - destruct f as [| c f]; [constructor |].
    inversion Hf; subst.
    constructor; [apply attenuate_sample; assumption | apply IH; assumption].
Qed.

Lemma peak_below_scale (B c : R) (a : list R) :
  peak_below B a -> 0 <= c <= 1 -> peak_below B (Np.scale a c).
Proof.
  unfold peak_below, Np.scale. intros Ha Hc.
  rewrite Forall_map. eapply Forall_impl; [| exact Ha].
  intros x Hx. apply attenuate_sample; assumption.
Qed.

Lemma peak_below_firstn (B : R) (n : nat) (a : list R) :
  peak_below B a -> peak_below B (firstn n a).
Proof.
  unfold peak_below. intros H.
  rewrite <- (firstn_skipn n a) in H. apply Forall_app in H. tauto.
Qed.

Lemma peak_below_skipn (B : R) (n : nat) (a : list R) :
  peak_below B a -> peak_below B (skipn n a).
Proof.
  unfold peak_below. intros H.
  rewrite <- (firstn_skipn n a) in H. apply Forall_app in H. tauto.
Qed.

Lemma peak_below_imul_slice (B : R) (s f out : list R) :
  peak_below B s -> unit_gains f -> Np.imul_slice s f = Ok out ->
  peak_below B out.
Proof.
  unfold Np.imul_slice. intros Hs Hf H.
  destruct (length s =? length f)%nat.
  - inversion H; subst. apply peak_below_mul; assumption.
  - destruct f as [| c [| c' f]]; try discriminate H.
    inversion H; subst. apply peak_below_scale; [assumption |].
    inversion Hf; assumption.
Qed.

Lemma peak_below_imul_head (B : R) (a f out : list R) :
  peak_below B a -> unit_gains f -> Np.imul_head a f = Ok out ->
  peak_below B out.
Proof.
  unfold Np.imul_head. intros Ha Hf H. invert_run H.
  inversion H; subst. apply Forall_app. split.
  - eapply peak_below_imul_slice; [| exact Hf | exact Hrun].
    apply peak_below_firstn, Ha.
  - apply peak_below_skipn, Ha.
Qed.

Lemma peak_below_imul_tail (B : R) (a f out : list R) :
  peak_below B a -> unit_gains f -> Np.imul_tail a f = Ok out ->
  peak_below B out.
Proof.
  unfold Np.imul_tail. intros Ha Hf H. invert_run H.
  inversion H; subst. apply Forall_app. split.
  - apply peak_below_firstn, Ha.
  - eapply peak_below_imul_slice; [| exact Hf | exact Hrun].
    apply peak_below_skipn, Ha.
Qed.

(** The points of a ramp between 0 and 1 are gains. *)
Lemma ramp_fraction (i n : nat) : (i < n)%nat -> 0 <= INR i * (1 / INR (n - 1)) <= 1.
Proof.
  intros Hi.
  destruct (Nat.eq_dec n 1) as [-> | Hn].
  - assert (i = 0%nat) as -> by lia. simpl. lra.
  - assert (Hpos : 0 < INR (n - 1)) by (apply lt_0_INR; lia).
    assert (Hle : INR i <= INR (n - 1)) by (apply le_INR; lia).
    pose proof (pos_INR i) as Hi0.
    split.
    + apply Rmult_le_pos; [assumption |].
      apply Rlt_le, Rdiv_lt_0_compat; lra.
    + apply Rmult_le_reg_r with (INR (n - 1)); [assumption |].
      field_simplify; lra.
Qed.

Lemma fade_in_gains (n : nat) : unit_gains (Np.linspace_pts 0 1 n).
Proof.
  unfold unit_gains, Np.linspace_pts. rewrite Forall_map.
  apply Forall_forall. intros i Hi. apply in_seq in Hi.
  pose proof (@ramp_fraction i n ltac:(lia)) as H.
  replace ((1 - 0) / INR (n - 1)) with (1 / INR (n - 1)) by (f_equal; lra).
  lra.
Qed.

Lemma fade_out_gains (n : nat) : unit_gains (Np.linspace_pts 1 0 n).
Proof.
  unfold unit_gains, Np.linspace_pts. rewrite Forall_map.
  apply Forall_forall. intros i Hi. apply in_seq in Hi.
  pose proof (@ramp_fraction i n ltac:(lia)) as H.
  replace ((0 - 1) / INR (n - 1)) with (- (1 / INR (n - 1))).
  - lra.
  - unfold Rdiv. lra.
Qed.

Lemma linspace_ok (a b : R) (n : Z) (l : list R) :
  Np.linspace a b n = Ok l -> l = Np.linspace_pts a b (Z.to_nat n).
Proof.
  unfold Np.linspace. destruct (n <? 0)%Z; intros H.
  - discriminate H.
  - inversion H. reflexivity.
Qed.

Lemma apply_fade_peak (B : R) (audio out : list R) (fade_samples : Z) :
  peak_below B audio -> _apply_fade audio fade_samples = Ok out ->
  peak_below B out.
Proof.
  unfold _apply_fade. intros Ha H. invert_run H.
  apply linspace_ok in Hrun, Hrun0. subst.
  eapply peak_below_imul_tail; [| apply fade_out_gains | exact H].
  eapply peak_below_imul_head; [exact Ha | apply fade_in_gains | exact Hrun1].
Qed.

End Bounds.

(** ** Lengths and totality of the array primitives *)

Section Lengths.

Local Open Scope R_scope.

Lemma mul_length (a b : list R) :
  length (Np.mul a b) = Nat.min (length a) (length b).
Proof.
  revert b. induction a as [| x a IH]; intros [| y b]; simpl; auto.
Qed.

Lemma add_length (a b : list R) :
  length (Np.add a b) = Nat.min (length a) (length b).
Proof.
  revert b. induction a as [| x a IH]; intros [| y b]; simpl; auto.
Qed.

Lemma scale_length (a : list R) (c : R) : length (Np.scale a c) = length a.
Proof. unfold Np.scale. apply length_map. Qed.

Lemma linspace_pts_length (a b : R) (n : nat) :
  length (Np.linspace_pts a b n) = n.
Proof. unfold Np.linspace_pts. rewrite length_map. apply length_seq. Qed.

Lemma iadd_same_length (a b : list R) :
  length a = length b -> Np.iadd a b = Ok (Np.add a b).
Proof.
  intros H. unfold Np.iadd. rewrite H, Nat.eqb_refl. reflexivity.
Qed.

Lemma imul_slice_same_length (s f : list R) :
  length s = length f -> Np.imul_slice s f = Ok (Np.mul s f).
Proof.
  intros H. unfold Np.imul_slice. rewrite H, Nat.eqb_refl. reflexivity.
Qed.

Lemma imul_head_total (a f : list R) :
  (length f <= length a)%nat ->
  exists out, Np.imul_head a f = Ok out /\ length out = length a.
Proof.
  intros Hk. unfold Np.imul_head.
  rewrite imul_slice_same_length by (rewrite length_firstn; lia).
  simpl. eexists. split; [reflexivity |].
  rewrite length_app, mul_length, length_firstn, length_skipn. lia.
Qed.

Lemma imul_tail_total (a f : list R) :
  (1 <= length f <= length a)%nat ->
  exists out, Np.imul_tail a f = Ok out /\ length out = length a.
Proof.
  intros Hk. unfold Np.imul_tail.
  destruct (length f) as [| k] eqn:Hf; [lia |]. rewrite <- Hf in *.
  rewrite imul_slice_same_length by (rewrite length_skipn; lia).
  simpl. eexists. split; [reflexivity |].
  rewrite length_app, mul_length, length_firstn, length_skipn. lia.
Qed.

(** The fade succeeds as soon as the buffer holds at least [fade_samples >= 1]
    samples, and keeps the length. *)
Lemma apply_fade_total (audio : list R) (fade_samples : Z) :
  (1 <= fade_samples <= Z.of_nat (length audio))%Z ->
  exists out, _apply_fade audio fade_samples = Ok out /\ length out = length audio.
Proof.
  intros Hk. unfold _apply_fade, Np.linspace.
  destruct (Z.ltb_spec fade_samples 0) as [Hneg | _]; [lia |].
  simpl.
  destruct (@imul_head_total audio (Np.linspace_pts 0 1 (Z.to_nat fade_samples)))
    as (a1 & H1 & L1).
  { rewrite linspace_pts_length. lia. }
  rewrite H1. simpl.
  destruct (@imul_tail_total a1 (Np.linspace_pts 1 0 (Z.to_nat fade_samples)))
    as (a2 & H2 & L2).
  { rewrite linspace_pts_length. lia. }
  exists a2. split; [exact H2 | congruence].
Qed.

(** Normalisation succeeds on every non-empty buffer, and keeps the length. *)
Lemma normalize_total (audio : list R) (target_peak : R) :
  audio <> [] ->
  exists out, _normalize audio target_peak = Ok out /\ length out = length audio.
Proof.
  intros Hne. unfold _normalize, Np.abs_max.
  destruct audio as [| x audio]; [contradiction |].
  cbn [map rbind].
  destruct (Rlt_dec _ _); eexists; (split; [reflexivity |]).
  - rewrite scale_length. reflexivity.
  - reflexivity.
Qed.

Lemma soft_limit_length (audio : list R) : length (soft_limit audio) = length audio.
Proof. unfold soft_limit. rewrite scale_length, length_map, scale_length. reflexivity. Qed.

End Lengths.

(** ** The soft limiter and the dry output (C9) *)

Section PostProcess.

Context {RS : RandomSource} {L : DspLibrary R}.

Local Open Scope R_scope.

Lemma reverb_skipped (r : Q) : (r == 0)%Q -> Py.Qltb 0 r = false.
Proof.
  intros Hr. unfold Py.Qltb.
  assert (H : Qle_bool r 0 = true) by (apply Qle_bool_iff; rewrite Hr; apply Qle_refl).
  rewrite H. reflexivity.
Qed.

Lemma post_process_dry_peak (params : AudioParameters) (audio out : list R)
                            (w w' : World) :
  (reverb_amount params == 0)%Q ->
  _post_process audio params w = Ok (out, w') ->
  peak_below (9 / 10) out.
Proof.
  intros Hrev Hrun.
  unfold _post_process in Hrun.
  rewrite (reverb_skipped Hrev) in Hrun.
  invert_run Hrun.
  apply lift_ok in Hrun1 as [Hfade _].
  apply ret_ok in Hrun as [-> _].
  eapply apply_fade_peak; [apply soft_limit_peak | exact Hfade].
Qed.

(** C9.  After the soft limiter [tanh(x * 1.2) * 0.9] every sample of any
    buffer has absolute value strictly below 0.9; and when [reverb_amount] is
    0, every sample of the waveform that [_post_process] returns, and so of
    the waveform that [generate] returns, has absolute value strictly below
    0.9, whatever the mixed buffer and its normalisation were. *)
Theorem soft_limiter_caps_dry_output :
  (forall audio : list R, peak_below (9 / 10) (soft_limit audio)) /\
  (forall (params : AudioParameters) (audio out : list R) (w w' : World),
     (reverb_amount params == 0)%Q ->
     _post_process audio params w = Ok (out, w') ->
     peak_below (9 / 10) out) /\
  (forall (sample_cache : SampleCache) (params : AudioParameters)
          (out : list R) (sr : Z) (w w' : World),
     (reverb_amount params == 0)%Q ->
     generate sample_cache params w = Ok ((out, sr), w') ->
     peak_below (9 / 10) out).
Proof.
  split; [| split].
  - apply soft_limit_peak.
  - apply post_process_dry_peak.
  - intros sample_cache params out sr w w' Hrev Hrun.
    unfold generate in Hrun. invert_run Hrun.
    apply ret_ok in Hrun as [E _]. inversion E; subst.
    eapply post_process_dry_peak; eassumption.
Qed.

End PostProcess.

Lemma soft_limiter_caps_dry_output_witness :
  exists (out : list R) (w' : World),
    (reverb_amount dry_params == 0)%Q /\
    _post_process [1; 1; 1]%R dry_params (Counter.world 0 0) = Ok (out, w') /\
    peak_below (9 / 10) out.
Proof.
  assert (Hrun : exists out w',
             _post_process [1; 1; 1]%R dry_params (Counter.world 0 0) = Ok (out, w')).
  { unfold _post_process, bind, lift.
    destruct (@normalize_total [1; 1; 1]%R (95 / 100)%R ltac:(discriminate))
      as (a1 & -> & L1).
    destruct (@apply_fade_total (soft_limit a1) 1) as (a2 & H2 & L2).
    { rewrite soft_limit_length, L1. simpl. lia. }
    change (Py.int ((5 # 100) * inject_Z (sample_rate dry_params))) with 1%Z.
    rewrite H2. do 2 eexists. reflexivity. }
  destruct Hrun as (out & w' & Hrun).
  exists out, w'. split; [reflexivity |]. split; [exact Hrun |].
  exact (proj1 (proj2 (@soft_limiter_caps_dry_output _ (Padding.library 0%R)))
           dry_params [1; 1; 1]%R out (Counter.world 0 0) w' (Qeq_refl 0) Hrun).
Defined.

(** ** Determinism (C1) *)

Section Determinism.

Context {RS : RandomSource} {L : DspLibrary R}.

Variable sample_cache : SampleCache.

(** [generate] overwrites the state of both generators before it draws. *)
Lemma generate_reseeds (params : AudioParameters) (w1 w2 : World) :
  generate sample_cache params w1 = generate sample_cache params w2.
Proof.
  unfold generate. unfold bind at 1 3.
  unfold Random.np_seed_checked.
  destruct ((0 <=? randomness_seed params)%Z && (randomness_seed params <? 2 ^ 32)%Z);
    reflexivity.
Qed.

(** C1.  Two executions of [generate] with the same parameters (the seed
    included) return the same result, whatever state the global generators
    were in before each call: the same samples and the same sample rate, or
    the same exception, and the generators are left in the same state.  In
    particular a second execution that starts where the first one ended
    returns the same waveform and sample rate.  The
    sample cache is the same in both executions because no stage writes to a
    cached array: every in-place operation of the source ([+=], [*=], slice
    assignment) acts on a buffer created during the render. *)
Theorem generate_deterministic (params : AudioParameters) :
  (forall w1 w2 : World,
     generate sample_cache params w1 = generate sample_cache params w2) /\
  (forall (w w' : World) (out : list R * Z),
     generate sample_cache params w = Ok (out, w') ->
     generate sample_cache params w' = Ok (out, w')).
Proof.
  split.
  - apply generate_reseeds.
  - intros w w' out Hrun. rewrite (generate_reseeds params w' w). exact Hrun.
Qed.

End Determinism.

(** ** The mixer (C5) *)

Section Mixer.

Local Open Scope R_scope.

Lemma resize_length (audio : list R) (n : nat) :
  length (_resize_audio audio n) = n.
Proof.
  unfold _resize_audio.
  destruct (Nat.eqb_spec (length audio) n) as [E | NE]; [exact E |].
  destruct (Nat.ltb_spec (length audio) n) as [Hlt | Hge].
  - rewrite length_app, repeat_length. lia.
  - rewrite length_firstn. lia.
Qed.

(** Inside the source buffer the resized buffer repeats it. *)
Lemma resize_keeps (audio : list R) (n i : nat) :
  (i < n)%nat -> (i < length audio)%nat ->
  nth_error (_resize_audio audio n) i = nth_error audio i.
Proof.
  intros Hn Hi. unfold _resize_audio.
  destruct (Nat.eqb_spec (length audio) n) as [E | NE]; [reflexivity |].
  destruct (Nat.ltb_spec (length audio) n) as [Hlt | Hge].
  - apply nth_error_app1, Hi.
  - rewrite nth_error_firstn.
    destruct (Nat.ltb_spec i n); [reflexivity | lia].
Qed.

(** Past the end of the source buffer the resized buffer is zero. *)
Lemma resize_pads (audio : list R) (n i : nat) :
  (i < n)%nat -> (length audio <= i)%nat ->
  nth_error (_resize_audio audio n) i = Some 0.
Proof.
  intros Hn Hi. unfold _resize_audio.
  destruct (Nat.eqb_spec (length audio) n) as [E | NE]; [lia |].
  destruct (Nat.ltb_spec (length audio) n) as [Hlt | Hge]; [| lia].
  rewrite nth_error_app2 by exact Hi.
  apply nth_error_repeat. lia.
Qed.

Lemma nth_scale (a : list R) (c : R) (i : nat) :
  nth i (Np.scale a c) 0 = nth i a 0 * c.
Proof.
  unfold Np.scale.
  replace 0 with (0 * c) at 1 by ring.
  apply (map_nth (fun x => x * c)).
Qed.

Lemma nth_add (a b : list R) (i : nat) :
  length a = length b -> nth i (Np.add a b) 0 = nth i a 0 + nth i b 0.
Proof.
  revert b i. induction a as [| x a IH]; intros [| y b] i H; simpl in *;
    try discriminate.
  - destruct i; ring.
  - destruct i as [| i]; [reflexivity |]. apply IH. congruence.
Qed.

Lemma lookup_resized (key : string) (n : nat) (layers : Layers) :
  lookup key (resized n layers)
  = option_map (fun a => _resize_audio a n) (lookup key layers).
Proof.
  induction layers as [| [k v] layers IH]; simpl; [reflexivity |].
  destruct (String.eqb key k); [reflexivity | exact IH].
Qed.

(** What [_mix_layers] returns for a layer set with noise and rumble
    entries. *)
Lemma mix_layers_run
  (base : list R) (layers : Layers) (params : AudioParameters)
  (noise rumble : list R) :
  lookup "noise" layers = Some noise ->
  lookup "rumble" layers = Some rumble ->
  let n := length base in
  let fit := fun a => _resize_audio a n in
  exists mixed,
    _mix_layers base layers params = Ok mixed /\
    length mixed = n /\
    forall i, (i < n)%nat ->
      nth i mixed 0
      = match lookup "bubbling" layers with
        | None =>
            6 / 10 * nth i base 0 + 15 / 100 * nth i (fit noise) 0
            + 20 / 100 * nth i (fit rumble) 0
        | Some bubbling =>
            (6 / 10 * nth i base 0 + 15 / 100 * nth i (fit noise) 0
             + 20 / 100 * nth i (fit rumble) 0
             + 15 / 100 * nth i (fit bubbling) 0) * (8 / 10)
        end.
Proof.
  intros Hnoise Hrumble n fit.
  unfold _mix_layers, getitem, contains.
  fold (resized (length base) layers). fold n.
  rewrite !lookup_resized, Hnoise, Hrumble. cbn [option_map lift_lib rbind].
  fold (fit noise). fold (fit rumble).
  assert (Ln : length (fit noise) = n) by apply resize_length.
  assert (Lr : length (fit rumble) = n) by apply resize_length.
  rewrite iadd_same_length by (rewrite !scale_length; fold n; lia).
  cbn [rbind].
  rewrite iadd_same_length
    by (rewrite add_length, !scale_length; fold n; lia).
  destruct (lookup "bubbling" layers) as [bubbling |] eqn:Hb;
    cbn [option_map lift_lib rbind].
  - fold (fit bubbling).
    assert (Lb : length (fit bubbling) = n) by apply resize_length.
    rewrite iadd_same_length
      by (rewrite !add_length, !scale_length; fold n; lia).
    eexists. split; [reflexivity |]. split.
    + rewrite scale_length, !add_length, !scale_length. fold n. lia.
    + intros i Hi.
      rewrite nth_scale, nth_add
        by (rewrite !add_length, !scale_length; fold n; lia).
      rewrite nth_add by (rewrite add_length, !scale_length; fold n; lia).
      rewrite nth_add by (rewrite !scale_length; fold n; lia).
      rewrite !nth_scale. ring.
  - eexists. split; [reflexivity |]. split.
    + rewrite !add_length, !scale_length. fold n. lia.
    + intros i Hi.
      rewrite nth_add by (rewrite add_length, !scale_length; fold n; lia).
      rewrite nth_add by (rewrite !scale_length; fold n; lia).
      rewrite !nth_scale. ring.
Qed.

(** C5.  The mixer resizes every layer to the length of the transformed base
    (keeping the samples a layer has, zero-padding a shorter layer at the
    tail, truncating a longer one) and returns, sample by sample,
    [0.60*base + 0.15*noise + 0.20*rumble] when the layer set has no
    [bubbling] entry and
    [(0.60*base + 0.15*noise + 0.20*rumble + 0.15*bubbling) * 0.8] when it
    has one. *)
Theorem mix_layers_weights
  (base : list R) (layers : Layers) (params : AudioParameters)
  (noise rumble : list R)
  (Hnoise : lookup "noise" layers = Some noise)
  (Hrumble : lookup "rumble" layers = Some rumble) :
  let n := length base in
  let fit := fun a => _resize_audio a n in
  (forall a, length (fit a) = n) /\
  (forall a i, (i < n)%nat ->
     nth_error (fit a) i
     = Some (match nth_error a i with Some x => x | None => 0 end)) /\
  exists mixed,
    _mix_layers base layers params = Ok mixed /\
    length mixed = n /\
    forall i, (i < n)%nat ->
      nth i mixed 0
      = match lookup "bubbling" layers with
        | None =>
            6 / 10 * nth i base 0 + 15 / 100 * nth i (fit noise) 0
            + 20 / 100 * nth i (fit rumble) 0
        | Some bubbling =>
            (6 / 10 * nth i base 0 + 15 / 100 * nth i (fit noise) 0
             + 20 / 100 * nth i (fit rumble) 0
             + 15 / 100 * nth i (fit bubbling) 0) * (8 / 10)
        end.
Proof.
  intros n fit. split; [| split].
  - intros a. apply resize_length.
  - intros a i Hi. unfold fit.
    destruct (Nat.lt_ge_cases i (length a)) as [Hlt | Hge].
    + rewrite resize_keeps by assumption.
      destruct (nth_error a i) eqn:E; [reflexivity |].
      apply nth_error_None in E. lia.
    + rewrite resize_pads by assumption.
      apply nth_error_None in Hge. rewrite Hge. reflexivity.
  - apply mix_layers_run; assumption.
Qed.

End Mixer.

Lemma mix_layers_weights_witness :
  exists mixed,
    _mix_layers [1; 1; 1]%R mixer_layers dry_params = Ok mixed /\
    length mixed = 3%nat /\
    nth 2 mixed 0%R
    = ((6 / 10 * 1 + 15 / 100 * 0 + 20 / 100 * 1 + 15 / 100 * 1) * (8 / 10))%R.
Proof.
  destruct (@mix_layers_weights [1; 1; 1]%R mixer_layers dry_params
              [1]%R [1; 1; 1; 1; 1]%R eq_refl eq_refl)
    as (_ & _ & mixed & Hrun & Hlen & Hmix).
  exists mixed. split; [exact Hrun |]. split; [exact Hlen |].
  rewrite (Hmix 2%nat ltac:(simpl; lia)). reflexivity.
Defined.

(** ** Draws *)

Section Draws.

Context {RS : RandomSource}.

Lemma with_py_ok {A : Type} (f : py_state -> A * py_state) (w : World) :
  with_py f w = Ok (fst (f (fst w)), (snd (f (fst w)), snd w)).
Proof. unfold with_py. destruct (f (fst w)); reflexivity. Qed.

Lemma with_np_ok {A : Type} (f : np_state -> A * np_state) (w : World) :
  with_np f w = Ok (fst (f (snd w)), (fst w, snd (f (snd w)))).
Proof. unfold with_np. destruct (f (snd w)); reflexivity. Qed.

(** [randint a b] succeeds exactly on a non-empty range, with a value of
    the range. *)
Lemma randint_total (a b : Z) (w : World) :
  (a <= b)%Z ->
  exists r w', Random.randint a b w = Ok (r, w') /\ (a <= r <= b)%Z.
Proof.
  intros Hab. unfold Random.randint.
  destruct (Z.ltb_spec b a) as [Hlt | _]; [lia |].
  unfold bind. rewrite with_py_ok. unfold ret.
  do 2 eexists. split; [reflexivity |].
  pose proof (@py_randbelow_range _ (b - a + 1)%Z (fst w) ltac:(lia)). lia.
Qed.

Lemma randint_empty (a b : Z) (w : World) :
  (b < a)%Z -> Random.randint a b w = Err ValueError.
Proof.
  intros Hab. unfold Random.randint.
  destruct (Z.ltb_spec b a) as [_ | Hge]; [reflexivity | lia].
Qed.

Lemma randint_ok (a b r : Z) (w w' : World) :
  Random.randint a b w = Ok (r, w') -> (a <= r <= b)%Z.
Proof.
  intros H. destruct (Z.lt_ge_cases b a) as [Hlt | Hge].
  - rewrite randint_empty in H by exact Hlt. discriminate H.
  - destruct (randint_total w Hge) as (r0 & w0 & H0 & Hr).
    rewrite H0 in H. inversion H; subst. exact Hr.
Qed.

Lemma uniform_ok (a b x : R) (w w' : World) :
  (a <= b)%R -> Random.uniform a b w = Ok (x, w') -> (a <= x <= b)%R.
Proof.
  intros Hab. unfold Random.uniform, bind. rewrite with_py_ok. unfold ret.
  intros H. inversion H; subst.
  pose proof (py_random_unit (fst w)). nra.
Qed.

Lemma uniform_total (a b : R) (w : World) :
  exists x w', Random.uniform a b w = Ok (x, w').
Proof.
  unfold Random.uniform, bind. rewrite with_py_ok. unfold ret.
  do 2 eexists. reflexivity.
Qed.

End Draws.

(** ** The bubbling layer (C4, C10) *)

Section Bubbling.

Context {RS : RandomSource}.

Local Open Scope R_scope.

Lemma draw_bubble_ok (length : Z) (b : Bubble) (w w' : World) :
  draw_bubble length w = Ok (b, w') -> drawn_in_range length b.
Proof.
  unfold draw_bubble. intros H. invert_run H.
  apply ret_ok in H as [-> _].
  apply randint_ok in Hrun, Hrun0.
  apply uniform_ok in Hrun1; [| lra].
  unfold drawn_in_range; simpl. repeat split; tauto || lia || lra.
Qed.

Lemma draw_bubble_total (length : Z) (w : World) :
  (1000 <= length)%Z -> exists b w', draw_bubble length w = Ok (b, w').
Proof.
  intros Hlen. unfold draw_bubble, bind.
  destruct (@randint_total _ 0%Z (length - 1000)%Z w ltac:(lia)) as (p & w1 & -> & _).
  destruct (@randint_total _ 100%Z 500%Z w1 ltac:(lia)) as (bl & w2 & -> & _).
  destruct (uniform_total 300 1000 w2) as (f & w3 & ->).
  unfold ret. do 2 eexists. reflexivity.
Qed.

Lemma draw_bubble_short (length : Z) (w : World) :
  (length < 1000)%Z -> draw_bubble length w = Err ValueError.
Proof.
  intros Hlen. unfold draw_bubble, bind.
  rewrite randint_empty by lia. reflexivity.
Qed.

(** What the loop computes: it draws [n] bubbles, each from the ranges of
    [drawn_in_range], and superposes them. *)
Lemma bubble_loop_ok (n : nat) (length sr : Z) (audio out : list R) (w w' : World) :
  bubble_loop n length sr audio w = Ok (out, w') ->
  exists bubbles,
    List.length bubbles = n /\
    Forall (drawn_in_range length) bubbles /\
    superpose length sr bubbles audio = Ok out.
Proof.
  revert audio w. induction n as [| n IH]; intros audio w H; simpl in H.
  - apply ret_ok in H as [-> _]. exists []. repeat split. constructor.
  - invert_run H. apply lift_ok in Hrun0 as [Hadd ->].
    apply IH in H. destruct H as (bs & Hlen & Hall & Hsup).
    exists (a :: bs). split; [simpl; congruence |]. split.
    + constructor; [eapply draw_bubble_ok; eassumption | assumption].
    + simpl. rewrite Hadd. exact Hsup.
Qed.

(** A burst is the carrier times the decay envelope [exp(-t * 50)] over
    [bubble_length] instants, as soon as the sample rate is not zero. *)
Lemma bubble_wave_total (sr : Z) (b : Bubble) :
  sr <> 0%Z -> (0 <= bubble_length b)%Z ->
  exists t,
    List.length t = Z.to_nat (bubble_length b) /\
    bubble_wave sr b
    = Ok (Np.mul (map (fun ti => sin (2 * PI * freq b * ti)) t)
                 (map (fun ti => exp (- ti * 50)) t)).
Proof.
  intros Hsr Hbl. unfold bubble_wave, Py.div.
  assert (E : Qeq_bool (inject_Z sr) 0 = false).
  { destruct (Qeq_bool (inject_Z sr) 0) eqn:E; [| reflexivity].
    apply Qeq_bool_eq in E. unfold Qeq in E. simpl in E. lia. }
  rewrite E. cbn [rbind]. unfold Np.linspace.
  destruct (Z.ltb_spec (bubble_length b) 0) as [Hneg | _]; [lia |].
  cbn [rbind]. eexists. split; [| reflexivity].
  apply linspace_pts_length.
Qed.

Lemma bubble_wave_ok (sr : Z) (b : Bubble) (wave : list R) :
  bubble_wave sr b = Ok wave ->
  exists t,
    wave = Np.mul (map (fun ti => sin (2 * PI * freq b * ti)) t)
                  (map (fun ti => exp (- ti * 50)) t).
Proof.
  unfold bubble_wave. intros H. invert_run H.
  inversion H. exists a0. reflexivity.
Qed.

End Bubbling.

Section BubblingTotal.

Context {RS : RandomSource}.

Local Open Scope R_scope.

(** A bubble drawn from the ranges of the source ends at least 500 samples
    before the end of the buffer, so [min] never cuts it. *)
Lemma burst_fits (length : Z) (b : Bubble) :
  drawn_in_range length b ->
  (pos b + bubble_length b <= length - 500)%Z /\
  Py.min (pos b + bubble_length b) length = (pos b + bubble_length b)%Z.
Proof.
  intros (Hp & Hl & _). unfold Py.min. split; lia.
Qed.

Lemma add_burst_total (length : Z) (b : Bubble) (bubble audio : list R) :
  drawn_in_range length b ->
  List.length audio = Z.to_nat length ->
  List.length bubble = Z.to_nat (bubble_length b) ->
  exists out, add_burst length b bubble audio = Ok out /\
              List.length out = List.length audio.
Proof.
  intros Hr La Lb. destruct (burst_fits Hr) as [Hend Hmin].
  destruct Hr as (Hp & Hl & _).
  unfold add_burst. rewrite Hmin.
  replace (pos b + bubble_length b - pos b)%Z with (bubble_length b) by lia.
  assert (Lt : List.length (firstn (Z.to_nat (bubble_length b))
                              (skipn (Z.to_nat (pos b)) audio))
               = Z.to_nat (bubble_length b)).
  { rewrite length_firstn, length_skipn, La. lia. }
  assert (Ls : List.length (Np.scale (firstn (Z.to_nat (bubble_length b)) bubble)
                                     (1 / 10))
               = Z.to_nat (bubble_length b)).
  { rewrite scale_length, length_firstn, Lb. lia. }
  rewrite iadd_same_length by congruence. cbn [rbind].
  eexists. split; [reflexivity |].
  rewrite !length_app, add_length, Lt, Ls, length_firstn, length_skipn, La. lia.
Qed.

Lemma add_bubble_total (length sr : Z) (b : Bubble) (audio : list R) :
  sr <> 0%Z ->
  drawn_in_range length b ->
  List.length audio = Z.to_nat length ->
  exists out, add_bubble length sr b audio = Ok out /\
              List.length out = List.length audio.
Proof.
  intros Hsr Hr La. unfold add_bubble.
  destruct (@bubble_wave_total sr b Hsr) as (t & Lt & ->).
  { destruct Hr as (_ & Hl & _). lia. }
  cbn [rbind]. apply add_burst_total; [exact Hr | exact La |].
  rewrite mul_length, !length_map, Lt. lia.
Qed.

Lemma bubble_loop_total (n : nat) (length sr : Z) (audio : list R) (w : World) :
  (1000 <= length)%Z -> sr <> 0%Z ->
  List.length audio = Z.to_nat length ->
  exists out w', bubble_loop n length sr audio w = Ok (out, w').
Proof.
  intros Hlen Hsr. revert audio w.
  induction n as [| n IH]; intros audio w La; simpl.
  - unfold ret. do 2 eexists. reflexivity.
  - unfold bind at 1.
    destruct (draw_bubble_total w Hlen) as (b & w1 & Hb). rewrite Hb.
    apply draw_bubble_ok in Hb.
    destruct (@add_bubble_total length sr b audio Hsr Hb La) as (a1 & Ha1 & L1).
    unfold bind, lift. rewrite Ha1.
    apply IH. congruence.
Qed.

Lemma bubble_loop_short (n : nat) (length sr : Z) (audio : list R) (w : World) :
  (length < 1000)%Z ->
  bubble_loop (S n) length sr audio w = Err ValueError.
Proof.
  intros Hlen. simpl. unfold bind.
  rewrite draw_bubble_short by exact Hlen. reflexivity.
Qed.

Lemma zeros_ok (n : Z) (a : list R) :
  Np.zeros n = Ok a -> a = repeat 0 (Z.to_nat n) /\ (0 <= n)%Z.
Proof.
  unfold Np.zeros. destruct (Z.ltb_spec n 0) as [Hn | Hn]; intros E; inversion E.
  split; [reflexivity | assumption].
Qed.

Lemma generate_bubbling_short (length sr wetness : Z) (w : World) :
  (1 <= wetness)%Z -> (length < 1000)%Z ->
  _generate_bubbling length sr wetness w = Err ValueError.
Proof.
  intros Hw Hlen. unfold _generate_bubbling, bind, lift, Np.zeros.
  destruct (length <? 0)%Z; [reflexivity |].
  destruct (Z.to_nat (wetness * 5)) as [| n] eqn:E; [lia |].
  apply bubble_loop_short, Hlen.
Qed.

Lemma generate_bubbling_total (length sr wetness : Z) (w : World) :
  (1000 <= length)%Z -> sr <> 0%Z ->
  exists out w', _generate_bubbling length sr wetness w = Ok (out, w').
Proof.
  intros Hlen Hsr. unfold _generate_bubbling, bind, lift, Np.zeros.
  destruct (Z.ltb_spec length 0) as [Hneg | _]; [lia |].
  apply bubble_loop_total; [exact Hlen | exact Hsr |].
  apply repeat_length.
Qed.

Lemma generate_bubbling_ok (length sr wetness : Z) (out : list R) (w w' : World) :
  _generate_bubbling length sr wetness w = Ok (out, w') ->
  exists bubbles,
    List.length bubbles = Z.to_nat (wetness * 5) /\
    Forall (drawn_in_range length) bubbles /\
    superpose length sr bubbles (repeat 0 (Z.to_nat length)) = Ok out.
Proof.
  unfold _generate_bubbling. intros H. invert_run H.
  apply lift_ok in Hrun as [Hz ->]. apply zeros_ok in Hz as [-> _].
  eapply bubble_loop_ok, H.
Qed.

End BubblingTotal.

(** ** The noise and rumble layers *)

Section NoiseRumble.

Context {RS : RandomSource}.

Local Open Scope R_scope.

Lemma draws_from_length (n : nat) (s : np_state) :
  length (fst (draws_from n s)) = n.
Proof.
  revert s. induction n as [| n IH]; intros s; simpl; [reflexivity |].
  destruct (np_standard_normal s) as [z s1].
  specialize (IH s1). destruct (draws_from n s1) as [zs s2].
  simpl in *. congruence.
Qed.

Lemma np_draws_run (n : nat) (w : World) :
  Random.np_draws n w
  = Ok (fst (draws_from n (snd w)), (fst w, snd (draws_from n (snd w)))).
Proof.
  revert w. induction n as [| n IH]; intros [py np]; simpl.
  - reflexivity.
  - unfold bind at 1. rewrite with_np_ok. simpl.
    destruct (np_standard_normal np) as [z s1]. simpl.
    unfold bind. rewrite IH. simpl.
    destruct (draws_from n s1) as [zs s2]. reflexivity.
Qed.

Lemma np_normal_run (loc scale : R) (size : Z) (w : World) :
  (0 <= size)%Z ->
  Random.np_normal loc scale size w
  = Ok (map (fun z => loc + scale * z) (fst (draws_from (Z.to_nat size) (snd w))),
        (fst w, snd (draws_from (Z.to_nat size) (snd w)))).
Proof.
  intros Hs. unfold Random.np_normal.
  destruct (Z.ltb_spec size 0) as [Hneg | _]; [lia |].
  unfold bind. rewrite np_draws_run. reflexivity.
Qed.

Lemma np_normal_ok (loc scale : R) (size : Z) (w w' : World) (l : list R) :
  Random.np_normal loc scale size w = Ok (l, w') -> (0 <= size)%Z.
Proof.
  unfold Random.np_normal.
  destruct (Z.ltb_spec size 0) as [Hneg | Hpos]; [discriminate | auto].
Qed.

Lemma div_nonzero (a : Q) (sr : Z) :
  sr <> 0%Z -> Py.div a (inject_Z sr) = Ok (a / inject_Z sr)%Q.
Proof.
  intros Hsr. unfold Py.div.
  destruct (Qeq_bool (inject_Z sr) 0) eqn:E; [| reflexivity].
  apply Qeq_bool_eq in E. unfold Qeq in E. simpl in E. lia.
Qed.

Lemma div_ok (a b q : Q) : Py.div a b = Ok q -> ~ (b == 0)%Q /\ q = (a / b)%Q.
Proof.
  unfold Py.div. destruct (Qeq_bool b 0) eqn:E; intros H; inversion H.
  split; [| reflexivity]. intros Hb. apply Qeq_eq_bool in Hb. congruence.
Qed.

Lemma div_by_rate_ok (a q : Q) (sr : Z) :
  Py.div a (inject_Z sr) = Ok q -> sr <> 0%Z.
Proof.
  intros H. apply div_ok in H as [Hne _]. intros ->. apply Hne. reflexivity.
Qed.

(** White noise: each sample is 0.1 times a standard-normal draw. *)
Lemma generate_noise_white (length sr : Z) (w : World) :
  (0 <= length)%Z ->
  _generate_noise length sr white w
  = Ok (map (fun z => 0 + 1 / 10 * z) (fst (draws_from (Z.to_nat length) (snd w))),
        (fst w, snd (draws_from (Z.to_nat length) (snd w)))).
Proof. intros H. unfold _generate_noise. apply np_normal_run, H. Qed.

Lemma generate_noise_pink (length sr : Z) (w : World) :
  (1 <= length)%Z -> sr <> 0%Z ->
  _generate_noise length sr pink w
  = Ok (shape_pink
          (map (fun z => 0 + 1 * z) (fst (draws_from (Z.to_nat length) (snd w))))
          sr,
        (fst w, snd (draws_from (Z.to_nat length) (snd w)))).
Proof.
  intros Hlen Hsr. unfold _generate_noise, bind at 1.
  rewrite np_normal_run by lia.
  unfold bind at 1, lift at 1, Fft.fft.
  pose proof (draws_from_length (Z.to_nat length) (snd w)) as Hd.
  destruct (fst (draws_from (Z.to_nat length) (snd w))) as [| z zs] eqn:E.
  { simpl in Hd. lia. }
  cbn [map]. unfold bind, lift. rewrite div_nonzero by exact Hsr.
  unfold ret, shape_pink. cbn [map List.length]. simpl in Hd. rewrite length_map, Hd.
  reflexivity.
Qed.

Lemma rumble_partial_total (base_freq : R) (t : list R) (i : nat)
                             (rumble : list R) (w : World) :
  exists out w', rumble_partial base_freq t i rumble w = Ok (out, w').
Proof.
  unfold rumble_partial, Random.np_uniform, bind. rewrite with_np_ok.
  unfold ret. do 2 eexists. reflexivity.
Qed.

Lemma generate_rumble_total (length sr : Z) (base_freq : R) (w : World) :
  (0 <= length)%Z -> sr <> 0%Z ->
  exists rumble w', _generate_rumble length sr base_freq w = Ok (rumble, w').
Proof.
  intros Hlen Hsr. unfold _generate_rumble, bind at 1, lift at 1.
  rewrite div_nonzero by exact Hsr.
  unfold bind at 1, lift at 1, Np.linspace.
  destruct (Z.ltb_spec length 0) as [Hneg | _]; [lia |].
  unfold bind at 1, lift at 1, Np.zeros.
  destruct (Z.ltb_spec length 0) as [Hneg | _]; [lia |].
  destruct (rumble_partial_total base_freq
              (Np.linspace_pts 0 (Q2R (inject_Z length / inject_Z sr))
                               (Z.to_nat length))
              0 (repeat 0 (Z.to_nat length)) w) as (r1 & w1 & H1).
  unfold bind at 1. rewrite H1.
  destruct (rumble_partial_total base_freq
              (Np.linspace_pts 0 (Q2R (inject_Z length / inject_Z sr))
                               (Z.to_nat length))
              1 r1 w1) as (r2 & w2 & H2).
  unfold bind at 1. rewrite H2.
  destruct (rumble_partial_total base_freq
              (Np.linspace_pts 0 (Q2R (inject_Z length / inject_Z sr))
                               (Z.to_nat length))
              2 r2 w2) as (r3 & w3 & H3).
  unfold bind at 1. rewrite H3.
  destruct (uniform_total 5 15 w3) as (m & w4 & H4).
  unfold bind. rewrite H4. unfold ret.
  do 2 eexists. reflexivity.
Qed.

Lemma generate_rumble_ok (length sr : Z) (base_freq : R) (w w' : World)
                          (rumble : list R) :
  _generate_rumble length sr base_freq w = Ok (rumble, w') ->
  sr <> 0%Z /\ (0 <= length)%Z.
Proof.
  unfold _generate_rumble. intros H. invert_run H.
  apply lift_ok in Hrun as [Hd _]. apply div_by_rate_ok in Hd.
  apply lift_ok in Hrun1 as [Hz _]. apply zeros_ok in Hz as [_ Hz].
  split; assumption.
Qed.

End NoiseRumble.

(** ** The layer set *)

Section SynthesisLayers.

Context {RS : RandomSource}.

Local Open Scope R_scope.

(** A successful run of [_generate_synthesis_layers], taken apart. *)
Lemma synthesis_layers_ok (params : AudioParameters) (w w' : World) (layers : Layers) :
  _generate_synthesis_layers params w = Ok (layers, w') ->
  exists noise rumble w1 w2,
    _generate_noise (duration_samples params) (sample_rate params)
                    (noise_type_of params) w = Ok (noise, w1) /\
    _generate_rumble (duration_samples params) (sample_rate params)
                     (_pitch_to_freq (pitch params)) w1 = Ok (rumble, w2) /\
    (((wetness params <= 5)%Z /\
      layers = [("noise"%string, noise); ("rumble"%string, rumble)]) \/
     ((5 < wetness params)%Z /\
      exists bubbling,
        _generate_bubbling (duration_samples params) (sample_rate params)
                           (wetness params) w2 = Ok (bubbling, w') /\
        layers = [("noise"%string, noise); ("rumble"%string, rumble);
                  ("bubbling"%string, bubbling)])).
Proof.
  unfold _generate_synthesis_layers.
  fold (duration_samples params). fold (noise_type_of params).
  intros H.
  apply bind_ok in H. destruct H as (noise & w1 & Hn & H).
  apply bind_ok in H. destruct H as (rumble & w2 & Hr & H).
  exists noise, rumble, w1, w2. split; [exact Hn |]. split; [exact Hr |].
  destruct (Z.ltb_spec 5 (wetness params)) as [Hwet | Hdry].
  - right. split; [exact Hwet |].
    apply bind_ok in H. destruct H as (bubbling & w3 & Hb & H).
    apply ret_ok in H as [-> ->]. exists bubbling. split; [exact Hb | reflexivity].
  - left. split; [exact Hdry |]. apply ret_ok in H as [-> _]. reflexivity.
Qed.

(** The layer set is produced whenever the sample rate is not zero, the
    buffer length is not negative and, for a wet sound, the buffer holds at
    least 1000 samples. *)
Lemma synthesis_layers_total (params : AudioParameters) (w : World) :
  sample_rate params <> 0%Z ->
  (0 <= duration_samples params)%Z ->
  ((5 < wetness params)%Z -> (1000 <= duration_samples params)%Z) ->
  exists layers w', _generate_synthesis_layers params w = Ok (layers, w').
Proof.
  intros Hsr Hlen Hwet. unfold _generate_synthesis_layers.
  fold (duration_samples params).
  destruct (Z.ltb_spec 5 (wetness params)) as [Hw | Hw].
  - specialize (Hwet Hw).
    unfold bind at 1. rewrite generate_noise_pink by (lia || assumption).
    destruct (@generate_rumble_total _ (duration_samples params) (sample_rate params)
                (_pitch_to_freq (pitch params))
                (fst w, snd (draws_from (Z.to_nat (duration_samples params)) (snd w)))
                Hlen Hsr) as (rumble & w2 & Hr).
    unfold bind at 1. rewrite Hr.
    destruct (@generate_bubbling_total _ (duration_samples params)
                (sample_rate params) (wetness params) w2 Hwet Hsr)
      as (bubbling & w3 & Hb).
    unfold bind. rewrite Hb. unfold ret. do 2 eexists. reflexivity.
  - unfold bind at 1. rewrite generate_noise_white by assumption.
    destruct (@generate_rumble_total _ (duration_samples params) (sample_rate params)
                (_pitch_to_freq (pitch params))
                (fst w, snd (draws_from (Z.to_nat (duration_samples params)) (snd w)))
                Hlen Hsr) as (rumble & w2 & Hr).
    unfold bind. rewrite Hr. unfold ret. do 2 eexists. reflexivity.
Qed.

(** The noise entry of the layer set, in closed form. *)
Lemma synthesis_noise_layer (params : AudioParameters) (w w' : World) (layers : Layers) :
  _generate_synthesis_layers params w = Ok (layers, w') ->
  let zs := fst (draws_from (Z.to_nat (duration_samples params)) (snd w)) in
  exists noise,
    lookup "noise" layers = Some noise /\
    ((wetness params <= 5)%Z -> noise = map (fun z => 0 + 1 / 10 * z) zs) /\
    ((5 < wetness params)%Z ->
     noise = shape_pink (map (fun z => 0 + 1 * z) zs) (sample_rate params)).
Proof.
  intros H zs. apply synthesis_layers_ok in H.
  destruct H as (noise & rumble & w1 & w2 & Hn & Hr & Hcase).
  apply generate_rumble_ok in Hr as [Hsr Hlen].
  exists noise. split.
  { destruct Hcase as [[_ ->] | [_ (b & _ & ->)]]; reflexivity. }
  unfold noise_type_of in Hn.
  destruct (Z.ltb_spec 5 (wetness params)) as [Hw | Hw]; split; intros Hw'; try lia.
  - assert (Hpos : (1 <= duration_samples params)%Z).
    { destruct Hcase as [[Hc _] | [_ (b & Hb & _)]]; [lia |].
      destruct (Z.lt_ge_cases (duration_samples params) 1000) as [Hs | Hs]; [| lia].
      rewrite generate_bubbling_short in Hb by lia. discriminate Hb. }
    rewrite generate_noise_pink in Hn by assumption.
    inversion Hn. reflexivity.
  - rewrite generate_noise_white in Hn by assumption.
    inversion Hn. reflexivity.
Qed.

End SynthesisLayers.

(** ** Short buffers and the bubbling generator *)

Section ShortBuffers.

Context {RS : RandomSource} {L : DspLibrary R}.

Local Open Scope R_scope.

Lemma synthesis_layers_short (params : AudioParameters) (w : World) :
  (5 < wetness params)%Z -> (duration_samples params < 1000)%Z ->
  exists e, _generate_synthesis_layers params w = Err e.
Proof.
  intros Hwet Hshort.
  destruct (_generate_synthesis_layers params w) as [e | [layers w']] eqn:Hrun.
  - exists e. reflexivity.
  - apply synthesis_layers_ok in Hrun.
    destruct Hrun as (noise & rumble & w1 & w2 & _ & _ & Hcase).
    destruct Hcase as [[Hdry _] | [_ (b & Hb & _)]]; [lia |].
    rewrite generate_bubbling_short in Hb by lia. discriminate Hb.
Qed.

Lemma generate_short (sample_cache : SampleCache) (params : AudioParameters)
                     (w : World) :
  (5 < wetness params)%Z -> (duration_samples params < 1000)%Z ->
  exists e, generate sample_cache params w = Err e.
Proof.
  intros Hwet Hshort.
  destruct (generate sample_cache params w) as [e | [out w']] eqn:Hrun.
  - exists e. reflexivity.
  - unfold generate in Hrun.
    apply bind_ok in Hrun. destruct Hrun as (u1 & w1 & _ & Hrun).
    apply bind_ok in Hrun. destruct Hrun as (u2 & w2 & _ & Hrun).
    apply bind_ok in Hrun. destruct Hrun as (base & w3 & _ & Hrun).
    apply bind_ok in Hrun. destruct Hrun as (layers & w4 & Hsyn & _).
    destruct (@synthesis_layers_short params w3 Hwet Hshort) as (e & He).
    rewrite He in Hsyn. discriminate Hsyn.
Qed.

End ShortBuffers.

(** ** The noise layer (C6) *)

Section NoiseLayer.

Context {RS : RandomSource}.

Local Open Scope R_scope.

(** C6, as the code has it.  Whenever [_generate_synthesis_layers] returns a
    layer set, its noise layer is white noise exactly when [wetness <= 5]
    and pink noise otherwise.  A white sample is 0.1 times a standard-normal
    draw (mean 0, standard deviation 0.1); the pink layer is 0.1 times the
    real part of the inverse transform of the white spectrum divided by
    [sqrt(|f| + 1)].  A sample is therefore within 0.1 only where the draw
    behind it is within 1: there is no fixed ceiling. *)
Theorem noise_layer_is_scaled_normal
  (params : AudioParameters) (w w' : World) (layers : Layers)
  (Hrun : _generate_synthesis_layers params w = Ok (layers, w')) :
  let zs := fst (draws_from (Z.to_nat (duration_samples params)) (snd w)) in
  exists noise,
    lookup "noise" layers = Some noise /\
    ((wetness params <= 5)%Z ->
     noise = map (fun z => 0 + 1 / 10 * z) zs /\
     forall i, (i < length zs)%nat ->
       (Rabs (nth i noise 0) <= 1 / 10 <-> Rabs (nth i zs 0) <= 1)) /\
    ((5 < wetness params)%Z ->
     noise = Np.scale
               (Fft.ifft_real
                  (Fft.cdiv (Fft.dft (map (fun z => 0 + 1 * z) zs))
                            (map (fun f => sqrt (Rabs f + 1))
                                 (Fft.fftfreq (length zs)
                                    (Q2R (1 / inject_Z (sample_rate params)))))))
               (1 / 10)).
Proof.
  intros zs.
  destruct (synthesis_noise_layer _ _ Hrun) as (noise & Hlook & Hwhite & Hpink).
  exists noise. split; [exact Hlook |]. split.
  - intros Hdry. specialize (Hwhite Hdry). fold zs in Hwhite.
    split; [exact Hwhite |].
    intros i Hi. rewrite Hwhite.
    rewrite (nth_indep _ 0 ((fun z => 0 + 1 / 10 * z) 0))
      by (rewrite length_map; exact Hi).
    rewrite (map_nth (fun z => 0 + 1 / 10 * z)).
    replace (0 + 1 / 10 * nth i zs 0) with (nth i zs 0 * (1 / 10)) by ring.
    rewrite Rabs_mult, (Rabs_pos_eq (1 / 10)) by lra.
    split; intros H; lra.
  - intros Hwet. specialize (Hpink Hwet). fold zs in Hpink.
    rewrite Hpink. unfold shape_pink. rewrite length_map. reflexivity.
Qed.

End NoiseLayer.

Lemma noise_layer_is_scaled_normal_witness :
  exists (layers : Layers) (w' : World) (noise : list R),
    _generate_synthesis_layers dry_noise_params (Counter.world 6 6) = Ok (layers, w') /\
    lookup "noise" layers = Some noise /\
    noise = map (fun z => 0 + 1 / 10 * z)%R
                (fst (draws_from 10 (snd (Counter.world 6 6)))).
Proof.
  destruct (@synthesis_layers_total _ dry_noise_params (Counter.world 6 6))
    as (layers & w' & Hrun).
  - discriminate.
  - vm_compute. discriminate.
  - simpl. lia.
  - destruct (@noise_layer_is_scaled_normal _ dry_noise_params (Counter.world 6 6)
                w' layers Hrun) as (noise & Hlook & Hwhite & _).
    exists layers, w', noise. split; [exact Hrun |]. split; [exact Hlook |].
    apply Hwhite. simpl. lia.
Defined.

(** With the generator seeded by 6, the first standard-normal draw of the
    render is 3, so the first sample of the white noise layer is 0.3: three
    times the ceiling the specification gives, and not within it. *)
Lemma noise_layer_exceeds_ceiling :
  exists (layers : Layers) (w' : World) (noise : list R),
    _generate_synthesis_layers dry_noise_params (Counter.world 6 6) = Ok (layers, w') /\
    lookup "noise" layers = Some noise /\
    nth 0 noise 0%R = (3 / 10)%R /\
    ~ Forall (fun x => (Rabs x <= 1 / 10)%R) noise.
Proof.
  destruct (@synthesis_layers_total _ dry_noise_params (Counter.world 6 6))
    as (layers & w' & Hrun).
  - discriminate.
  - vm_compute. discriminate.
  - simpl. lia.
  - destruct (synthesis_noise_layer _ _ Hrun) as (noise & Hlook & Hwhite & _).
    specialize (Hwhite ltac:(simpl; lia)).
    exists layers, w', noise. split; [exact Hrun |]. split; [exact Hlook |].
    assert (H0 : nth 0 noise 0%R = (3 / 10)%R).
    { rewrite Hwhite.
      change (duration_samples dry_noise_params) with 10%Z.
      change (Z.to_nat 10) with 10%nat.
      cbn [draws_from np_standard_normal Counter.source Counter.standard_normal
           Counter.world snd fst map nth].
      change (6 mod 7 - 3)%Z with 3%Z. lra. }
    split; [exact H0 |].
    intros Hall. destruct noise as [| x noise]; simpl in H0.
    + lra.
    + inversion Hall as [| ? ? Hx _]; subst.
      rewrite Rabs_pos_eq in Hx; lra.
Qed.

(** ** Sample selection (C7) *)

(** ** Counting the arrangements *)

Section Arrangements.







End Arrangements.

(** ** Probabilities *)

Section Probabilities.

Import Dist.



(** Under the uniform distribution, the probability of an event is the share
    of the outcomes in it. *)
Lemma prob_uniform {A : Type} (l : list A) (event : A -> bool) :
  prob (uniform l) event
  == inject_Z (Z.of_nat (length (filter event l)))
     * (1 / inject_Z (Z.of_nat (length l))).
Proof.
  unfold uniform. generalize (1 / inject_Z (Z.of_nat (length l))). intros c.
  unfold prob. induction l as [| x l IH]; simpl.
  - ring.
  - rewrite IH. destruct (event x); simpl length.
    + rewrite Nat2Z.inj_succ, <- Z.add_1_r, inject_Z_plus. ring.
    + ring.
Qed.



Lemma count_filter_none {A : Type} (event : A -> bool) (l : list A) :
  Forall (fun x => event x = false) l -> length (filter event l) = 0%nat.
Proof.
  induction 1 as [| x l Hx _ IH]; [reflexivity |].
  simpl. rewrite Hx. exact IH.
Qed.

Lemma count_draws (a k : Z) (m s : nat) :
  (a + Z.of_nat s <= k < a + Z.of_nat s + Z.of_nat m)%Z ->
  length (filter (draws k) (map (fun i => Ok (a + Z.of_nat i)%Z) (seq s m))) = 1%nat.
Proof.
  revert s. induction m as [| m IH]; intros s Hk; [lia |].
  cbn [seq map filter draws].
  destruct (Z.eqb_spec (a + Z.of_nat s) k) as [E | E].
  - simpl. f_equal. apply count_filter_none.
    rewrite Forall_map. apply Forall_forall. intros i Hi. apply in_seq in Hi.
    cbn [draws]. apply Z.eqb_neq. lia.
  - apply IH. lia.
Qed.

(** [random.randint(a, b)] gives every integer of [[a, b]] the probability
    [1 / (b - a + 1)]. *)
Lemma randint_uniform (a b k : Z) :
  (a <= k <= b)%Z ->
  prob (randint_dist a b) (draws k) == 1 / inject_Z (b - a + 1).
Proof.
  intros Hk. unfold randint_dist.
  destruct (Z.ltb_spec b a) as [Hc | _]; [lia |].
  rewrite prob_uniform, count_draws by lia.
  rewrite length_map, length_seq, Z2Nat.id by lia.
  change (inject_Z (Z.of_nat 1)) with 1. ring.
Qed.













End Probabilities.

(** ** The selection *)

Section Selection.

Context {RS : RandomSource}.

Variable sample_cache : SampleCache.

Lemma picks_in_range {A : Type} (population : list A) (idx : list nat) :
  Forall (fun i => (i < length population)%nat) idx ->
  picked population idx
         (flat_map (fun i => match nth_error population i with
                             | Some x => [x]
                             | None => []
                             end) idx).
Proof.
  unfold picked. induction 1 as [| i idx Hi _ IH]; simpl.
  - constructor.
  - destruct (nth_error population i) as [x |] eqn:E.
    + simpl. constructor; assumption.
    + apply nth_error_None in E. lia.
Qed.

Lemma sample_total {A : Type} (population : list A) (k : Z) (w : World) :
  (0 <= k <= Z.of_nat (length population))%Z ->
  exists sel idx w',
    Random.sample population k w = Ok (sel, w') /\
    length idx = Z.to_nat k /\ NoDup idx /\ picked population idx sel.
Proof.
  intros Hk. unfold Random.sample.
  destruct (Z.ltb_spec k 0) as [Hneg | _]; [lia |].
  destruct (Z.ltb_spec (Z.of_nat (length population)) k) as [Hbig | _]; [lia |].
  cbn [orb]. unfold bind. rewrite with_py_ok. unfold ret.
  pose proof (@py_sample_indices_spec _ (length population) (Z.to_nat k) (fst w)
                ltac:(lia)) as (Hlen & Hnd & Hin).
  do 3 eexists. split; [reflexivity |].
  split; [exact Hlen |]. split; [exact Hnd |].
  apply picks_in_range, Hin.
Qed.


Lemma select_samples_total (fart_type : FartType) (w : World) :
  sample_cache fart_type <> [] ->
  exists sel idx w',
    select_samples sample_cache fart_type w = Ok (sel, w') /\
    (1 <= length sel <= 3)%nat /\
    (length sel <= length (sample_cache fart_type))%nat /\
    NoDup idx /\
    picked (sample_cache fart_type) idx sel.
Proof.
  intros Hne. unfold select_samples.
  set (samples := sample_cache fart_type) in *.
  assert (Hn : (1 <= length samples)%nat).
  { destruct samples; [contradiction | simpl; lia]. }
  destruct (@randint_total _ 1%Z (Py.min 3 (Z.of_nat (length samples))) w)
    as (k & w1 & Hk & Hrange).
  { unfold Py.min. lia. }
  unfold bind at 1. rewrite Hk.
  unfold Py.min in Hrange.
  destruct (@sample_total _ samples k w1 ltac:(lia))
    as (sel & idx & w2 & Hs & Hlen & Hnd & Hpick).
  exists sel, idx, w2. split; [exact Hs |].
  assert (Hsel : length sel = Z.to_nat k).
  { rewrite <- Hlen. symmetry. eapply Forall2_length, Hpick. }
  repeat split; try assumption; lia.
Qed.



End Selection.



(** ** The transform stage (C2, C8) *)

Section TransformStage.

Context {A : Type} {L : DspLibrary A}.

(** A successful run of the stage, taken apart: the output is whatever the
    stretch, the shift and (for [wetness > 5]) the filter return, in that
    order; nothing inspects the samples. *)
Lemma apply_transformations_ok (audio out : list A) (params : AudioParameters) :
  _apply_transformations audio params = Ok out ->
  exists stretched shifted,
    time_stretch audio (stretch_factor audio params) = Some stretched /\
    pitch_shift stretched (sample_rate params) ((pitch params - 5) * 2)
    = Some shifted /\
    ((wetness params <= 5)%Z /\ out = shifted \/
     (5 < wetness params)%Z /\
     _apply_lowpass_filter shifted (800 + (10 - wetness params) * 200)
                           (sample_rate params) = Ok out).
Proof.
  unfold _apply_transformations, stretch_factor. intros H. invert_run H.
  apply div_ok in Hrun as [_ ->]. apply div_ok in Hrun0 as [_ ->].
  destruct (time_stretch audio _) as [stretched |] eqn:Hs; [| discriminate Hrun1].
  inversion Hrun1; subst a1.
  destruct (pitch_shift stretched _ _) as [shifted |] eqn:Hp; [| discriminate Hrun2].
  inversion Hrun2; subst a2.
  exists stretched, shifted.
  split; [first [exact Hs | reflexivity] |].
  split; [first [exact Hp | reflexivity] |].
  destruct (Z.ltb_spec 5 (wetness params)) as [Hw | Hw].
  - right. split; assumption.
  - left. split; [exact Hw |]. inversion H. reflexivity.
Qed.

(** Without the low-pass filter, the stage returns the output of the pitch
    shift as it is. *)
Lemma apply_transformations_dry (audio stretched shifted : list A)
                                (params : AudioParameters) :
  audio <> [] -> sample_rate params <> 0%Z -> (wetness params <= 5)%Z ->
  time_stretch audio (stretch_factor audio params) = Some stretched ->
  pitch_shift stretched (sample_rate params) ((pitch params - 5) * 2) = Some shifted ->
  _apply_transformations audio params = Ok shifted.
Proof.
  intros Hne Hsr Hw Hs Hp. unfold _apply_transformations.
  rewrite div_nonzero by exact Hsr. cbn [rbind].
  unfold Py.div.
  destruct (Qeq_bool (inject_Z (Z.of_nat (length audio)) / inject_Z (sample_rate params)) 0)
    eqn:E.
  { apply Qeq_bool_eq in E. exfalso.
    destruct audio as [| x audio]; [contradiction |].
    unfold Qeq, Qdiv, Qmult, Qinv in E.
    destruct (sample_rate params); simpl in E; lia. }
  cbn [rbind]. fold (stretch_factor audio params). rewrite Hs. cbn [lift_lib rbind].
  rewrite Hp. cbn [lift_lib rbind].
  destruct (Z.ltb_spec 5 (wetness params)); [lia | reflexivity].
Qed.

Lemma lowpass_error (audio : list A) (cutoff sr : Z) (e : error) :
  _apply_lowpass_filter audio cutoff sr = Err e ->
  e = ZeroDivisionError \/ e = ValueError.
Proof.
  unfold _apply_lowpass_filter, Py.div.
  destruct (Qeq_bool _ 0); cbn [rbind]; [intros H; inversion H; auto |].
  destruct (butter 4 _); cbn [lift_lib rbind]; [| intros H; inversion H; auto].
  destruct (sosfilt _ _); cbn [lift_lib]; intros H; inversion H; auto.
Qed.

Lemma apply_transformations_error (audio : list A) (params : AudioParameters)
                                  (e : error) :
  _apply_transformations audio params = Err e ->
  e = ZeroDivisionError \/ e = ParameterError \/ e = ValueError.
Proof.
  unfold _apply_transformations, Py.div.
  destruct (Qeq_bool (inject_Z (sample_rate params)) 0); cbn [rbind];
    [intros H; inversion H; auto |].
  destruct (Qeq_bool _ 0); cbn [rbind]; [intros H; inversion H; auto |].
  destruct (time_stretch audio _); cbn [lift_lib rbind];
    [| intros H; inversion H; auto].
  destruct (pitch_shift _ _ _); cbn [lift_lib rbind];
    [| intros H; inversion H; auto].
  destruct (5 <? wetness params)%Z.
  - intros H. apply lowpass_error in H. tauto.
  - intros H. discriminate H.
Qed.

(** The output length of the stage: [round(n / stretch_factor)] for an input
    of [n] samples. *)
Lemma apply_transformations_length (audio out : list A) (params : AudioParameters) :
  _apply_transformations audio params = Ok out ->
  Z.of_nat (length out)
  = Py.round (inject_Z (Z.of_nat (length audio)) / stretch_factor audio params).
Proof.
  intros H. apply apply_transformations_ok in H.
  destruct H as (stretched & shifted & Hs & Hp & Hcase).
  apply time_stretch_length in Hs. apply pitch_shift_length in Hp.
  rewrite <- Hs, <- Hp. f_equal.
  destruct Hcase as [[_ ->] | [_ Hf]]; [reflexivity |].
  unfold _apply_lowpass_filter in Hf. invert_run Hf.
  destruct (sosfilt a0 shifted) as [y |] eqn:E; [| discriminate Hf].
  inversion Hf; subst y. eapply sosfilt_length, E.
Qed.

(** C8, as the code has it.  The transform stage never ends with
    [TransformInstabilityError] (its only exceptions are a division by zero
    and those of the libraries), and it makes no finiteness check: when it
    succeeds its output is what the stretch, the shift and the optional
    filter returned, and without the filter (that is for [wetness <= 5]) it
    hands on the output of the pitch shift unchanged, whatever values that
    holds. *)
Theorem transform_has_no_instability_check
  (audio : list A) (params : AudioParameters) :
  _apply_transformations audio params <> Err TransformInstabilityError /\
  (forall out, _apply_transformations audio params = Ok out ->
     exists stretched shifted,
       time_stretch audio (stretch_factor audio params) = Some stretched /\
       pitch_shift stretched (sample_rate params) ((pitch params - 5) * 2)
       = Some shifted /\
       ((wetness params <= 5)%Z /\ out = shifted \/
        (5 < wetness params)%Z /\
        _apply_lowpass_filter shifted (800 + (10 - wetness params) * 200)
                              (sample_rate params) = Ok out)) /\
  (forall stretched shifted,
     audio <> [] -> sample_rate params <> 0%Z -> (wetness params <= 5)%Z ->
     time_stretch audio (stretch_factor audio params) = Some stretched ->
     pitch_shift stretched (sample_rate params) ((pitch params - 5) * 2)
     = Some shifted ->
     _apply_transformations audio params = Ok shifted).
Proof.
  split; [| split].
  - intros H. apply apply_transformations_error in H.
    destruct H as [H | [H | H]]; discriminate H.
  - intros out. apply apply_transformations_ok.
  - intros stretched shifted. apply apply_transformations_dry.
Qed.

End TransformStage.

Lemma transform_has_no_instability_check_witness :
  _apply_transformations (L := Overflow.library)
    [Overflow.finite 1; Overflow.finite 1] tiny_params
  = Ok [Overflow.infinity; Overflow.infinity].
Proof.
  apply (proj2 (proj2 (@transform_has_no_instability_check _ Overflow.library
                         [Overflow.finite 1; Overflow.finite 1] tiny_params))
           [Overflow.finite 1; Overflow.finite 1]).
  - discriminate.
  - discriminate.
  - simpl. lia.
  - reflexivity.
  - reflexivity.
Defined.

(** The pitch shift produces non-finite values, and the transform stage
    returns the buffer that holds them instead of failing with
    [TransformInstabilityError]. *)
Lemma transform_returns_non_finite :
  exists out,
    _apply_transformations (L := Overflow.library)
      [Overflow.finite 1; Overflow.finite 1] tiny_params = Ok out /\
    existsb (fun x => negb (Overflow.isfinite x)) out = true /\
    _apply_transformations (L := Overflow.library)
      [Overflow.finite 1; Overflow.finite 1] tiny_params
    <> Err TransformInstabilityError.
Proof.
  exists [Overflow.infinity; Overflow.infinity].
  split; [reflexivity |]. split; [reflexivity | discriminate].
Qed.

(** *** Duration after the time stretch (C2) *)

Section Duration.

Context {L : DspLibrary R}.

(** C2 at a failing input.  For a base sample of one second (44100 samples at
    44.1 kHz) and a requested duration of two seconds the stage computes
    [stretch_factor = 2 / 1 = 2] and passes it as [rate]; the result has
    22050 samples, half a second, which is outside the tolerance around two
    seconds. *)
Theorem time_stretch_halves_instead_of_doubling
  (audio out : list R)
  (Hlen : length audio = Z.to_nat 44100)
  (Hrun : _apply_transformations audio two_second_params = Ok out) :
  (stretch_factor audio two_second_params == 2)%Q /\
  length out = Z.to_nat 22050 /\
  ~ duration_within_tolerance two_second_params (length out).
Proof.
  apply apply_transformations_length in Hrun.
  unfold stretch_factor in *. rewrite Hlen in *.
  assert (Hout : length out = Z.to_nat 22050).
  { apply Nat2Z.inj. rewrite Hrun. vm_compute. reflexivity. }
  split; [vm_compute; reflexivity |]. split; [exact Hout |].
  rewrite Hout. intros H. vm_compute in H. apply H. reflexivity.
Qed.

End Duration.

Lemma time_stretch_halves_instead_of_doubling_witness :
  exists out,
    length (repeat 0%R (Z.to_nat 44100)) = Z.to_nat 44100 /\
    _apply_transformations (L := Padding.library 0%R)
      (repeat 0%R (Z.to_nat 44100)) two_second_params = Ok out /\
    length out = Z.to_nat 22050 /\
    ~ duration_within_tolerance two_second_params (length out).
Proof.
  assert (Hlen : length (repeat 0%R (Z.to_nat 44100)) = Z.to_nat 44100)
    by apply repeat_length.
  assert (Hrun : _apply_transformations (L := Padding.library 0%R)
                   (repeat 0%R (Z.to_nat 44100)) two_second_params
                 = Ok (Padding.fit 0%R (repeat 0%R (Z.to_nat 44100)) (Z.to_nat 22050))).
  { eapply apply_transformations_dry.
    - intros E. apply (f_equal (@length R)) in E. rewrite Hlen in E. discriminate E.
    - discriminate.
    - simpl. lia.
    - cbn [time_stretch Padding.library]. unfold Padding.stretch, stretch_factor.
      rewrite Hlen. reflexivity.
    - reflexivity. }
  eexists. split; [exact Hlen |]. split; [exact Hrun |].
  exact (proj2 (@time_stretch_halves_instead_of_doubling (Padding.library 0%R)
                  _ _ Hlen Hrun)).
Defined.

(** ** Peak of the reverberated output (C3) *)

Section ReverbPeak.

Local Open Scope R_scope.

Lemma normalize_ones :
  _normalize [1; 1; 1; 1] (95 / 100)
  = Ok [95 / 100; 95 / 100; 95 / 100; 95 / 100].
Proof.
  unfold _normalize, Np.abs_max. cbn [map Np.max_list rbind].
  rewrite Rabs_R1.
  rewrite !(Rmax_left 1 1) by lra.
  destruct (Rlt_dec 0 1) as [_ | H]; [| lra].
  unfold Np.scale. cbn [map].
  replace (1 * (95 / 100 / 1)) with (95 / 100) by field. reflexivity.
Qed.

(** With [fade_samples = 1] the fade-in is the single gain 0 and the fade-out
    the single gain 1. *)
Lemma fade_four (c : R) :
  _apply_fade [c; c; c; c] 1
  = Ok [c * (0 + INR 0 * ((1 - 0) / INR (1 - 1))); c; c;
        c * (1 + INR 0 * ((0 - 1) / INR (1 - 1)))].
Proof. reflexivity. Qed.

Lemma exp_fourth_power (y : R) : 0 <= 1 + y -> (1 + y) ^ 4 <= exp (4 * y).
Proof.
  intros Hy.
  replace (4 * y) with (y + y + (y + y)) by ring.
  rewrite !exp_plus.
  assert (H : 1 + y <= exp y).
  { destruct (Req_dec y 0) as [-> | Hne].
    - rewrite exp_0. lra.
    - apply Rlt_le, exp_ineq1, Hne. }
  replace (exp y * exp y * (exp y * exp y)) with (exp y ^ 4) by ring.
  apply pow_incr. split; assumption.
Qed.

Lemma limited_peak_lower_bound : 68 / 100 <= limited_peak.
Proof.
  unfold limited_peak.
  replace (95 / 100 * (12 / 10)) with (4 * (285 / 1000)) by field.
  pose proof (@exp_fourth_power (285 / 1000) ltac:(lra)) as Ha.
  set (y := 4 * (285 / 1000)) in *.
  pose proof (exp_pos y) as Hpa.
  pose proof (exp_pos (- y)) as Hpb.
  assert (Hab : exp y * exp (- y) = 1)
    by (rewrite <- exp_plus, Rplus_opp_r; apply exp_0).
  assert (Hq : tanh y * (exp y + exp (- y)) = exp y - exp (- y)).
  { unfold tanh, sinh, cosh. field. lra. }
  assert (Ha' : 272 / 100 <= exp y) by (simpl in Ha; lra).
  assert (Hb' : exp (- y) <= 100 / 272).
  { apply Rmult_le_reg_l with (exp y); [exact Hpa |]. rewrite Hab. nra. }
  assert (Ht : 76 / 100 <= tanh y) by nra.
  lra.
Qed.

(** C3 at a failing input.  The post-processor receives the mixed buffer
    [[1, 1, 1, 1]] with [reverb_amount = 1] at a sample rate of 22 Hz, and the
    eleven standard-normal draws of the impulse response are
    [-1, 0, 1, 2, 3, -3, -2, -1, 0, 1, 2].  Normalisation, limiter and fade
    leave [[0, c, c, c]] with [c = 0.9 * tanh(1.14)], about 0.73, and the
    reverb returns
    [c * (3 * exp(-10/11) + 2 * exp(-15/22) + exp(-5/11))], about 2.09, as
    first sample: above 1.5, hence above the target peak 0.95 and above full
    scale. *)
Theorem reverb_exceeds_full_scale :
  exists (out : list R) (w' : World),
    valid_params reverb_params /\
    _post_process [1; 1; 1; 1] reverb_params (Counter.world 0 2) = Ok (out, w') /\
    nth 0 out 0
    = limited_peak * (3 * exp (- 10 / 11) + 2 * exp (- 15 / 22) + exp (- 5 / 11)) /\
    3 / 2 < Rabs (nth 0 out 0).
Proof.
  unfold _post_process, bind at 1, lift at 1. rewrite normalize_ones.
  unfold bind at 1, lift at 1.
  change (Py.int ((5 # 100) * inject_Z (sample_rate reverb_params))) with 1%Z.
  change (soft_limit [95 / 100; 95 / 100; 95 / 100; 95 / 100])
    with [limited_peak; limited_peak; limited_peak; limited_peak].
  rewrite fade_four.
  change (Py.Qltb 0 (reverb_amount reverb_params)) with true. cbv iota.
  unfold _apply_reverb.
  change (Py.int ((1 # 2) * inject_Z (sample_rate reverb_params))) with 11%Z.
  unfold bind. rewrite np_normal_run by lia.
  do 2 eexists.
  split.
  { unfold valid_params, reverb_params; simpl.
    repeat split; try lia; unfold Qle; simpl; lia. }
  split; [reflexivity |].
  cbv beta iota zeta delta
    [nth Np.add Np.scale map Signal.convolve_same Signal.conv_at Fft.sum_R seq
     fold_right List.length impulse_response Np.mul draws_from fst snd
     Counter.world Z.to_nat Pos.to_nat Pos.iter_op Nat.add Nat.sub Nat.div
     Nat.divmod Nat.leb np_standard_normal Counter.source
     Counter.standard_normal reverb_params sample_rate reverb_amount
     Z.add Pos.add Pos.succ Z.modulo Z.div_eucl Z.pos_div_eucl Z.sub Z.opp
     Z.pos_sub Z.leb Z.ltb Z.compare Pos.compare Pos.compare_cont Z.mul Pos.mul
     Z.succ_double Z.pred_double Z.double Pos.pred_double].
  replace (Q2R 1) with 1 by (unfold Q2R; simpl; field).
  replace (INR 0) with 0 by reflexivity.
  replace (- INR 4 / (22 * (2 / 10))) with (- 10 / 11) by (simpl; field).
  replace (- INR 3 / (22 * (2 / 10))) with (- 15 / 22) by (simpl; field).
  replace (- INR 2 / (22 * (2 / 10))) with (- 5 / 11) by (simpl; field).
  set (e5 := exp (- INR 5 / (22 * (2 / 10)))).
  set (e4 := exp (- 10 / 11)). set (e3 := exp (- 15 / 22)). set (e2 := exp (- 5 / 11)).
  match goal with
  | |- ?x = _ /\ _ =>
      assert (Hout : x = limited_peak * (3 * e4 + 2 * e3 + e2)) by ring
  end.
  rewrite Hout. split; [reflexivity |].
  pose proof (@exp_fourth_power (- 10 / 44) ltac:(lra)) as H4.
  pose proof (@exp_fourth_power (- 15 / 88) ltac:(lra)) as H3.
  pose proof (@exp_fourth_power (- 5 / 44) ltac:(lra)) as H2.
  replace (4 * (- 10 / 44)) with (- 10 / 11) in H4 by field.
  replace (4 * (- 15 / 88)) with (- 15 / 22) in H3 by field.
  replace (4 * (- 5 / 44)) with (- 5 / 11) in H2 by field.
  fold e4 in H4. fold e3 in H3. fold e2 in H2.
  pose proof limited_peak_lower_bound as Hc.
  assert (H4' : 35 / 100 <= e4) by (simpl in H4; lra).
  assert (H3' : 47 / 100 <= e3) by (simpl in H3; lra).
  assert (H2' : 61 / 100 <= e2) by (simpl in H2; lra).
  rewrite Rabs_pos_eq; nra.
Qed.

End ReverbPeak.

(** ** A complete render *)

Section DryRender.

Context {RS : RandomSource}.

Local Open Scope R_scope.

(** Without reverb the post-processor succeeds on every buffer that holds at
    least [fade_samples >= 1] samples; it keeps the length, draws nothing and
    returns samples strictly below 0.9. *)
Lemma post_process_dry_total (audio : list R) (params : AudioParameters) (w : World) :
  Py.Qltb 0 (reverb_amount params) = false ->
  (1 <= fade_samples_of params <= Z.of_nat (length audio))%Z ->
  exists out,
    _post_process audio params w = Ok (out, w) /\
    length out = length audio /\
    peak_below (9 / 10) out.
Proof.
  intros Hrev Hk. unfold _post_process. fold (fade_samples_of params).
  rewrite Hrev.
  destruct (@normalize_total audio (95 / 100)) as (a1 & H1 & L1).
  { intros ->. simpl in Hk. lia. }
  unfold bind at 1, lift at 1. rewrite H1.
  destruct (@apply_fade_total (soft_limit a1) (fade_samples_of params))
    as (a2 & H2 & L2).
  { rewrite soft_limit_length, L1. exact Hk. }
  unfold bind, lift. rewrite H2. unfold ret.
  exists a2. split; [reflexivity |]. split.
  - rewrite L2, soft_limit_length. exact L1.
  - eapply apply_fade_peak; [apply soft_limit_peak | exact H2].
Qed.

End DryRender.

(** The pipeline runs to the end on this input and returns twenty samples at
    the requested rate, all strictly below 0.9 in absolute value. *)
Lemma generate_returns_waveform :
  exists (out : list R) (w' : World),
    generate (L := Padding.library 0%R) demo_cache demo_params (Counter.world 0 0)
    = Ok ((out, 40%Z), w') /\
    length out = 20%nat /\
    peak_below (9 / 10) out.
Proof.
  unfold generate.
  unfold bind at 1.
  change (Random.np_seed_checked (randomness_seed demo_params) (Counter.world 0 0))
    with (Ok (tt, Counter.world 0 42) : Result (unit * World)).
  cbv iota beta.
  unfold bind at 1.
  change (Random.seed (randomness_seed demo_params) (Counter.world 0 42))
    with (Ok (tt, Counter.world 42 42) : Result (unit * World)).
  cbv iota beta.
  unfold bind at 1.
  change (_select_and_load_samples demo_cache (type demo_params) (Counter.world 42 42))
    with (Ok (repeat 1%R 20, Counter.world 44 42) : Result (list R * World)).
  cbv iota beta.
  destruct (@synthesis_layers_total _ demo_params (Counter.world 44 42))
    as (layers & w1 & Hsyn); [discriminate | vm_compute; discriminate | simpl; lia |].
  unfold bind at 1. rewrite Hsyn.
  apply synthesis_layers_ok in Hsyn.
  destruct Hsyn as (noise & rumble & _ & _ & _ & _ & [[_ ->] | [Hwet _]]);
    [| simpl in Hwet; lia].
  unfold bind at 1, lift at 1.
  change (_apply_transformations (repeat 1%R 20) demo_params)
    with (Ok (Padding.fit 0%R (repeat 1%R 20) 20) : Result (list R)).
  cbv iota beta.
  destruct (@mix_layers_run (Padding.fit 0%R (repeat 1%R 20) 20)
              [("noise"%string, noise); ("rumble"%string, rumble)] demo_params
              noise rumble eq_refl eq_refl) as (mixed & Hmix & Lmix & _).
  unfold bind at 1, lift at 1. rewrite Hmix.
  destruct (@post_process_dry_total _ mixed demo_params w1 eq_refl)
    as (out & Hpost & Lout & Hpeak).
  { rewrite Lmix. vm_compute. split; discriminate. }
  unfold bind. rewrite Hpost. unfold ret.
  exists out, w1. split; [reflexivity |]. split; [| exact Hpeak].
  rewrite Lout, Lmix. reflexivity.
Qed.

(** The render above, and the same render started from the state it left. *)
Lemma generate_deterministic_witness :
  exists (out : list R * Z) (w' : World),
    generate (L := Padding.library 0%R) demo_cache demo_params (Counter.world 0 0)
    = Ok (out, w') /\
    generate (L := Padding.library 0%R) demo_cache demo_params w' = Ok (out, w').
Proof.
  destruct generate_returns_waveform as (out & w' & Hrun & _).
  exists (out, 40%Z), w'. split; [exact Hrun |].
  exact (proj2 (@generate_deterministic _ (Padding.library 0%R) demo_cache demo_params)
           (Counter.world 0 0) w' (out, 40%Z) Hrun).
Defined.

(** * Further properties *)

(** ** Pitch to frequency *)

Section PitchToFreq.

Local Open Scope R_scope.

Lemma pitch_to_freq_octave (pitch : Z) :
  _pitch_to_freq (pitch + 5) = 2 * _pitch_to_freq pitch.
Proof.
  unfold _pitch_to_freq. rewrite plus_IZR.
  replace ((IZR pitch + 5) / 5) with (IZR pitch / 5 + 1) by field.
  rewrite Rpower_plus, Rpower_1 by lra. ring.
Qed.

Lemma pitch_to_freq_increasing (p q : Z) :
  (p < q)%Z -> _pitch_to_freq p < _pitch_to_freq q.
Proof.
  intros H. unfold _pitch_to_freq.
  apply Rmult_lt_compat_l; [lra |].
  apply Rpower_lt; [lra |].
  apply IZR_lt in H. lra.
Qed.

Lemma pitch_to_freq_0 : _pitch_to_freq 0 = 40.
Proof.
  unfold _pitch_to_freq.
  replace (0 / 5) with 0 by field. rewrite Rpower_O by lra. ring.
Qed.

(** X1.  The mapping of [_pitch_to_freq]: 40 Hz at pitch 0, 80 Hz at pitch 5 and
    160 Hz at pitch 10 (the values of the comment in the source); five steps
    of pitch double the frequency; the frequency grows strictly with the
    pitch, and stays in [[40, 160]] Hz over the valid pitches 0 to 10. *)
Theorem pitch_to_freq_scale :
  _pitch_to_freq 0 = 40 /\ _pitch_to_freq 5 = 80 /\ _pitch_to_freq 10 = 160 /\
  (forall pitch : Z, _pitch_to_freq (pitch + 5) = 2 * _pitch_to_freq pitch) /\
  (forall p q : Z, (p < q)%Z -> _pitch_to_freq p < _pitch_to_freq q) /\
  (forall pitch : Z, (0 <= pitch <= 10)%Z ->
     40 <= _pitch_to_freq pitch <= 160).
Proof.
  assert (H5 : _pitch_to_freq 5 = 80).
  { change 5%Z with (0 + 5)%Z. rewrite pitch_to_freq_octave, pitch_to_freq_0. ring. }
  assert (H10 : _pitch_to_freq 10 = 160).
  { change 10%Z with (5 + 5)%Z. rewrite pitch_to_freq_octave, H5. ring. }
  split; [apply pitch_to_freq_0 |]. split; [exact H5 |]. split; [exact H10 |].
  split; [apply pitch_to_freq_octave |]. split; [apply pitch_to_freq_increasing |].
  intros pitch [Hlo Hhi]. rewrite <- pitch_to_freq_0, <- H10. split.
  - destruct (Z.eq_dec pitch 0) as [-> | Hne]; [lra |].
    apply Rlt_le, pitch_to_freq_increasing. lia.
  - destruct (Z.eq_dec pitch 10) as [-> | Hne]; [lra |].
    apply Rlt_le, pitch_to_freq_increasing. lia.
Qed.

End PitchToFreq.

(** ** The rumble layer *)

Section Rumble.

Context {RS : RandomSource}.

Local Open Scope R_scope.

Lemma peak_within_add (B1 B2 : R) (a b : list R) :
  peak_within B1 a -> peak_within B2 b -> peak_within (B1 + B2) (Np.add a b).
Proof.
  unfold peak_within. intros Ha. revert b.
  induction Ha as [| x a Hx Ha IH]; intros b Hb; simpl; [constructor |].
  destruct Hb as [| y b Hy Hb]; [constructor |].
  constructor; [| apply IH, Hb].
  eapply Rle_trans; [apply Rabs_triang | lra].
Qed.

Lemma peak_within_mul_gains (B : R) (a f : list R) :
  peak_within B a -> unit_gains f -> peak_within B (Np.mul a f).
Proof.
  unfold peak_within, unit_gains. intros Ha. revert f.
  induction Ha as [| x a Hx Ha IH]; intros f Hf; simpl; [constructor |].
  destruct Hf as [| c f Hc Hf]; [constructor |].
  constructor; [| apply IH, Hf].
  rewrite Rabs_mult, (Rabs_pos_eq c) by lra.
  pose proof (Rabs_pos x). nra.
Qed.

Lemma peak_within_scale (B c : R) (a : list R) :
  peak_within B a -> 0 <= c -> peak_within (B * c) (Np.scale a c).
Proof.
  unfold peak_within, Np.scale. intros Ha Hc. rewrite Forall_map.
  eapply Forall_impl; [| exact Ha]. intros x Hx. simpl.
  rewrite Rabs_mult, (Rabs_pos_eq c) by lra.
  apply Rmult_le_compat_r; assumption.
Qed.

Lemma peak_within_weaken (B B' : R) (a : list R) :
  B <= B' -> peak_within B a -> peak_within B' a.
Proof.
  unfold peak_within. intros HB Ha. eapply Forall_impl; [| exact Ha].
  intros x Hx. simpl in Hx. lra.
Qed.

Lemma peak_within_zeros (n : nat) : peak_within 0 (repeat 0 n).
Proof.
  unfold peak_within. apply Forall_forall. intros x Hx.
  apply repeat_spec in Hx. subst. rewrite Rabs_R0. lra.
Qed.

Lemma sine_third (f : R -> R) (t : list R) :
  peak_within (1 / 3) (map (fun ti => sin (f ti) / 3) t).
Proof.
  unfold peak_within. rewrite Forall_map. apply Forall_forall. intros ti _.
  pose proof (SIN_bound (f ti)) as [H1 H2].
  apply Rabs_le. lra.
Qed.

Lemma modulator_gains (f : R -> R) (t : list R) :
  unit_gains (map (fun ti => 1 / 2 + 1 / 2 * sin (f ti)) t).
Proof.
  unfold unit_gains. rewrite Forall_map. apply Forall_forall. intros ti _.
  pose proof (SIN_bound (f ti)) as [H1 H2]. lra.
Qed.

Lemma rumble_partial_ok (base_freq : R) (t : list R) (i : nat)
                        (rumble out : list R) (B : R) (w w' : World) :
  rumble_partial base_freq t i rumble w = Ok (out, w') ->
  peak_within B rumble ->
  peak_within (B + 1 / 3) out /\
  length out = Nat.min (length rumble) (length t) /\
  fst w' = fst w.
Proof.
  unfold rumble_partial, Random.np_uniform, bind. rewrite with_np_ok.
  unfold ret. intros H HB. inversion H; subst. split; [| split].
  - apply peak_within_add; [exact HB |].
    apply (sine_third (fun ti =>
             2 * PI * (base_freq * (95 / 100 + INR i * (5 / 100))) * ti
             + (0 + (2 * PI - 0) * fst (np_random_sample (snd w))))).
  - rewrite add_length, length_map. reflexivity.
  - reflexivity.
Qed.

(** A successful call of [_generate_rumble]: its length and its peak. *)
Lemma generate_rumble_shape (length sr : Z) (base_freq : R) (w w' : World)
                            (rumble : list R) :
  _generate_rumble length sr base_freq w = Ok (rumble, w') ->
  List.length rumble = Z.to_nat length /\ peak_within (3 / 10) rumble.
Proof.
  intros H. unfold _generate_rumble in H. invert_run H.
  apply lift_ok in Hrun0 as [Ht ->]. apply lift_ok in Hrun1 as [Hz ->].
  apply linspace_ok in Ht. apply zeros_ok in Hz as [Hz Hlen].
  pose proof (linspace_pts_length 0 (Q2R a) (Z.to_nat length)) as Lt.
  rewrite <- Ht in Lt.
  assert (L2 : List.length a1 = Z.to_nat length)
    by (rewrite Hz; apply repeat_length).
  assert (B2 : peak_within 0 a1) by (rewrite Hz; apply peak_within_zeros).
  destruct (rumble_partial_ok _ _ _ _ Hrun2 B2) as (B3 & L3 & _).
  destruct (rumble_partial_ok _ _ _ _ Hrun3 B3) as (B4 & L4 & _).
  destruct (rumble_partial_ok _ _ _ _ Hrun4 B4) as (B5 & L5 & _).
  apply ret_ok in H as [-> _]. split.
  - rewrite scale_length, mul_length, length_map. lia.
  - apply peak_within_weaken with ((0 + 1 / 3 + 1 / 3 + 1 / 3) * (3 / 10));
      [lra |].
    apply peak_within_scale; [| lra].
    apply peak_within_mul_gains; [exact B5 |].
    apply (modulator_gains (fun ti => 2 * PI * a5 * ti)).
Qed.

(** X2.  What [_generate_rumble] returns and when it raises.  A successful call
    returns exactly [length] samples, each within 0.3 in absolute value (the
    three detuned sines sum to at most 1, the modulator is a gain between 0
    and 1, and the result is scaled by 0.3).  The call raises
    [ZeroDivisionError] for a sample rate of 0 and [ValueError] for a negative
    length, and succeeds otherwise. *)
Theorem generate_rumble_bounded (length sr : Z) (base_freq : R) (w : World) :
  (forall rumble w',
     _generate_rumble length sr base_freq w = Ok (rumble, w') ->
     List.length rumble = Z.to_nat length /\ peak_within (3 / 10) rumble) /\
  (sr = 0%Z -> _generate_rumble length sr base_freq w = Err ZeroDivisionError) /\
  (sr <> 0%Z -> (length < 0)%Z ->
   _generate_rumble length sr base_freq w = Err ValueError) /\
  (sr <> 0%Z -> (0 <= length)%Z ->
   exists rumble w', _generate_rumble length sr base_freq w = Ok (rumble, w')).
Proof.
  split; [| split; [| split]].
  - intros rumble w' H. eapply generate_rumble_shape, H.
  - intros ->. reflexivity.
  - intros Hsr Hneg. unfold _generate_rumble, bind at 1, lift at 1.
    rewrite div_nonzero by exact Hsr.
    unfold bind, lift, Np.linspace.
    destruct (Z.ltb_spec length 0); [reflexivity | lia].
  - intros Hsr Hlen. apply generate_rumble_total; assumption.
Qed.

End Rumble.

Lemma generate_rumble_bounded_witness :
  exists rumble w',
    _generate_rumble 10 20 80 (Counter.world 0 0) = Ok (rumble, w') /\
    List.length rumble = 10%nat /\ peak_within (3 / 10) rumble.
Proof.
  pose proof (@generate_rumble_bounded Counter.source 10 20 80%R (Counter.world 0 0))
    as (Hok & _ & _ & Htotal).
  destruct Htotal as (rumble & w' & Hrun); [discriminate | lia |].
  exists rumble, w'. split; [exact Hrun |]. exact (Hok rumble w' Hrun).
Defined.

(** ** Normalisation *)

Section Normalize.

Context {RS : RandomSource}.

Local Open Scope R_scope.

Lemma max_list_spec (l : list R) (x : R) :
  Forall (fun y => y <= Np.max_list x l) (x :: l) /\ In (Np.max_list x l) (x :: l).
Proof.
  revert x. induction l as [| y l IH]; intros x; simpl.
  - split; [constructor; [lra | constructor] | left; reflexivity].
  - destruct (IH (Rmax x y)) as [Hall Hin].
    inversion Hall as [| ? ? Hm Hl]; subst. split.
    + constructor; [| constructor; [| exact Hl]].
      * eapply Rle_trans; [apply Rmax_l | exact Hm].
      * eapply Rle_trans; [apply Rmax_r | exact Hm].
    + destruct Hin as [Hin | Hin]; [| right; right; exact Hin].
      rewrite <- Hin. unfold Rmax. destruct (Rle_dec x y); auto.
Qed.

(** [np.abs(a).max()] is the largest absolute value of the array, and some
    sample has it. *)
Lemma abs_max_spec (a : list R) (P : R) :
  Np.abs_max a = Ok P <->
  a <> [] /\ peak_within P a /\ Exists (fun x => Rabs x = P) a.
Proof.
  unfold Np.abs_max, peak_within. split.
  - destruct a as [| x a]; simpl; intros H; inversion H; subst.
    destruct (max_list_spec (map Rabs a) (Rabs x)) as [Hall Hin].
    split; [discriminate |]. split.
    + change (Rabs x :: map Rabs a) with (map Rabs (x :: a)) in Hall.
      rewrite Forall_map in Hall. exact Hall.
    + change (Rabs x :: map Rabs a) with (map Rabs (x :: a)) in Hin.
      apply in_map_iff in Hin. destruct Hin as (y & Hy & Hin).
      apply Exists_exists. exists y. split; assumption.
  - intros (Hne & Hall & Hex).
    destruct a as [| x a]; [contradiction |]. simpl. f_equal.
    destruct (max_list_spec (map Rabs a) (Rabs x)) as [Hall' Hin'].
    set (m := Np.max_list (Rabs x) (map Rabs a)) in *.
    change (Rabs x :: map Rabs a) with (map Rabs (x :: a)) in Hall', Hin'.
    rewrite Forall_map in Hall'.
    apply in_map_iff in Hin'. destruct Hin' as (y & Hy & Hin').
    apply Exists_exists in Hex. destruct Hex as (z & Hz & HzP).
    rewrite Forall_forall in Hall, Hall'.
    specialize (Hall y Hin'). specialize (Hall' z Hz). simpl in *. lra.
Qed.

Lemma abs_max_nonneg (a : list R) (P : R) : Np.abs_max a = Ok P -> 0 <= P.
Proof.
  intros H. apply abs_max_spec in H as (_ & _ & Hex).
  apply Exists_exists in Hex. destruct Hex as (x & _ & <-). apply Rabs_pos.
Qed.

Lemma abs_max_scale (a : list R) (P c : R) :
  Np.abs_max a = Ok P -> 0 <= c -> Np.abs_max (Np.scale a c) = Ok (P * c).
Proof.
  intros H Hc. apply abs_max_spec in H as (Hne & Hall & Hex).
  apply abs_max_spec. split; [| split].
  - destruct a; [contradiction | discriminate].
  - apply peak_within_scale; assumption.
  - unfold Np.scale. apply Exists_exists. apply Exists_exists in Hex.
    destruct Hex as (x & Hx & HxP). exists (x * c). split.
    + apply in_map_iff. exists x. split; [reflexivity | exact Hx].
    + rewrite Rabs_mult, (Rabs_pos_eq c), HxP by exact Hc. reflexivity.
Qed.

Lemma silent_buffer (a : list R) : peak_within 0 a -> a = repeat 0 (length a).
Proof.
  unfold peak_within. induction 1 as [| x a Hx _ IH]; simpl; [reflexivity |].
  f_equal; [| exact IH].
  simpl in Hx. destruct (Req_dec x 0) as [-> | Hne]; [reflexivity |].
  pose proof (Rabs_pos_lt x Hne). lra.
Qed.

Lemma normalize_loud (audio : list R) (P target_peak : R) :
  Np.abs_max audio = Ok P -> 0 < P ->
  _normalize audio target_peak = Ok (Np.scale audio (target_peak / P)).
Proof.
  intros H HP. unfold _normalize. rewrite H. cbn [rbind].
  destruct (Rlt_dec 0 P); [reflexivity | contradiction].
Qed.

Lemma normalize_silent (audio : list R) (target_peak : R) :
  Np.abs_max audio = Ok 0 -> _normalize audio target_peak = Ok audio.
Proof.
  intros H. unfold _normalize. rewrite H. cbn [rbind].
  destruct (Rlt_dec 0 0); [lra | reflexivity].
Qed.

(** X3.  What [_normalize] does.  An empty buffer raises [ValueError] (the maximum
    of an empty array).  A buffer whose peak is 0 is returned as it is.
    Otherwise every sample is multiplied by [target_peak / peak], and for a
    target that is not negative the peak of the result is exactly
    [target_peak]. *)
Theorem normalize_reaches_target (audio : list R) (target_peak : R) :
  (audio = [] -> _normalize audio target_peak = Err ValueError) /\
  (Np.abs_max audio = Ok 0 -> _normalize audio target_peak = Ok audio) /\
  (forall P, Np.abs_max audio = Ok P -> 0 < P -> 0 <= target_peak ->
     _normalize audio target_peak = Ok (Np.scale audio (target_peak / P)) /\
     Np.abs_max (Np.scale audio (target_peak / P)) = Ok target_peak).
Proof.
  split; [| split].
  - intros ->. reflexivity.
  - apply normalize_silent.
  - intros P H HP Ht. split; [apply normalize_loud; assumption |].
    rewrite (abs_max_scale _ H).
    + f_equal. field. lra.
    + unfold Rdiv. apply Rmult_le_pos; [exact Ht |].
      apply Rlt_le, Rinv_0_lt_compat. exact HP.
Qed.

Lemma scale_scale (a : list R) (c d : R) :
  Np.scale (Np.scale a c) d = Np.scale a (c * d).
Proof.
  unfold Np.scale. rewrite map_map. apply map_ext. intros x. ring.
Qed.

(** Normalisation cancels every positive gain applied before it. *)
Lemma normalize_gain (audio : list R) (c target_peak : R) :
  0 < c -> _normalize (Np.scale audio c) target_peak = _normalize audio target_peak.
Proof.
  intros Hc.
  destruct (Np.abs_max audio) as [e | P] eqn:H.
  - (* empty buffer *)
    unfold Np.abs_max in H. destruct audio; [reflexivity | discriminate H].
  - pose proof (abs_max_nonneg _ H) as HP.
    pose proof (abs_max_scale _ H (Rlt_le _ _ Hc)) as Hs.
    destruct (Req_dec P 0) as [-> | Hne].
    + rewrite normalize_silent by (rewrite Hs; f_equal; ring).
      rewrite normalize_silent by exact H.
      apply abs_max_spec in H as (_ & Hall & _).
      rewrite (silent_buffer Hall) at 1 2.
      unfold Np.scale. rewrite map_repeat. do 2 f_equal. ring.
    + rewrite (@normalize_loud _ _ target_peak Hs) by nra.
      rewrite (@normalize_loud _ _ target_peak H) by lra.
      rewrite scale_scale. do 2 f_equal. field. lra.
Qed.

(** X4.  The post-processor does not see a positive gain applied to the mix: the
    normalisation cancels it.  In particular the factor 0.8 that the mixer
    applies when a bubbling layer exists leaves the final waveform
    unchanged. *)
Theorem post_process_ignores_gain
  (audio : list R) (c : R) (params : AudioParameters) (w : World)
  (Hc : 0 < c) :
  _post_process (Np.scale audio c) params w = _post_process audio params w.
Proof.
  unfold _post_process. unfold bind at 1 3.
  rewrite normalize_gain by exact Hc. reflexivity.
Qed.

End Normalize.

Lemma normalize_reaches_target_witness :
  _normalize [1; -2]%R (95 / 100)%R = Ok (Np.scale [1; -2]%R (95 / 100 / 2)%R) /\
  Np.abs_max (Np.scale [1; -2]%R (95 / 100 / 2)%R) = Ok (95 / 100)%R.
Proof.
  apply (proj2 (proj2 (normalize_reaches_target [1; -2]%R (95 / 100)%R))).
  - apply abs_max_spec. split; [discriminate |]. split.
    + repeat constructor; simpl; unfold Rabs; destruct (Rcase_abs _); lra.
    + apply Exists_cons_tl, Exists_cons_hd.
      unfold Rabs; destruct (Rcase_abs _); lra.
  - lra.
  - lra.
Defined.

Lemma post_process_ignores_gain_witness :
  _post_process (Np.scale [1; 1; 1]%R (8 / 10)%R) dry_params (Counter.world 0 0)
  = _post_process [1; 1; 1]%R dry_params (Counter.world 0 0).
Proof.
  apply (@post_process_ignores_gain Counter.source). lra.
Defined.

(** ** The fade *)

Section Fade.

Local Open Scope R_scope.

Lemma nth_mul (a b : list R) (i : nat) :
  nth i (Np.mul a b) 0 = nth i a 0 * nth i b 0.
Proof.
  revert b i. induction a as [| x a IH]; intros b i; simpl.
  - destruct i; ring.
  - destruct b as [| y b]; simpl.
    + destruct i; ring.
    + destruct i as [| i]; [reflexivity | apply IH].
Qed.

Lemma nth_linspace_pts (a b : R) (n i : nat) :
  (i < n)%nat ->
  nth i (Np.linspace_pts a b n) 0 = a + INR i * ((b - a) / INR (n - 1)).
Proof.
  intros Hi. unfold Np.linspace_pts.
  rewrite (nth_indep _ 0 ((fun j => a + INR j * ((b - a) / INR (n - 1))) 0%nat))
    by (rewrite length_map, length_seq; exact Hi).
  rewrite (map_nth (fun j => a + INR j * ((b - a) / INR (n - 1)))).
  rewrite seq_nth by exact Hi. reflexivity.
Qed.

Lemma imul_slice_mismatch (s f : list R) :
  length s <> length f -> (2 <= length f)%nat \/ f = [] ->
  Np.imul_slice s f = Err ValueError.
Proof.
  intros Hne Hf. unfold Np.imul_slice.
  destruct (Nat.eqb_spec (length s) (length f)) as [E | _]; [contradiction |].
  destruct f as [| c [| c' f]]; try reflexivity.
  destruct Hf as [Hf | Hf]; [simpl in Hf; lia | discriminate Hf].
Qed.

(** Outside [1 <= fade_samples <= n] the fade of a non-empty buffer raises. *)
Lemma apply_fade_no_room (audio : list R) (fade_samples : Z) :
  audio <> [] ->
  (fade_samples < 1)%Z \/ (Z.of_nat (length audio) < fade_samples)%Z ->
  _apply_fade audio fade_samples = Err ValueError.
Proof.
  intros Hne Hk. unfold _apply_fade, Np.linspace.
  destruct (Z.ltb_spec fade_samples 0) as [Hneg | Hpos]; [reflexivity |].
  cbn [rbind].
  set (k := Z.to_nat fade_samples).
  assert (Ln : (1 <= length audio)%nat)
    by (destruct audio; [contradiction | simpl; lia]).
  destruct (Nat.eq_dec k 0) as [Hk0 | Hk0].
  - (* fade_samples = 0 *)
    rewrite Hk0. cbn [Np.linspace_pts seq map].
    unfold Np.imul_head, Np.imul_tail. cbn [length firstn skipn].
    cbn [Np.imul_slice length Nat.eqb Np.mul rbind app].
    rewrite imul_slice_mismatch; [reflexivity | simpl; lia | right; reflexivity].
  - (* the ramp is longer than the buffer *)
    assert (Hlong : (length audio < k)%nat) by lia.
    unfold Np.imul_head. rewrite linspace_pts_length.
    rewrite imul_slice_mismatch; [reflexivity | |].
    + rewrite length_firstn, linspace_pts_length. lia.
    + left. rewrite linspace_pts_length. lia.
Qed.

(** X5.  When the fade works.  On a non-empty buffer of [n] samples [_apply_fade]
    succeeds, keeping the length, exactly when [1 <= fade_samples <= n]; for
    every other [fade_samples] it raises [ValueError]: a negative count is
    refused by [np.linspace], for 0 the slice [audio[-0:]] is the whole
    buffer and cannot be multiplied by an empty ramp, and a ramp longer than
    the buffer does not fit the slice. *)
Theorem apply_fade_needs_room (audio : list R) (fade_samples : Z)
  (Hne : audio <> []) :
  ((1 <= fade_samples <= Z.of_nat (length audio))%Z ->
   exists out, _apply_fade audio fade_samples = Ok out /\
               length out = length audio) /\
  ((fade_samples < 1)%Z \/ (Z.of_nat (length audio) < fade_samples)%Z ->
   _apply_fade audio fade_samples = Err ValueError).
Proof.
  split; [apply apply_fade_total | apply apply_fade_no_room; exact Hne].
Qed.

(** X6.  What the fade does to the samples, when the two ramps do not overlap
    ([2 * fade_samples <= n]): sample [i] of the first [k] is multiplied by
    [i / (k - 1)], the middle is unchanged, and sample [n - k + j] of the last
    [k] is multiplied by [1 - j / (k - 1)].  So the first sample is always
    silenced, and the last one is silenced when the ramp has at least two
    samples; a ramp of one sample leaves the last sample as it is. *)
Theorem apply_fade_ramps (audio : list R) (k : nat)
  (Hk : (1 <= k)%nat) (Hroom : (2 * k <= length audio)%nat) :
  exists out,
    _apply_fade audio (Z.of_nat k) = Ok out /\
    length out = length audio /\
    (forall i, (i < length audio)%nat ->
       nth i out 0 = nth i audio 0 * fade_gain k (length audio) i) /\
    nth 0 out 0 = 0 /\
    ((2 <= k)%nat -> nth (length audio - 1) out 0 = 0) /\
    (k = 1%nat -> nth (length audio - 1) out 0 = nth (length audio - 1) audio 0).
Proof.
  set (n := length audio) in *.
  unfold _apply_fade, Np.linspace.
  destruct (Z.ltb_spec (Z.of_nat k) 0) as [Hneg | _]; [lia |].
  cbn [rbind]. rewrite Nat2Z.id.
  unfold Np.imul_head. rewrite linspace_pts_length.
  rewrite imul_slice_same_length
    by (rewrite length_firstn, linspace_pts_length; fold n; lia).
  cbn [rbind].
  set (a1 := Np.mul (firstn k audio) (Np.linspace_pts 0 1 k) ++ skipn k audio).
  assert (L1 : length a1 = n).
  { unfold a1. rewrite length_app, mul_length, length_firstn, length_skipn,
      linspace_pts_length. fold n. lia. }
  unfold Np.imul_tail. rewrite linspace_pts_length.
  destruct k as [| k']; [lia |]. set (k := S k') in *.
  rewrite L1.
  rewrite imul_slice_same_length
    by (rewrite length_skipn, linspace_pts_length, L1; lia).
  cbn [rbind].
  assert (Hnth1 : forall i, (i < n)%nat ->
            nth i a1 0 = nth i audio 0
                         * (if (i <? k)%nat then INR i / INR (k - 1) else 1)).
  { intros i Hi. unfold a1.
    destruct (Nat.ltb_spec i k) as [Hlt | Hge].
    - rewrite app_nth1
        by (rewrite mul_length, length_firstn, linspace_pts_length; fold n; lia).
      rewrite nth_mul, nth_firstn, nth_linspace_pts by exact Hlt.
      destruct (Nat.ltb_spec i k); [| lia]. unfold Rdiv. ring.
    - rewrite app_nth2
        by (rewrite mul_length, length_firstn, linspace_pts_length; fold n; lia).
      rewrite mul_length, length_firstn, linspace_pts_length. fold n.
      rewrite nth_skipn. replace (k + (i - Nat.min (Nat.min k n) k))%nat with i by lia.
      ring. }
  assert (Hnth : forall i, (i < n)%nat ->
            nth i (firstn (n - k) a1
                   ++ Np.mul (skipn (n - k) a1) (Np.linspace_pts 1 0 k)) 0
            = nth i audio 0 * fade_gain k n i).
  { intros i Hi. unfold fade_gain.
    destruct (Nat.ltb_spec i (n - k)) as [Hlt | Hge].
    - rewrite app_nth1 by (rewrite length_firstn, L1; lia).
      rewrite nth_firstn. destruct (Nat.ltb_spec i (n - k)); [| lia].
      rewrite Hnth1 by exact Hi.
      destruct (Nat.ltb_spec i k); reflexivity.
    - rewrite app_nth2 by (rewrite length_firstn, L1; lia).
      rewrite length_firstn, L1.
      replace (Nat.min (n - k) n) with (n - k)%nat by lia.
      rewrite nth_mul, nth_skipn, nth_linspace_pts by lia.
      replace (n - k + (i - (n - k)))%nat with i by lia.
      rewrite Hnth1 by exact Hi.
      destruct (Nat.ltb_spec i k); [lia |]. unfold Rdiv. ring. }
  eexists. split; [reflexivity |]. split; [| split; [exact Hnth |]].
  - rewrite length_app, length_firstn, mul_length, length_skipn,
      linspace_pts_length, L1. lia.
  - split; [| split].
    + rewrite Hnth by lia. unfold fade_gain.
      destruct (Nat.ltb_spec 0 k); [| lia]. simpl INR at 1. unfold Rdiv. ring.
    + intros H2. rewrite Hnth by lia. unfold fade_gain.
      destruct (Nat.ltb_spec (n - 1) k); [lia |].
      destruct (Nat.ltb_spec (n - 1) (n - k)); [lia |].
      replace (n - 1 - (n - k))%nat with (k - 1)%nat by lia.
      assert (Hpos : 0 < INR (k - 1)) by (apply lt_0_INR; lia).
      replace (INR (k - 1) / INR (k - 1)) with 1 by (field; lra). ring.
    + intros H1. rewrite Hnth by lia. unfold fade_gain.
      destruct (Nat.ltb_spec (n - 1) k); [lia |].
      destruct (Nat.ltb_spec (n - 1) (n - k)); [lia |].
      replace (n - 1 - (n - k))%nat with 0%nat by lia.
      simpl INR at 1. unfold Rdiv. ring.
Qed.

End Fade.

Lemma apply_fade_needs_room_witness :
  (exists out, _apply_fade [1; 1; 1]%R 2 = Ok out /\ length out = 3%nat) /\
  _apply_fade [1; 1; 1]%R 0 = Err ValueError /\
  _apply_fade [1; 1; 1]%R 4 = Err ValueError.
Proof.
  pose proof (@apply_fade_needs_room [1; 1; 1]%R) as H.
  split; [| split].
  - apply (proj1 (H 2%Z ltac:(discriminate))). simpl. lia.
  - apply (proj2 (H 0%Z ltac:(discriminate))). left. lia.
  - apply (proj2 (H 4%Z ltac:(discriminate))). right. simpl. lia.
Defined.

Lemma apply_fade_ramps_witness :
  exists out,
    _apply_fade [1; 1; 1; 1; 1]%R 2 = Ok out /\
    nth 0 out 0%R = 0%R /\ nth 4 out 0%R = 0%R /\ nth 2 out 0%R = 1%R.
Proof.
  destruct (@apply_fade_ramps [1; 1; 1; 1; 1]%R 2 ltac:(lia) ltac:(simpl; lia))
    as (out & Hrun & _ & Hnth & H0 & Hlast & _).
  exists out. split; [exact Hrun |]. split; [exact H0 |].
  split; [exact (Hlast ltac:(lia)) |].
  rewrite (Hnth 2%nat ltac:(simpl; lia)). unfold fade_gain. simpl. lra.
Defined.

(** ** The post-processor: lengths and draws *)

Section PostProcessShape.

Context {RS : RandomSource}.

Local Open Scope R_scope.

Lemma iadd_ok_length (a b out : list R) :
  Np.iadd a b = Ok out -> length out = length a.
Proof.
  unfold Np.iadd. destruct (Nat.eqb_spec (length a) (length b)) as [E | _].
  - intros H. inversion H. rewrite add_length. lia.
  - destruct b as [| c [| c' b]]; intros H; inversion H. apply length_map.
Qed.

Lemma normalize_ok (audio out : list R) (target_peak : R) :
  _normalize audio target_peak = Ok out ->
  audio <> [] /\ length out = length audio.
Proof.
  intros H. destruct audio as [| x audio]; [discriminate H |].
  split; [discriminate |].
  destruct (@normalize_total (x :: audio) target_peak ltac:(discriminate))
    as (out' & H' & L'). congruence.
Qed.

Lemma convolve_same_length (a v : list R) :
  length (Signal.convolve_same a v) = length a.
Proof. unfold Signal.convolve_same. rewrite length_map. apply length_seq. Qed.

Lemma apply_reverb_ok (audio out : list R) (amount : Q) (sr : Z) (w w' : World) :
  _apply_reverb audio amount sr w = Ok (out, w') ->
  length out = length audio /\
  (0 <= ir_length_of sr)%Z /\
  w' = (fst w, snd (draws_from (Z.to_nat (ir_length_of sr)) (snd w))).
Proof.
  unfold _apply_reverb. fold (ir_length_of sr). intros H.
  apply bind_ok in H. destruct H as (ir & w1 & Hir & H).
  pose proof (np_normal_ok _ _ _ _ Hir) as Hlen.
  rewrite np_normal_run in Hir by exact Hlen. inversion Hir; subst.
  apply lift_ok in H as [H ->]. apply iadd_ok_length in H.
  rewrite scale_length in H. split; [exact H |]. split; [exact Hlen | reflexivity].
Qed.

(** A successful run of the post-processor, taken apart. *)
Lemma post_process_ok (audio out : list R) (params : AudioParameters) (w w' : World) :
  _post_process audio params w = Ok (out, w') ->
  audio <> [] /\
  (1 <= fade_samples_of params <= Z.of_nat (length audio))%Z /\
  length out = length audio /\
  fst w' = fst w /\
  (Py.Qltb 0 (reverb_amount params) = false -> w' = w) /\
  (Py.Qltb 0 (reverb_amount params) = true ->
   snd w' = snd (draws_from (Z.to_nat (ir_length_of (sample_rate params))) (snd w))).
Proof.
  unfold _post_process. fold (fade_samples_of params). intros H.
  apply bind_ok in H. destruct H as (a1 & w1 & Hn & H).
  apply lift_ok in Hn as [Hn ->]. apply normalize_ok in Hn as [Hne L1].
  apply bind_ok in H. destruct H as (a2 & w2 & Hf & H).
  apply lift_ok in Hf as [Hf ->].
  assert (Hne1 : soft_limit a1 <> []).
  { intros E. apply (f_equal (@length R)) in E.
    rewrite soft_limit_length, L1 in E. destruct audio; [contradiction | discriminate E]. }
  assert (Hk : (1 <= fade_samples_of params <= Z.of_nat (length audio))%Z).
  { rewrite <- L1, <- soft_limit_length.
    destruct (Z.lt_ge_cases (fade_samples_of params) 1) as [Hlo | Hlo].
    { rewrite apply_fade_no_room in Hf by (assumption || (left; exact Hlo)).
      discriminate Hf. }
    destruct (Z.lt_ge_cases (Z.of_nat (length (soft_limit a1)))
                            (fade_samples_of params)) as [Hhi | Hhi].
    { rewrite apply_fade_no_room in Hf by (assumption || (right; exact Hhi)).
      discriminate Hf. }
    lia. }
  assert (L2 : length a2 = length audio).
  { destruct (@apply_fade_total (soft_limit a1) (fade_samples_of params))
      as (a2' & Hf' & L2').
    - rewrite soft_limit_length, L1. exact Hk.
    - rewrite Hf in Hf'. inversion Hf'; subst.
      rewrite L2', soft_limit_length. exact L1. }
  split; [exact Hne |]. split; [exact Hk |].
  destruct (Py.Qltb 0 (reverb_amount params)).
  - apply apply_reverb_ok in H as (L3 & _ & ->).
    split; [congruence |]. split; [reflexivity |].
    split; [discriminate | reflexivity].
  - apply ret_ok in H as [-> ->].
    split; [exact L2 |]. split; [reflexivity |].
    split; [reflexivity | discriminate].
Qed.

(** X7.  The post-processor keeps the length of the buffer and never draws from
    [random]: without reverb it leaves both generators as they are, and with
    reverb it takes exactly [int(0.5 * sample_rate)] standard-normal draws
    from [np.random], for the impulse response. *)
Theorem post_process_keeps_length
  (audio out : list R) (params : AudioParameters) (w w' : World)
  (Hrun : _post_process audio params w = Ok (out, w')) :
  length out = length audio /\
  fst w' = fst w /\
  (Py.Qltb 0 (reverb_amount params) = false -> w' = w) /\
  (Py.Qltb 0 (reverb_amount params) = true ->
   snd w' = snd (draws_from (Z.to_nat (ir_length_of (sample_rate params))) (snd w))).
Proof.
  apply post_process_ok in Hrun. tauto.
Qed.

Lemma fade_samples_rate (params : AudioParameters) :
  (1 <= fade_samples_of params)%Z -> (20 <= sample_rate params)%Z.
Proof.
  unfold fade_samples_of, Py.int.
  change (Qnum ((5 # 100) * inject_Z (sample_rate params)))
    with (5 * sample_rate params)%Z.
  change (Z.pos (Qden ((5 # 100) * inject_Z (sample_rate params)))) with 100%Z.
  intros H.
  destruct (Z.lt_ge_cases (sample_rate params) 20) as [Hlt | Hge]; [| exact Hge].
  exfalso.
  destruct (Z.lt_ge_cases (sample_rate params) 0) as [Hneg | Hpos].
  - assert (Hq : (0 <= Z.quot (- (5 * sample_rate params)) 100)%Z)
      by (apply Z.quot_pos; lia).
    rewrite Z.quot_opp_l in Hq by lia. lia.
  - rewrite Z.quot_small in H by lia. lia.
Qed.

Lemma ir_length_nonneg (sr : Z) : (0 <= sr)%Z -> (0 <= ir_length_of sr)%Z.
Proof.
  intros H. unfold ir_length_of, Py.int.
  change (Qnum ((1 # 2) * inject_Z sr)) with (1 * sr)%Z.
  change (Z.pos (Qden ((1 # 2) * inject_Z sr))) with 2%Z.
  apply Z.quot_pos; lia.
Qed.

Lemma apply_reverb_total (audio : list R) (amount : Q) (sr : Z) (w : World) :
  (0 <= sr)%Z -> exists out w', _apply_reverb audio amount sr w = Ok (out, w').
Proof.
  intros Hsr. unfold _apply_reverb. fold (ir_length_of sr).
  unfold bind. rewrite np_normal_run by (apply ir_length_nonneg, Hsr).
  unfold lift.
  rewrite iadd_same_length
    by (rewrite !scale_length, convolve_same_length; reflexivity).
  do 2 eexists. reflexivity.
Qed.

Lemma post_process_total (audio : list R) (params : AudioParameters) (w : World) :
  (1 <= fade_samples_of params <= Z.of_nat (length audio))%Z ->
  exists out w', _post_process audio params w = Ok (out, w').
Proof.
  intros Hk. unfold _post_process. fold (fade_samples_of params).
  destruct (@normalize_total audio (95 / 100)) as (a1 & H1 & L1).
  { intros ->. simpl in Hk. lia. }
  unfold bind at 1, lift at 1. rewrite H1.
  destruct (@apply_fade_total (soft_limit a1) (fade_samples_of params))
    as (a2 & H2 & L2).
  { rewrite soft_limit_length, L1. exact Hk. }
  unfold bind, lift. rewrite H2.
  destruct (Py.Qltb 0 (reverb_amount params)).
  - apply apply_reverb_total.
    pose proof (@fade_samples_rate params ltac:(lia)). lia.
  - unfold ret. do 2 eexists. reflexivity.
Qed.

(** X8.  When the post-processor works.  [_post_process] returns a waveform
    exactly when the buffer holds at least [fade_samples] samples and
    [fade_samples = int(0.05 * sample_rate)] is at least 1; it raises in every
    other case, in particular on an empty buffer and for every sample rate
    below 20 Hz. *)
Theorem post_process_succeeds_iff
  (audio : list R) (params : AudioParameters) (w : World) :
  ((exists out w', _post_process audio params w = Ok (out, w')) <->
   (1 <= fade_samples_of params <= Z.of_nat (length audio))%Z) /\
  ((sample_rate params < 20)%Z ->
   exists e, _post_process audio params w = Err e).
Proof.
  split; [split |].
  - intros (out & w' & H). apply post_process_ok in H. tauto.
  - apply post_process_total.
  - intros Hsr.
    destruct (_post_process audio params w) as [e | [out w']] eqn:H.
    + exists e. reflexivity.
    + apply post_process_ok in H as (_ & Hk & _).
      pose proof (@fade_samples_rate params ltac:(lia)). lia.
Qed.

End PostProcessShape.

Lemma post_process_keeps_length_witness :
  exists out w',
    _post_process [1; 1; 1; 1]%R reverb_params (Counter.world 0 2) = Ok (out, w') /\
    length out = 4%nat /\ fst w' = 0%Z.
Proof.
  destruct (@post_process_total Counter.source [1; 1; 1; 1]%R reverb_params
              (Counter.world 0 2)) as (out & w' & Hrun).
  { vm_compute. split; discriminate. }
  exists out, w'. split; [exact Hrun |].
  destruct (@post_process_keeps_length Counter.source _ _ _ _ _ Hrun)
    as (Hlen & Hpy & _).
  split; [exact Hlen | exact Hpy].
Defined.

Lemma post_process_succeeds_iff_witness :
  (exists out w',
     _post_process [1; 1; 1; 1]%R reverb_params (Counter.world 0 2) = Ok (out, w')) /\
  (exists e, _post_process [1; 1; 1; 1]%R tiny_params (Counter.world 0 2) = Err e).
Proof.
  split.
  - apply (proj1 (@post_process_succeeds_iff Counter.source [1; 1; 1; 1]%R
                    reverb_params (Counter.world 0 2))).
    vm_compute. split; discriminate.
  - apply (proj2 (@post_process_succeeds_iff Counter.source [1; 1; 1; 1]%R
                    tiny_params (Counter.world 0 2))).
    simpl. lia.
Defined.

(** ** Lengths of the layers *)

Section LayerLengths.

Context {RS : RandomSource}.

Local Open Scope R_scope.

Lemma cdiv_length (X : list Fft.C) (d : list R) :
  length (Fft.cdiv X d) = Nat.min (length X) (length d).
Proof.
  revert d. induction X as [| [re im] X IH]; intros [| y d]; simpl; auto.
Qed.

Lemma generate_noise_length (length sr : Z) (noise_type : NoiseType)
                            (noise : list R) (w w' : World) :
  _generate_noise length sr noise_type w = Ok (noise, w') ->
  List.length noise = Z.to_nat length.
Proof.
  destruct noise_type; unfold _generate_noise; intros H.
  - pose proof (np_normal_ok _ _ _ _ H) as Hlen.
    rewrite np_normal_run in H by exact Hlen. inversion H.
    rewrite length_map. apply draws_from_length.
  - apply bind_ok in H. destruct H as (wh & w1 & Hwh & H).
    pose proof (np_normal_ok _ _ _ _ Hwh) as Hlen.
    rewrite np_normal_run in Hwh by exact Hlen. inversion Hwh; subst. clear Hwh.
    invert_run H. apply lift_ok in Hrun as [Hfft _].
    apply ret_ok in H as [-> _].
    unfold Fft.fft in Hfft.
    destruct (map _ _) as [| z zs] eqn:E; [discriminate Hfft |].
    inversion Hfft; subst a.
    assert (L : List.length (z :: zs) = Z.to_nat length)
      by (rewrite <- E, length_map; apply draws_from_length).
    rewrite scale_length. unfold Fft.ifft_real.
    rewrite length_map, length_seq, cdiv_length.
    unfold Fft.dft, Fft.fftfreq.
    rewrite !length_map, !length_seq, L. lia.
Qed.

Lemma add_bubble_ok_length (length sr : Z) (b : Bubble) (audio out : list R) :
  drawn_in_range length b ->
  List.length audio = Z.to_nat length ->
  add_bubble length sr b audio = Ok out ->
  List.length out = Z.to_nat length.
Proof.
  intros Hr La H. unfold add_bubble in H.
  destruct (bubble_wave sr b) as [e | wave] eqn:Hw; [discriminate H |].
  cbn [rbind] in H.
  assert (Lw : List.length wave = Z.to_nat (bubble_length b)).
  { unfold bubble_wave in Hw. invert_run Hw. apply linspace_ok in Hrun0.
    inversion Hw. rewrite mul_length. unfold envelope.
    rewrite !length_map, Hrun0, linspace_pts_length. lia. }
  destruct (@add_burst_total length b wave audio Hr La Lw) as (out' & H' & L').
  rewrite H in H'. inversion H'; subst. congruence.
Qed.

Lemma superpose_length (length sr : Z) (bubbles : list Bubble) (audio out : list R) :
  Forall (drawn_in_range length) bubbles ->
  List.length audio = Z.to_nat length ->
  superpose length sr bubbles audio = Ok out ->
  List.length out = Z.to_nat length.
Proof.
  intros Hall. revert audio.
  induction Hall as [| b bubbles Hb _ IH]; intros audio La H; simpl in H.
  - inversion H; subst. exact La.
  - destruct (add_bubble length sr b audio) as [e | a1] eqn:Ha; [discriminate H |].
    cbn [rbind] in H. eapply IH; [| exact H].
    eapply add_bubble_ok_length; eassumption.
Qed.

Lemma generate_bubbling_length (length sr wetness : Z) (out : list R) (w w' : World) :
  _generate_bubbling length sr wetness w = Ok (out, w') ->
  List.length out = Z.to_nat length.
Proof.
  intros H. apply generate_bubbling_ok in H.
  destruct H as (bubbles & _ & Hall & Hsup).
  eapply superpose_length; [exact Hall | apply repeat_length | exact Hsup].
Qed.

(** X9.  Every layer of the layer set has exactly
    [duration_samples = int(duration * sample_rate)] samples, the float
    product truncated: the noise (white or pink), the rumble and the bubbling
    layer. *)
Theorem synthesis_layers_lengths
  (params : AudioParameters) (w w' : World) (layers : Layers)
  (Hrun : _generate_synthesis_layers params w = Ok (layers, w')) :
  forall key layer,
    lookup key layers = Some layer ->
    length layer = Z.to_nat (duration_samples params).
Proof.
  apply synthesis_layers_ok in Hrun.
  destruct Hrun as (noise & rumble & w1 & w2 & Hn & Hr & Hcase).
  apply generate_noise_length in Hn.
  apply generate_rumble_shape in Hr as [Hr _].
  intros key layer Hlook.
  destruct Hcase as [[_ ->] | [_ (bubbling & Hb & ->)]]; simpl in Hlook.
  - destruct (String.eqb key "noise"); [inversion Hlook; subst; exact Hn |].
    destruct (String.eqb key "rumble"); [inversion Hlook; subst; exact Hr |].
    discriminate Hlook.
  - apply generate_bubbling_length in Hb.
    destruct (String.eqb key "noise"); [inversion Hlook; subst; exact Hn |].
    destruct (String.eqb key "rumble"); [inversion Hlook; subst; exact Hr |].
    destruct (String.eqb key "bubbling"); [inversion Hlook; subst; exact Hb |].
    discriminate Hlook.
Qed.

End LayerLengths.

Lemma synthesis_layers_lengths_witness :
  exists layers w' noise,
    _generate_synthesis_layers float_params (Counter.world 42 42) = Ok (layers, w') /\
    lookup "noise" layers = Some noise /\
    length noise = 56%nat.
Proof.
  destruct (@synthesis_layers_total _ float_params (Counter.world 42 42))
    as (layers & w' & Hrun);
    [discriminate | vm_compute; discriminate | simpl; lia |].
  pose proof (@synthesis_layers_lengths Counter.source float_params _ _ _ Hrun) as Hlen.
  apply synthesis_layers_ok in Hrun as Hshape.
  destruct Hshape as (noise & rumble & w1 & w2 & _ & _ & [[_ E] | [Hwet _]]).
  - exists layers, w', noise. split; [exact Hrun |].
    assert (Hlook : lookup "noise" layers = Some noise) by (rewrite E; reflexivity).
    split; [exact Hlook |]. exact (Hlen "noise"%string noise Hlook).
  - simpl in Hwet. lia.
Defined.

(** ** The mixer: missing layers and headroom *)

Section MixerEdges.

Local Open Scope R_scope.

Lemma peak_within_resize (B : R) (a : list R) (n : nat) :
  0 <= B -> peak_within B a -> peak_within B (_resize_audio a n).
Proof.
  intros HB Ha. unfold _resize_audio.
  destruct (length a =? n)%nat; [exact Ha |].
  destruct (length a <? n)%nat.
  - apply Forall_app. split; [exact Ha |].
    eapply peak_within_weaken; [exact HB | apply peak_within_zeros].
  - unfold peak_within in *.
    rewrite <- (firstn_skipn n a) in Ha. apply Forall_app in Ha. tauto.
Qed.

Lemma peak_within_nth (B : R) (a : list R) (i : nat) :
  0 <= B -> peak_within B a -> Rabs (nth i a 0) <= B.
Proof.
  intros HB Ha. destruct (Nat.lt_ge_cases i (length a)) as [Hi | Hi].
  - unfold peak_within in Ha. rewrite Forall_forall in Ha.
    apply Ha, nth_In, Hi.
  - rewrite nth_overflow by exact Hi. rewrite Rabs_R0. exact HB.
Qed.

Lemma abs_within (x B : R) : Rabs x <= B -> - B <= x <= B.
Proof. unfold Rabs. destruct (Rcase_abs x); lra. Qed.

(** X10.  [_mix_layers] reads [layers["noise"]] and then [layers["rumble"]]: a
    layer set without one of them raises [KeyError].  A missing [bubbling]
    entry raises nothing. *)
Theorem mix_layers_missing_key
  (base : list R) (layers : Layers) (params : AudioParameters) :
  (lookup "noise" layers = None ->
   _mix_layers base layers params = Err KeyError) /\
  (lookup "noise" layers <> None -> lookup "rumble" layers = None ->
   _mix_layers base layers params = Err KeyError) /\
  (lookup "noise" layers <> None -> lookup "rumble" layers <> None ->
   exists mixed, _mix_layers base layers params = Ok mixed).
Proof.
  split; [| split].
  - intros Hn. unfold _mix_layers, getitem.
    fold (resized (length base) layers).
    rewrite lookup_resized, Hn. reflexivity.
  - intros Hn Hr. unfold _mix_layers, getitem.
    fold (resized (length base) layers).
    rewrite !lookup_resized, Hr.
    destruct (lookup "noise" layers) as [noise |]; [| contradiction].
    cbn [option_map lift_lib rbind].
    rewrite iadd_same_length by (rewrite !scale_length, resize_length; reflexivity).
    reflexivity.
  - intros Hn Hr.
    destruct (lookup "noise" layers) as [noise |] eqn:En; [| contradiction].
    destruct (lookup "rumble" layers) as [rumble |] eqn:Er; [| contradiction].
    destruct (@mix_layers_run base layers params noise rumble En Er)
      as (mixed & H & _).
    exists mixed. exact H.
Qed.

(** X11.  Headroom of the mixer (the comment of the source: "Reduce overall to
    prevent clipping").  When the base and every layer are within full scale,
    the mix is within 0.95 without a bubbling layer and within 0.88 with one. *)
Theorem mix_layers_headroom
  (base : list R) (layers : Layers) (params : AudioParameters)
  (noise rumble mixed : list R)
  (Hnoise : lookup "noise" layers = Some noise)
  (Hrumble : lookup "rumble" layers = Some rumble)
  (Hbase : peak_within 1 base)
  (Hn : peak_within 1 noise)
  (Hr : peak_within 1 rumble)
  (Hb : forall bubbling, lookup "bubbling" layers = Some bubbling ->
                         peak_within 1 bubbling)
  (Hrun : _mix_layers base layers params = Ok mixed) :
  peak_within (match lookup "bubbling" layers with
               | None => 95 / 100
               | Some _ => 88 / 100
               end) mixed.
Proof.
  destruct (@mix_layers_run base layers params noise rumble Hnoise Hrumble)
    as (mixed' & H' & Hlen & Hnth).
  rewrite Hrun in H'. inversion H'; subst mixed'. clear H'.
  unfold peak_within. apply Forall_nth. intros i d Hi.
  rewrite (nth_indep _ d 0) by exact Hi. rewrite Hlen in Hi.
  rewrite (Hnth i Hi).
  pose proof (@peak_within_nth 1 base i ltac:(lra) Hbase) as B0.
  pose proof (@peak_within_nth 1 _ i ltac:(lra)
                (@peak_within_resize 1 noise (length base) ltac:(lra) Hn)) as B1.
  pose proof (@peak_within_nth 1 _ i ltac:(lra)
                (@peak_within_resize 1 rumble (length base) ltac:(lra) Hr)) as B2.
  apply abs_within in B0, B1, B2.
  destruct (lookup "bubbling" layers) as [bubbling |].
  - pose proof (@peak_within_nth 1 _ i ltac:(lra)
                  (@peak_within_resize 1 bubbling (length base) ltac:(lra)
                     (Hb bubbling eq_refl))) as B3.
    apply abs_within in B3. apply Rabs_le. lra.
  - apply Rabs_le. lra.
Qed.

End MixerEdges.

Lemma mix_layers_missing_key_witness :
  _mix_layers [1; 1]%R [("rumble"%string, [1; 1]%R)] dry_params = Err KeyError /\
  _mix_layers [1; 1]%R [("noise"%string, [1; 1]%R)] dry_params = Err KeyError.
Proof.
  split.
  - apply (proj1 (mix_layers_missing_key [1; 1]%R
                    [("rumble"%string, [1; 1]%R)] dry_params)). reflexivity.
  - apply (proj1 (proj2 (mix_layers_missing_key [1; 1]%R
                           [("noise"%string, [1; 1]%R)] dry_params))).
    + discriminate.
    + reflexivity.
Defined.

Lemma mix_layers_headroom_witness :
  exists mixed,
    _mix_layers [1; 1; 1]%R mixer_layers dry_params = Ok mixed /\
    peak_within (88 / 100) mixed.
Proof.
  destruct (@mix_layers_run [1; 1; 1]%R mixer_layers dry_params
              [1]%R [1; 1; 1; 1; 1]%R eq_refl eq_refl) as (mixed & Hrun & _).
  exists mixed. split; [exact Hrun |].
  assert (Hone : forall l, Forall (fun x => x = 1%R) l -> peak_within 1 l).
  { intros l Hl. eapply Forall_impl; [| exact Hl].
    intros x ->. rewrite Rabs_R1. lra. }
  apply (@mix_layers_headroom [1; 1; 1]%R mixer_layers dry_params
           [1]%R [1; 1; 1; 1; 1]%R mixed eq_refl eq_refl).
  - apply Hone. repeat constructor.
  - apply Hone. repeat constructor.
  - apply Hone. repeat constructor.
  - intros b Hb. inversion Hb; subst. apply Hone. repeat constructor.
  - exact Hrun.
Defined.

(** ** The pipeline: what a successful render implies *)

Section RenderConditions.

Context {RS : RandomSource} {L : DspLibrary R}.

Variable sample_cache : SampleCache.

Local Open Scope R_scope.


Lemma np_seed_checked_out_of_range (n : Z) (w : World) :
  (n < 0 \/ 2 ^ 32 <= n)%Z -> Random.np_seed_checked n w = Err ValueError.
Proof.
  intros Hn. unfold Random.np_seed_checked.
  destruct (Z.leb_spec 0 n) as [Hlo | Hlo];
    destruct (Z.ltb_spec n (2 ^ 32)) as [Hhi | Hhi]; cbn [andb];
    try reflexivity.
  lia.
Qed.





Lemma generate_wide_seed (params : AudioParameters) (w : World) :
  (randomness_seed params < 0 \/ 2 ^ 32 <= randomness_seed params)%Z ->
  generate sample_cache params w = Err ValueError.
Proof.
  intros Hn. unfold generate, bind.
  rewrite np_seed_checked_out_of_range by exact Hn. reflexivity.
Qed.

Lemma default_seed_wide (now : Q) :
  (4294967296 # 1000 <= now)%Q -> (2 ^ 32 <= Fallback.default_seed now)%Z.
Proof.
  intros Hnow. unfold Fallback.default_seed, Py.int.
  destruct now as [n d]. unfold Qle in Hnow. cbn [Qnum Qden] in *.
  change (Qnum ((n # d) * 1000)) with (n * 1000)%Z.
  change (Z.pos (Qden ((n # d) * 1000))) with (Z.pos (d * 1)).
  rewrite Pos.mul_1_r.
  apply Z.quot_le_lower_bound; [lia |].
  change (2 ^ 32)%Z with 4294967296%Z. lia.
Qed.

(** X13.  The seed must fit [np.random.seed].  [generate] raises [ValueError], at
    its first statement, for every seed outside [[0, 2**32)]; this is the
    case of the default seed [int(time.time() * 1000)] of [AudioParameters]
    whenever the clock reads at least 4294967.296 s, that is at any time
    after 19 February 1970. *)
Theorem generate_rejects_wide_seed (params : AudioParameters) (w : World) :
  ((randomness_seed params < 0 \/ 2 ^ 32 <= randomness_seed params)%Z ->
   generate sample_cache params w = Err ValueError) /\
  (forall now : Q,
     (4294967296 # 1000 <= now)%Q ->
     randomness_seed params = Fallback.default_seed now ->
     generate sample_cache params w = Err ValueError).
Proof.
  split; [apply generate_wide_seed |].
  intros now Hnow Hseed. apply generate_wide_seed. right. rewrite Hseed.
  apply default_seed_wide, Hnow.
Qed.

End RenderConditions.

Lemma generate_rejects_wide_seed_witness :
  generate (L := Padding.library 0%R) demo_cache
           (mkParams (1 # 2) 0 5 classic 0 0 1700000000000 40) (Counter.world 0 0)
  = Err ValueError.
Proof.
  apply (proj1 (@generate_rejects_wide_seed _ (Padding.library 0%R) demo_cache
                  (mkParams (1 # 2) 0 5 classic 0 0 1700000000000 40)
                  (Counter.world 0 0))).
  right. simpl. lia.
Defined.

(** ** The transform stage: degenerate inputs and the length it returns *)

Section TransformEdges.

Context {A : Type} {L : DspLibrary A}.

Lemma round_inject (q : Q) (z : Z) : (q == inject_Z z)%Q -> Py.round q = z.
Proof.
  intros Hq. unfold Py.round.
  assert (Hf : Qfloor q = z) by (rewrite Hq; apply Qfloor_Z).
  rewrite Hf.
  assert (Hz : (q - inject_Z z == 0)%Q) by (rewrite Hq; ring).
  destruct (Qcompare_spec (q - inject_Z z) (1 # 2)) as [E | E | E].
  - rewrite Hz in E. discriminate E.
  - reflexivity.
  - rewrite Hz in E. discriminate E.
Qed.

Lemma transform_zero_rate (audio : list A) (params : AudioParameters) :
  sample_rate params = 0%Z ->
  _apply_transformations audio params = Err ZeroDivisionError.
Proof.
  intros Hsr. unfold _apply_transformations. rewrite Hsr. reflexivity.
Qed.

Lemma transform_empty (params : AudioParameters) :
  _apply_transformations (@nil A) params = Err ZeroDivisionError.
Proof.
  unfold _apply_transformations, Py.div.
  destruct (Qeq_bool (inject_Z (sample_rate params)) 0); [reflexivity |].
  cbn [rbind length].
  assert (E : Qeq_bool (inject_Z (Z.of_nat 0) / inject_Z (sample_rate params)) 0 = true).
  { apply Qeq_eq_bool. unfold Qeq, Qdiv, Qmult. simpl. reflexivity. }
  rewrite E. reflexivity.
Qed.

Lemma transform_same_duration (audio out : list A) (params : AudioParameters) :
  (inject_Z (Z.of_nat (length audio)) / inject_Z (sample_rate params)
   == duration params)%Q ->
  _apply_transformations audio params = Ok out ->
  length out = length audio.
Proof.
  intros Hd H.
  pose proof (apply_transformations_length _ _ H) as Hlen.
  unfold _apply_transformations in H.
  apply rbind_ok in H. destruct H as (cur & Hcur & H).
  apply div_ok in Hcur as [_ ->].
  apply rbind_ok in H. destruct H as (sf & Hsf & _).
  apply div_ok in Hsf as [Hne _].
  assert (Hn : ~ (inject_Z (Z.of_nat (length audio)) == 0)%Q).
  { intros E. apply Hne. rewrite E. unfold Qdiv. ring. }
  assert (Hsr : ~ (inject_Z (sample_rate params) == 0)%Q).
  { intros E. apply Hne. unfold Qdiv. rewrite E.
    unfold Qeq. simpl. lia. }
  apply Nat2Z.inj. rewrite Hlen. apply round_inject.
  unfold stretch_factor. rewrite <- Hd. field.
  repeat split; assumption.
Qed.

(** X14.  Degenerate inputs of the transform stage, and the length it returns.
    An empty base recording and a sample rate of zero both end in
    [ZeroDivisionError] (from [duration / current_duration] and from
    [len(audio) / sample_rate]), before any library call.  A base recording
    that already lasts [params.duration] keeps its number of samples. *)
Theorem transform_degenerate_inputs (audio : list A) (params : AudioParameters) :
  _apply_transformations (@nil A) params = Err ZeroDivisionError /\
  (sample_rate params = 0%Z ->
   _apply_transformations audio params = Err ZeroDivisionError) /\
  (forall out,
     (inject_Z (Z.of_nat (length audio)) / inject_Z (sample_rate params)
      == duration params)%Q ->
     _apply_transformations audio params = Ok out ->
     length out = length audio).
Proof.
  split; [apply transform_empty |].
  split; [apply transform_zero_rate |].
  intros out. apply transform_same_duration.
Qed.

End TransformEdges.

Lemma transform_degenerate_inputs_witness :
  _apply_transformations (L := Padding.library 0%R) [1; 1]%R
    (mkParams (1 # 2) 0 5 classic 0 0 42 0)
  = Err ZeroDivisionError /\
  length (Padding.fit 0%R (repeat 1%R 20) 20) = length (repeat 1%R 20).
Proof.
  split.
  - apply (proj1 (proj2 (@transform_degenerate_inputs R (Padding.library 0%R)
                           [1; 1]%R (mkParams (1 # 2) 0 5 classic 0 0 42 0)))).
    reflexivity.
  - apply (proj2 (proj2 (@transform_degenerate_inputs R (Padding.library 0%R)
                           (repeat 1%R 20) demo_params))
             (Padding.fit 0%R (repeat 1%R 20) 20)).
    + unfold Qeq. simpl. reflexivity.
    + reflexivity.
Defined.

(** ** Parameters the engine does not read *)

Section UnusedParameters.

Context {RS : RandomSource} {L : DspLibrary R}.

Variable sample_cache : SampleCache.

Lemma generate_dry_wetness (params : AudioParameters) (wetness' : Z) (w : World) :
  (wetness params <= 5)%Z -> (wetness' <= 5)%Z ->
  generate sample_cache (with_wetness params wetness') w
  = generate sample_cache params w.
Proof.
  intros H1 H2. destruct params as [d wt p t r ds s sr].
  unfold with_wetness. cbn [duration wetness pitch type reverb_amount distortion
                            randomness_seed sample_rate] in *.
  unfold generate, _generate_synthesis_layers, _apply_transformations, _post_process.
  cbn [duration wetness pitch type reverb_amount distortion
       randomness_seed sample_rate].
  assert (E1 : (5 <? wt)%Z = false) by (apply Z.ltb_ge; exact H1).
  assert (E2 : (5 <? wetness')%Z = false) by (apply Z.ltb_ge; exact H2).
  rewrite E1, E2. reflexivity.
Qed.

(** X15.  [distortion] is never read.  The field [distortion] of
    [AudioParameters] has no effect on the render: two requests that differ
    in it only give the same result (waveform, rate, generator state, or
    exception). *)
Theorem generate_ignores_distortion
  (params : AudioParameters) (d : Q) (w : World) :
  generate sample_cache (with_distortion params d) w
  = generate sample_cache params w.
Proof.
  destruct params as [du wt p t r ds s sr]. reflexivity.
Qed.

(** X16.  [wetness] acts through the threshold [wetness > 5] only, as long as it
    stays at or below 5: all requests with [wetness <= 5] that agree on the
    other fields give the same result.  Below the threshold the noise is
    white, there is no bubbling layer and no low-pass filter, and nothing
    else reads the value. *)
Theorem generate_dry_ignores_wetness
  (params : AudioParameters) (wetness' : Z) (w : World)
  (Hdry : (wetness params <= 5)%Z) (Hdry' : (wetness' <= 5)%Z) :
  generate sample_cache (with_wetness params wetness') w
  = generate sample_cache params w.
Proof.
  apply generate_dry_wetness; assumption.
Qed.

End UnusedParameters.

Lemma generate_dry_ignores_wetness_witness :
  generate (L := Padding.library 0%R) demo_cache (with_wetness demo_params 5)
           (Counter.world 0 0)
  = generate (L := Padding.library 0%R) demo_cache demo_params (Counter.world 0 0).
Proof.
  apply (@generate_dry_ignores_wetness _ (Padding.library 0%R) demo_cache
           demo_params 5 (Counter.world 0 0)); simpl; lia.
Defined.

(** ** The bubbling layer: where the bursts lie and how loud they get *)

Section BubblingShape.

Context {RS : RandomSource}.

Local Open Scope R_scope.

(** What one pass of the loop does to each sample. *)
Lemma add_burst_nth (length : Z) (b : Bubble) (bubble audio out : list R) :
  drawn_in_range length b ->
  List.length audio = Z.to_nat length ->
  List.length bubble = Z.to_nat (bubble_length b) ->
  add_burst length b bubble audio = Ok out ->
  forall i,
    nth i out 0
    = nth i audio 0
      + (if ((Z.to_nat (pos b) <=? i)
             && (i <? Z.to_nat (pos b) + Z.to_nat (bubble_length b)))%nat
         then nth (i - Z.to_nat (pos b)) bubble 0 * (1 / 10)
         else 0).
Proof.
  intros Hr La Lb H i. destruct (burst_fits Hr) as [Hend Hmin].
  destruct Hr as (Hp & Hl & _).
  unfold add_burst in H. rewrite Hmin in H.
  replace (pos b + bubble_length b - pos b)%Z with (bubble_length b) in H by lia.
  set (p := Z.to_nat (pos b)) in *. set (n := Z.to_nat (bubble_length b)) in *.
  assert (Lt : List.length (firstn n (skipn p audio)) = n).
  { rewrite length_firstn, length_skipn, La. lia. }
  assert (Ls : List.length (Np.scale (firstn n bubble) (1 / 10)) = n).
  { rewrite scale_length, length_firstn, Lb. lia. }
  rewrite iadd_same_length in H by congruence. cbn [rbind] in H.
  inversion H; subst out. clear H.
  assert (Lp : List.length (firstn p audio) = p).
  { rewrite length_firstn, La. lia. }
  assert (Lm : List.length (Np.add (firstn n (skipn p audio))
                                   (Np.scale (firstn n bubble) (1 / 10))) = n).
  { rewrite add_length, Lt, Ls. lia. }
  destruct (Nat.leb_spec p i) as [Hlo | Hlo]; cbn [andb].
  - rewrite app_nth2 by lia. rewrite Lp.
    destruct (Nat.ltb_spec i (p + n)) as [Hhi | Hhi].
    + rewrite app_nth1 by lia.
      rewrite nth_add by congruence.
      rewrite nth_scale, !nth_firstn.
      destruct (Nat.ltb_spec (i - p) n) as [_ | Hc]; [| lia].
      rewrite nth_skipn. replace (p + (i - p))%nat with i by lia. reflexivity.
    + rewrite app_nth2 by lia. rewrite Lm, nth_skipn.
      replace (p + n + (i - p - n))%nat with i by lia. ring.
  - rewrite app_nth1 by lia. rewrite nth_firstn.
    destruct (Nat.ltb_spec i p) as [_ | Hc]; [| lia]. ring.
Qed.

Lemma exp_nonpos (x : R) : x <= 0 -> 0 < exp x <= 1.
Proof.
  intros Hx. split; [apply exp_pos |].
  destruct (Req_dec x 0) as [-> | Hne]; [rewrite exp_0; lra |].
  rewrite <- exp_0. left. apply exp_increasing. lra.
Qed.

Lemma burst_sample (f t : R) : 0 <= t -> Rabs (sin (2 * PI * f * t) * exp (- t * 50)) <= 1.
Proof.
  intros Ht. rewrite Rabs_mult.
  pose proof (SIN_bound (2 * PI * f * t)) as [S1 S2].
  assert (Hs : Rabs (sin (2 * PI * f * t)) <= 1) by (apply Rabs_le; lra).
  destruct (@exp_nonpos (- t * 50) ltac:(lra)) as [E1 E2].
  rewrite (Rabs_right (exp _)) by lra.
  pose proof (Rabs_pos (sin (2 * PI * f * t))). nra.
Qed.

Lemma burst_wave_peak (f : R) (t : list R) :
  Forall (fun ti => 0 <= ti) t ->
  peak_within 1 (Np.mul (map (fun ti => sin (2 * PI * f * ti)) t) (envelope t)).
Proof.
  unfold peak_within, envelope. induction 1 as [| ti t Hti _ IH]; simpl.
  - constructor.
  - constructor; [apply burst_sample, Hti | exact IH].
Qed.

Lemma instants_nonneg (d : R) (n : nat) :
  0 <= d -> Forall (fun ti => 0 <= ti) (Np.linspace_pts 0 d n).
Proof.
  intros Hd. unfold Np.linspace_pts. rewrite Forall_map.
  apply Forall_forall. intros i _.
  pose proof (pos_INR i) as Hi. pose proof (pos_INR (n - 1)) as Hn.
  assert (Hq : 0 <= (d - 0) / INR (n - 1)).
  { destruct (Req_dec (INR (n - 1)) 0) as [E | E].
    - rewrite E. unfold Rdiv. rewrite Rinv_0. lra.
    - unfold Rdiv. apply Rmult_le_pos; [lra |].
      apply Rlt_le, Rinv_0_lt_compat. lra. }
  nra.
Qed.

Lemma bubble_wave_length (sr : Z) (b : Bubble) (wave : list R) :
  (0 <= bubble_length b)%Z ->
  bubble_wave sr b = Ok wave ->
  List.length wave = Z.to_nat (bubble_length b).
Proof.
  intros Hbl H. unfold bubble_wave in H.
  apply rbind_ok in H. destruct H as (d & _ & H).
  apply rbind_ok in H. destruct H as (t & Ht & H).
  apply linspace_ok in Ht. inversion H; subst wave.
  rewrite mul_length. unfold envelope.
  rewrite !length_map, Ht, linspace_pts_length. lia.
Qed.

Lemma bubble_wave_peak (sr : Z) (b : Bubble) (wave : list R) :
  (0 < sr)%Z -> (0 <= bubble_length b)%Z ->
  bubble_wave sr b = Ok wave -> peak_within 1 wave.
Proof.
  intros Hsr Hbl H. unfold bubble_wave in H.
  apply rbind_ok in H. destruct H as (d & Hd & H).
  apply div_ok in Hd as [_ ->].
  apply rbind_ok in H. destruct H as (t & Ht & H).
  apply linspace_ok in Ht. inversion H; subst wave. clear H.
  apply burst_wave_peak. rewrite Ht. apply instants_nonneg.
  rewrite <- RMicromega.Q2R_0. apply Qle_Rle.
  unfold Qle, Qdiv, Qmult, Qinv. destruct sr; simpl; lia.
Qed.

(** One pass of the loop, sample by sample. *)
Lemma add_bubble_nth (length sr : Z) (b : Bubble) (audio out : list R) :
  drawn_in_range length b ->
  List.length audio = Z.to_nat length ->
  add_bubble length sr b audio = Ok out ->
  List.length out = Z.to_nat length /\
  exists wave,
    bubble_wave sr b = Ok wave /\
    forall i,
      nth i out 0
      = nth i audio 0
        + (if ((Z.to_nat (pos b) <=? i)
               && (i <? Z.to_nat (pos b) + Z.to_nat (bubble_length b)))%nat
           then nth (i - Z.to_nat (pos b)) wave 0 * (1 / 10)
           else 0).
Proof.
  intros Hb La Ha.
  split; [eapply add_bubble_ok_length; eassumption |].
  unfold add_bubble in Ha.
  destruct (bubble_wave sr b) as [e | wave] eqn:Hw; [discriminate Ha |].
  cbn [rbind] in Ha. exists wave. split; [reflexivity |].
  eapply add_burst_nth; try eassumption.
  eapply bubble_wave_length; [| exact Hw]. destruct Hb as (_ & Hl & _). lia.
Qed.

(** The invariants of the loop: the samples from [length - 500] on stay at
    zero, and every burst adds at most 0.1 to a sample. *)
Lemma superpose_tail (length sr : Z) (bubbles : list Bubble) :
  Forall (drawn_in_range length) bubbles ->
  forall (audio out : list R),
    List.length audio = Z.to_nat length ->
    (forall i, (Z.to_nat (length - 500) <= i)%nat -> nth i audio 0 = 0) ->
    superpose length sr bubbles audio = Ok out ->
    forall i, (Z.to_nat (length - 500) <= i)%nat -> nth i out 0 = 0.
Proof.
  induction 1 as [| b bubbles Hb _ IH]; intros audio out La Htail H.
  - simpl in H. inversion H; subst out. exact Htail.
  - cbn [superpose] in H.
    destruct (add_bubble length sr b audio) as [e | a1] eqn:Ha; [discriminate H |].
    cbn [rbind] in H.
    destruct (@add_bubble_nth length sr b audio a1 Hb La Ha) as (L1 & wave & _ & Hnth).
    destruct (burst_fits Hb) as [Hend _]. destruct Hb as (Hp & Hl & _).
    apply (IH a1 out L1); [| exact H].
    intros i Hi. rewrite Hnth, (Htail i Hi).
    destruct (Nat.leb_spec (Z.to_nat (pos b)) i); cbn [andb]; [| ring].
    destruct (Nat.ltb_spec i (Z.to_nat (pos b) + Z.to_nat (bubble_length b)));
      [lia | ring].
Qed.

Lemma superpose_peak (length sr : Z) (bubbles : list Bubble) :
  (0 < sr)%Z ->
  Forall (drawn_in_range length) bubbles ->
  forall (audio out : list R) (B : R),
    List.length audio = Z.to_nat length ->
    (forall i, Rabs (nth i audio 0) <= B) ->
    superpose length sr bubbles audio = Ok out ->
    forall i, Rabs (nth i out 0) <= B + INR (List.length bubbles) * (1 / 10).
Proof.
  intros Hsr. induction 1 as [| b bubbles Hb _ IH]; intros audio out B La HB H.
  - simpl in H. inversion H; subst out.
    intros i. simpl. specialize (HB i). lra.
  - cbn [superpose] in H.
    destruct (add_bubble length sr b audio) as [e | a1] eqn:Ha; [discriminate H |].
    cbn [rbind] in H.
    destruct (@add_bubble_nth length sr b audio a1 Hb La Ha) as (L1 & wave & Hw & Hnth).
    assert (Pw : peak_within 1 wave).
    { eapply bubble_wave_peak; [exact Hsr | | exact Hw].
      destruct Hb as (_ & Hl & _). lia. }
    assert (B1 : forall i, Rabs (nth i a1 0) <= B + 1 / 10).
    { intros i. rewrite Hnth.
      pose proof (HB i) as Hi.
      pose proof (@peak_within_nth 1 wave (i - Z.to_nat (pos b)) ltac:(lra) Pw) as Hwv.
      apply abs_within in Hi, Hwv. apply Rabs_le.
      destruct (_ && _)%bool; lra. }
    intros i. pose proof (IH a1 out (B + 1 / 10) L1 B1 H i) as Hi.
    change (List.length (b :: bubbles)) with (S (List.length bubbles)).
    rewrite S_INR. lra.
Qed.

(** X17.  The bubbling layer.  Whatever the draws, the last 500 samples of the
    layer are silent: a burst starts at most 1000 samples before the end and
    is at most 500 samples long.  For a positive sample rate every burst
    stays within 0.1 (the decay envelope is at most 1), so no sample exceeds
    0.1 times the number of bursts, [wetness * 5]. *)
Theorem bubbling_layer_shape
  (length sr wetness : Z) (out : list R) (w w' : World)
  (Hrun : _generate_bubbling length sr wetness w = Ok (out, w')) :
  (forall i, (Z.to_nat (length - 500) <= i)%nat -> nth i out 0 = 0) /\
  ((0 < sr)%Z -> peak_within (INR (Z.to_nat (wetness * 5)) * (1 / 10)) out).
Proof.
  apply generate_bubbling_ok in Hrun.
  destruct Hrun as (bubbles & Hn & Hall & Hsup).
  assert (Hz : forall i, nth i (repeat 0 (Z.to_nat length)) 0 = 0).
  { intros i. destruct (Nat.lt_ge_cases i (Z.to_nat length)) as [Hi | Hi].
    - apply nth_repeat_lt, Hi.
    - apply nth_overflow. rewrite repeat_length. exact Hi. }
  split.
  - eapply superpose_tail; [exact Hall | apply repeat_length | | exact Hsup].
    intros i _. apply Hz.
  - intros Hsr.
    pose proof (@superpose_peak length sr bubbles Hsr Hall
                  (repeat 0 (Z.to_nat length)) out 0 (repeat_length _ _)) as B.
    unfold peak_within. apply Forall_nth. intros i d Hi.
    rewrite (nth_indep _ d 0) by exact Hi.
    specialize (B ltac:(intros; rewrite Hz, Rabs_R0; lra) Hsup i).
    rewrite Hn in B. lra.
Qed.

End BubblingShape.

Lemma bubbling_layer_shape_witness :
  exists out w',
    _generate_bubbling 1000 100 6 (Counter.world 42 42) = Ok (out, w') /\
    (forall i, (500 <= i)%nat -> nth i out 0%R = 0%R) /\
    peak_within (INR 30 * (1 / 10)) out.
Proof.
  destruct (@generate_bubbling_total Counter.source 1000 100 6 (Counter.world 42 42))
    as (out & w' & Hrun); [lia | discriminate |].
  exists out, w'. split; [exact Hrun |].
  destruct (@bubbling_layer_shape Counter.source _ _ _ _ _ _ Hrun) as [T B].
  split; [exact T | apply B; lia].
Defined.

(** ** Loading and selecting the recordings *)

Section LoadedLibrary.

Variable sf_read : string -> option Sample.

Ltac read_next :=
  match goal with
  | |- context [sf_read ?p] =>
      let E := fresh "E" in destruct (sf_read p) eqn:E
  | H : context [sf_read ?p] |- _ =>
      let E := fresh "E" in destruct (sf_read p) eqn:E
  end.

Lemma load_samples_some (cache : SampleCache) :
  _load_samples sf_read = Some cache ->
  forall t, Forall2 (fun path s => sf_read path = Some s) (paths_of t) (cache t).
Proof.
  unfold _load_samples, SAMPLE_LIBRARY. cbn [load_items read_all].
  intros H t.
  repeat (read_next; [| discriminate H]).
  cbn [option_map] in H. inversion H; subst cache. clear H.
  destruct t; cbv [paths_of SAMPLE_LIBRARY filter map concat app fst snd
                   FartType_eqb cache_entry];
    repeat constructor; assumption.
Qed.

Lemma read_all_none (paths : list string) :
  read_all sf_read paths = None ->
  exists path, In path paths /\ sf_read path = None.
Proof.
  induction paths as [| p paths IH]; simpl; [discriminate |].
  destruct (sf_read p) as [s |] eqn:E.
  - destruct (read_all sf_read paths); [discriminate |].
    intros _. destruct (IH eq_refl) as (path & Hin & Hnone).
    exists path. split; [right; exact Hin | exact Hnone].
  - intros _. exists p. split; [left; reflexivity | exact E].
Qed.

Lemma load_items_none (items : list (FartType * list string)) :
  load_items sf_read items = None ->
  exists kv path, In kv items /\ In path (snd kv) /\ sf_read path = None.
Proof.
  induction items as [| [t paths] items IH]; simpl; [discriminate |].
  destruct (read_all sf_read paths) as [l |] eqn:E.
  - destruct (load_items sf_read items); [discriminate |].
    intros _. destruct (IH eq_refl) as (kv & path & Hin & Hp & Hnone).
    exists kv, path. split; [right; exact Hin | split; assumption].
  - intros _. destruct (read_all_none _ E) as (path & Hin & Hnone).
    exists (t, paths), path. split; [left; reflexivity | split; assumption].
Qed.

Lemma load_samples_none :
  _load_samples sf_read = None <->
  exists t path, In path (paths_of t) /\ sf_read path = None.
Proof.
  split.
  - unfold _load_samples. intros H.
    destruct (load_items sf_read SAMPLE_LIBRARY) as [c |] eqn:E; [discriminate H |].
    destruct (load_items_none _ E) as (kv & path & Hin & Hp & Hnone).
    exists (fst kv), path. split; [| exact Hnone].
    unfold SAMPLE_LIBRARY in Hin. cbn [In] in Hin.
    destruct Hin as [<- | [<- | [<- | [<- | [<- | []]]]]]; exact Hp.
  - intros (t & path & Hin & Hnone).
    destruct (_load_samples sf_read) as [cache |] eqn:H; [| reflexivity].
    exfalso. pose proof (load_samples_some H t) as Hall.
    clear H. revert Hall. generalize (cache t). generalize dependent (paths_of t).
    induction l as [| p l IH]; intros Hin smp Hall; [contradiction |].
    inversion Hall; subst. destruct Hin as [-> | Hin]; [congruence |].
    eapply IH; eassumption.
Qed.

End LoadedLibrary.

Section LoadedSelection.

Context {RS : RandomSource}.

Variable sf_read : string -> option Sample.

(** X18.  Loading is all or nothing, and a loaded library serves every type.
    [_load_samples] fails as soon as one of the fourteen paths of
    [SAMPLE_LIBRARY] cannot be read, and only then.  When it succeeds, the
    cache holds under each type the recordings read from the paths of that
    type, in their order (3, 3, 2, 4 and 2 of them), so that sample selection
    succeeds for each of the five types. *)
Theorem load_samples_all_or_nothing :
  (_load_samples sf_read = None <->
   exists t path, In path (paths_of t) /\ sf_read path = None) /\
  (forall cache, _load_samples sf_read = Some cache ->
     forall t,
       Forall2 (fun path s => sf_read path = Some s) (paths_of t) (cache t) /\
       length (cache t) = match t with
                          | squeaker | rumbler => 3
                          | stutterer | wet => 2
                          | classic => 4
                          end%nat /\
       forall w : World, exists base w',
         _select_and_load_samples cache t w = Ok (base, w')).
Proof.
  split; [apply load_samples_none |].
  intros cache H t.
  pose proof (load_samples_some _ H t) as Hall.
  assert (Hlen : length (cache t) = length (paths_of t))
    by (symmetry; eapply Forall2_length, Hall).
  split; [exact Hall |]. split.
  - rewrite Hlen. destruct t; reflexivity.
  - intros w.
    destruct (@select_samples_total _ cache t w) as (sel & idx & w' & Hs & _).
    { intros E. rewrite E in Hlen. destruct t; discriminate Hlen. }
    unfold _select_and_load_samples, bind. rewrite Hs.
    destruct sel as [| [audio sr] [| s sel]]; unfold ret; do 2 eexists; reflexivity.
Qed.

Variable sample_cache : SampleCache.

(** X19.  A type with a single recording.  When exactly one recording is
    registered under the type, that recording is the base audio, whatever the
    draws; the rate stored with it is dropped. *)
Theorem single_recording_is_base
  (fart_type : FartType) (audio : list R) (sr : Z) (w : World)
  (Hone : sample_cache fart_type = [(audio, sr)]) :
  exists w', _select_and_load_samples sample_cache fart_type w = Ok (audio, w').
Proof.
  destruct (@select_samples_total _ sample_cache fart_type w)
    as (sel & idx & w' & Hs & Hsel & Hle & _ & Hpick).
  { rewrite Hone. discriminate. }
  rewrite Hone in Hle, Hpick. simpl in Hle.
  unfold _select_and_load_samples, bind. rewrite Hs.
  destruct sel as [| x [| y sel]]; simpl in Hsel, Hle; try lia.
  unfold picked in Hpick. inversion Hpick as [| i x' idx' sel' Hx Hrest]; subst.
  destruct i as [| i]; simpl in Hx.
  - inversion Hx; subst x. unfold ret. exists w'. reflexivity.
  - destruct i; discriminate Hx.
Qed.

End LoadedSelection.

Lemma load_samples_all_or_nothing_witness :
  _load_samples (fun path => if String.eqb path "samples/wet_02.wav"
                             then None else Some ([1%R], 44100%Z))
  = None.
Proof.
  apply (proj1 (@load_samples_all_or_nothing Counter.source _)).
  exists wet, "samples/wet_02.wav"%string.
  split; [right; left; reflexivity | reflexivity].
Defined.

Lemma single_recording_is_base_witness :
  exists w',
    _select_and_load_samples demo_cache classic (Counter.world 42 42)
    = Ok (repeat 1%R 20, w').
Proof.
  apply (@single_recording_is_base Counter.source demo_cache classic
           (repeat 1%R 20) 40%Z (Counter.world 42 42)).
  reflexivity.
Defined.

(** ** The rule-based fallback *)

Section FallbackRules.

Import Fallback.

Lemma fallback_wet (prompt : string) (now : Q) :
  any_in ["wet"; "sloppy"; "liquid"]%string (lower prompt) = true ->
  get_fallback_parameters prompt now = inl UnboundLocalError.
Proof.
  intros H. unfold get_fallback_parameters. rewrite H. reflexivity.
Qed.

Lemma fallback_dry (prompt : string) (now : Q) :
  any_in ["wet"; "sloppy"; "liquid"]%string (lower prompt) = false ->
  exists p,
    get_fallback_parameters prompt now = inr p /\
    valid_params p /\
    (2 <= wetness p <= 5)%Z /\
    (type p = squeaker \/ type p = rumbler \/ type p = classic) /\
    (duration p = 5 \/ duration p = 1 \/ duration p = 5 # 2)%Q /\
    reverb_amount p = 0%Q /\ distortion p = 0%Q /\
    sample_rate p = 44100%Z /\
    randomness_seed p = default_seed now.
Proof.
  intros H. unfold get_fallback_parameters. rewrite H.
  destruct (any_in ["long"; "huge"; "massive"]%string (lower prompt));
    [| destruct (any_in ["quick"; "short"; "brief"]%string (lower prompt))];
    (destruct (any_in ["squeaky"; "high"; "sharp"]%string (lower prompt));
     [| destruct (any_in ["low"; "deep"; "rumble"]%string (lower prompt))]);
    (eexists; split; [reflexivity |];
     cbn [duration wetness pitch type reverb_amount distortion randomness_seed
          sample_rate];
     split; [unfold valid_params, Qle; simpl; lia |];
     repeat split; try lia; auto).
Qed.

(** X20.  The wet branch of the fallback never returns.  For every prompt that
    contains "wet", "sloppy" or "liquid" (in any letter case),
    [get_fallback_parameters] raises [UnboundLocalError]: that branch assigns
    [wetness] and [type_] but not [pitch], which the final call reads. *)
Theorem fallback_wet_prompt_raises (prompt : string) (now : Q)
  (Hascii : ascii_only prompt = true)
  (Hwet : any_in ["wet"; "sloppy"; "liquid"]%string (lower prompt) = true) :
  get_fallback_parameters prompt now = inl UnboundLocalError.
Proof.
  apply fallback_wet, Hwet.
Qed.

(** X21.  Every other prompt gets valid parameters.  For a prompt without those
    three words the fallback returns an [AudioParameters] that passes the
    field constraints, with [wetness] between 2 and 5 (so the render has
    white noise, no bubbling layer and no low-pass filter), type squeaker,
    rumbler or classic, a duration of 5, 1 or 2.5 seconds, no reverb, the
    default rate of 44100 Hz and the clock-derived default seed. *)
Theorem fallback_dry_prompt_valid (prompt : string) (now : Q)
  (Hascii : ascii_only prompt = true)
  (Hdry : any_in ["wet"; "sloppy"; "liquid"]%string (lower prompt) = false) :
  exists p,
    get_fallback_parameters prompt now = inr p /\
    valid_params p /\
    (2 <= wetness p <= 5)%Z /\
    (type p = squeaker \/ type p = rumbler \/ type p = classic) /\
    (duration p = 5 \/ duration p = 1 \/ duration p = 5 # 2)%Q /\
    reverb_amount p = 0%Q /\ distortion p = 0%Q /\
    sample_rate p = 44100%Z /\
    randomness_seed p = default_seed now.
Proof.
  apply fallback_dry, Hdry.
Qed.

End FallbackRules.

Lemma fallback_wet_prompt_raises_witness :
  Fallback.get_fallback_parameters "A long WET one" 1700000000
  = inl Fallback.UnboundLocalError.
Proof.
  apply (@fallback_wet_prompt_raises "A long WET one" 1700000000);
    vm_compute; reflexivity.
Defined.

Lemma fallback_dry_prompt_valid_witness :
  exists p,
    Fallback.get_fallback_parameters "quick and squeaky" 1700000000 = inr p /\
    valid_params p.
Proof.
  destruct (@fallback_dry_prompt_valid "quick and squeaky" 1700000000)
    as (p & Hp & Hv & _); [vm_compute; reflexivity | vm_compute; reflexivity |].
  exists p. split; [exact Hp | exact Hv].
Defined.

(** ** When the layers are produced, and when the render succeeds *)

Section RenderSucceeds.

Context {RS : RandomSource} {L : DspLibrary R}.

Variable sample_cache : SampleCache.

Local Open Scope R_scope.

Lemma synthesis_layers_needs (params : AudioParameters) (w w' : World)
                             (layers : Layers) :
  _generate_synthesis_layers params w = Ok (layers, w') ->
  sample_rate params <> 0%Z /\
  (0 <= duration_samples params)%Z /\
  ((5 < wetness params)%Z -> (1000 <= duration_samples params)%Z) /\
  exists noise rumble,
    lookup "noise" layers = Some noise /\ lookup "rumble" layers = Some rumble.
Proof.
  intros H. pose proof H as Hshape. apply synthesis_layers_ok in Hshape.
  destruct Hshape as (noise & rumble & w1 & w2 & Hn & Hr & Hcase).
  apply generate_rumble_ok in Hr as [Hsr Hlen].
  split; [exact Hsr |]. split; [exact Hlen |]. split.
  - intros Hwet.
    destruct (Z.lt_ge_cases (duration_samples params) 1000) as [Hshort | Hlong];
      [| exact Hlong].
    destruct (@synthesis_layers_short _ params w Hwet Hshort) as (e & He).
    rewrite He in H. discriminate H.
  - exists noise, rumble.
    destruct Hcase as [[_ ->] | [_ (b & _ & ->)]]; split; reflexivity.
Qed.

(** X22.  When the layer set is produced.  [_generate_synthesis_layers] returns
    exactly when the sample rate is not zero, [int(duration * sample_rate)]
    (the float product truncated) is not negative and, for [wetness > 5], at
    least 1000; the result then has a noise and a rumble entry.  In every
    other case it raises. *)
Theorem synthesis_layers_succeed_iff (params : AudioParameters) (w : World) :
  (exists layers w', _generate_synthesis_layers params w = Ok (layers, w')) <->
  sample_rate params <> 0%Z /\
  (0 <= duration_samples params)%Z /\
  ((5 < wetness params)%Z -> (1000 <= duration_samples params)%Z).
Proof.
  split.
  - intros (layers & w' & H). apply synthesis_layers_needs in H. tauto.
  - intros (Hsr & Hlen & Hwet). apply synthesis_layers_total; assumption.
Qed.

Lemma generate_total (params : AudioParameters) (w w1 : World)
                     (base base' : list R) :
  (0 <= randomness_seed params < 2 ^ 32)%Z ->
  (0 <= duration_samples params)%Z ->
  ((5 < wetness params)%Z -> (1000 <= duration_samples params)%Z) ->
  _select_and_load_samples sample_cache (type params)
    (py_seed (randomness_seed params), np_seed (randomness_seed params))
  = Ok (base, w1) ->
  _apply_transformations base params = Ok base' ->
  (1 <= fade_samples_of params <= Z.of_nat (length base'))%Z ->
  exists out w',
    generate sample_cache params w = Ok ((out, sample_rate params), w') /\
    length out = length base'.
Proof.
  intros Hseed Hlen Hwet Hsel Htr Hk.
  pose proof (@fade_samples_rate params ltac:(lia)) as Hsr.
  unfold generate. unfold bind at 1. unfold Random.np_seed_checked.
  destruct (Z.leb_spec 0 (randomness_seed params)) as [_ | Hc]; [| lia].
  destruct (Z.ltb_spec (randomness_seed params) (2 ^ 32)) as [_ | Hc]; [| lia].
  cbn [andb]. unfold bind at 1. unfold Random.seed. cbn [fst snd].
  unfold bind at 1. rewrite Hsel.
  destruct (@synthesis_layers_total _ params w1) as (layers & w2 & Hsyn);
    [lia | exact Hlen | exact Hwet |].
  unfold bind at 1. rewrite Hsyn.
  apply synthesis_layers_needs in Hsyn.
  destruct Hsyn as (_ & _ & _ & noise & rumble & Hn & Hr).
  unfold bind at 1, lift at 1. rewrite Htr.
  destruct (@mix_layers_run base' layers params noise rumble Hn Hr)
    as (mixed & Hmix & Lmix & _).
  unfold bind at 1, lift at 1. rewrite Hmix.
  destruct (@post_process_total _ mixed params w2) as (out & w3 & Hpost).
  { rewrite Lmix. exact Hk. }
  unfold bind. rewrite Hpost. unfold ret.
  exists out, w3. split; [reflexivity |].
  apply post_process_ok in Hpost as (_ & _ & Lout & _). congruence.
Qed.

(** X23.  When the render succeeds.  [generate] returns a waveform at
    [params.sample_rate] as soon as the seed is in [[0, 2**32)], the request
    covers a non-negative number of samples (at least 1000 for
    [wetness > 5]), a base recording is selected, the transform stage returns
    on it, and its output holds at least [int(0.05 * sample_rate) >= 1]
    samples.  The waveform is as long as the transformed base recording. *)
Theorem generate_succeeds_when
  (params : AudioParameters) (w w1 : World) (base base' : list R)
  (Hseed : (0 <= randomness_seed params < 2 ^ 32)%Z)
  (Hlen : (0 <= duration_samples params)%Z)
  (Hwet : (5 < wetness params)%Z -> (1000 <= duration_samples params)%Z)
  (Hsel : _select_and_load_samples sample_cache (type params)
            (py_seed (randomness_seed params), np_seed (randomness_seed params))
          = Ok (base, w1))
  (Htr : _apply_transformations base params = Ok base')
  (Hk : (1 <= fade_samples_of params <= Z.of_nat (length base'))%Z) :
  exists out w',
    generate sample_cache params w = Ok ((out, sample_rate params), w') /\
    length out = length base'.
Proof.
  eapply generate_total; eassumption.
Qed.

End RenderSucceeds.

Lemma synthesis_layers_succeed_iff_witness :
  exists layers w',
    _generate_synthesis_layers boundary_params (Counter.world 42 42) = Ok (layers, w').
Proof.
  apply (proj2 (@synthesis_layers_succeed_iff Counter.source boundary_params
                  (Counter.world 42 42))).
  split; [discriminate |].
  split; [vm_compute; discriminate | intros _; vm_compute; discriminate].
Defined.

Lemma generate_succeeds_when_witness :
  exists out w',
    generate (L := Padding.library 0%R) demo_cache demo_params (Counter.world 7 9)
    = Ok ((out, 40%Z), w') /\
    length out = 20%nat.
Proof.
  apply (@generate_succeeds_when Counter.source (Padding.library 0%R) demo_cache
           demo_params (Counter.world 7 9) (Counter.world 44 42)
           (repeat 1%R 20) (Padding.fit 0%R (repeat 1%R 20) 20)).
  - simpl. lia.
  - vm_compute. discriminate.
  - simpl. lia.
  - reflexivity.
  - reflexivity.
  - vm_compute. split; discriminate.
Defined.

(** ** The fallback parameters in the engine *)

Section FallbackRender.

Context {RS : RandomSource} {L : DspLibrary R}.

Variable sample_cache : SampleCache.

Lemma fallback_seed (prompt : string) (now : Q) (p : AudioParameters) :
  Fallback.get_fallback_parameters prompt now = inr p ->
  randomness_seed p = Fallback.default_seed now.
Proof.
  unfold Fallback.get_fallback_parameters, Fallback.new_parameters.
  repeat match goal with
         | |- context [if ?c then _ else _] => destruct c
         end;
    cbn; intros H; inversion H; reflexivity.
Qed.

(** X24.  The engine rejects every fallback result.  Whatever the prompt, the
    parameters that [get_fallback_parameters] returns carry the default seed
    [int(time.time() * 1000)], which [np.random.seed] refuses: rendering them
    raises [ValueError] (for every clock reading from 4294967.296 s on). *)
Theorem fallback_render_raises
  (prompt : string) (now : Q) (p : AudioParameters) (w : World)
  (Hascii : Fallback.ascii_only prompt = true)
  (Hnow : (4294967296 # 1000 <= now)%Q)
  (Hp : Fallback.get_fallback_parameters prompt now = inr p) :
  generate sample_cache p w = Err ValueError.
Proof.
  apply generate_wide_seed. right.
  rewrite (fallback_seed _ _ Hp). apply default_seed_wide, Hnow.
Qed.

End FallbackRender.

Lemma fallback_render_raises_witness :
  exists p,
    Fallback.get_fallback_parameters "quick and squeaky" 1700000000 = inr p /\
    generate (L := Padding.library 0%R) demo_cache p (Counter.world 0 0)
    = Err ValueError.
Proof.
  destruct (@fallback_dry "quick and squeaky" 1700000000) as (p & Hp & _);
    [vm_compute; reflexivity |].
  exists p. split; [exact Hp |].
  apply (@fallback_render_raises Counter.source (Padding.library 0%R) demo_cache
           "quick and squeaky" 1700000000 p (Counter.world 0 0));
    [vm_compute; reflexivity | vm_compute; discriminate | exact Hp].
Defined.

(** ** The noise generator: degenerate requests *)

Section NoiseEdges.

Context {RS : RandomSource}.

Local Open Scope R_scope.

Lemma np_normal_negative (loc scale : R) (size : Z) (w : World) :
  (size < 0)%Z -> Random.np_normal loc scale size w = Err ValueError.
Proof.
  intros H. unfold Random.np_normal.
  destruct (Z.ltb_spec size 0); [reflexivity | lia].
Qed.

(** X25.  Degenerate requests to the noise generator.  A negative length raises
    [ValueError] for both colours.  White noise of length 0 is the empty
    array and the rate is not read; pink noise of length 0 raises
    [ValueError] (the FFT of an empty array), and pink noise at a rate of 0
    raises [ZeroDivisionError] from [1/sr]. *)
Theorem generate_noise_degenerate (length sr : Z) (w : World) :
  ((length < 0)%Z ->
   forall noise_type, _generate_noise length sr noise_type w = Err ValueError) /\
  (forall sr', _generate_noise length sr white w = _generate_noise length sr' white w) /\
  _generate_noise 0 sr white w = Ok ([], w) /\
  _generate_noise 0 sr pink w = Err ValueError /\
  ((1 <= length)%Z -> _generate_noise length 0 pink w = Err ZeroDivisionError).
Proof.
  split; [| split; [| split; [| split]]].
  - intros Hneg [|]; unfold _generate_noise.
    + apply np_normal_negative, Hneg.
    + unfold bind. rewrite np_normal_negative by exact Hneg. reflexivity.
  - reflexivity.
  - unfold _generate_noise. rewrite np_normal_run by lia.
    destruct w; reflexivity.
  - unfold _generate_noise, bind at 1. rewrite np_normal_run by lia. reflexivity.
  - intros Hlen. unfold _generate_noise, bind at 1.
    rewrite np_normal_run by lia.
    unfold bind at 1, lift at 1, Fft.fft.
    pose proof (draws_from_length (Z.to_nat length) (snd w)) as Hd.
    destruct (fst (draws_from (Z.to_nat length) (snd w))) as [| z zs] eqn:E.
    { simpl in Hd. lia. }
    reflexivity.
Qed.

End NoiseEdges.

Lemma generate_noise_degenerate_witness :
  _generate_noise (-1) 44100 pink (Counter.world 0 0) = Err ValueError /\
  _generate_noise 4 0 pink (Counter.world 0 0) = Err ZeroDivisionError.
Proof.
  destruct (@generate_noise_degenerate Counter.source (-1) 44100 (Counter.world 0 0))
    as (Hneg & _).
  destruct (@generate_noise_degenerate Counter.source 4 0 (Counter.world 0 0))
    as (_ & _ & _ & _ & Hzero).
  split; [apply Hneg; lia | apply Hzero; lia].
Defined.

(** * Sample counts, short requests and the bubbling layer (C4, C10) *)

(** ** Float products *)

Lemma round_nonneg (x : Q) : (0 <= x)%Q -> (0 <= Py.round x)%Z.
Proof.
  intros Hx. unfold Py.round.
  assert (Hf : (0 <= Qfloor x)%Z).
  { rewrite <- (Qfloor_Z 0). apply Qfloor_resp_le. exact Hx. }
  destruct (Qcompare _ _); [destruct (Z.even _) | |]; lia.
Qed.

Lemma pow2_pos (e : Z) : (0 < Float64.pow2 e)%Q.
Proof.
  unfold Float64.pow2. destruct (Z.leb_spec 0 e) as [He | He].
  - unfold Qlt. simpl. pose proof (Z.pow_pos_nonneg 2 e ltac:(lia) He). lia.
  - reflexivity.
Qed.

Lemma nearest_nonneg (q : Q) : (0 <= q)%Q -> (0 <= Float64.nearest q)%Q.
Proof.
  intros Hq. unfold Float64.nearest.
  destruct (Qeq_bool q 0); [apply Qle_refl |].
  set (e := Z.max _ _).
  pose proof (pow2_pos e) as He.
  apply Qmult_le_0_compat; [| apply Qlt_le_weak, He].
  change 0%Q with (inject_Z 0). rewrite <- Zle_Qle.
  apply round_nonneg. apply Qle_shift_div_l; [exact He |].
  rewrite Qmult_0_l. exact Hq.
Qed.

Lemma int_nonneg (q : Q) : (0 <= q)%Q -> (0 <= Py.int q)%Z.
Proof.
  intros Hq. unfold Py.int. apply Z.quot_pos; [| lia].
  unfold Qle in Hq. simpl in Hq. lia.
Qed.

(** A request with a duration and a rate that are not negative covers a
    number of samples that is not negative. *)
Lemma duration_samples_nonneg (params : AudioParameters) :
  (0 <= duration params)%Q -> (0 <= sample_rate params)%Z ->
  (0 <= duration_samples params)%Z.
Proof.
  intros Hd Hsr. unfold duration_samples, Float64.mul, Float64.of_int.
  apply int_nonneg, nearest_nonneg.
  apply Qmult_le_0_compat; apply nearest_nonneg; [exact Hd |].
  change 0%Q with (inject_Z 0). rewrite <- Zle_Qle. exact Hsr.
Qed.

(** At a sample rate of 0 the product is 0. *)
Lemma duration_samples_zero_rate (params : AudioParameters) :
  sample_rate params = 0%Z -> duration_samples params = 0%Z.
Proof.
  intros E. unfold duration_samples. rewrite E.
  change (Float64.of_int 0) with 0%Q.
  unfold Float64.mul. set (x := Float64.nearest (duration params)).
  unfold Float64.nearest.
  destruct (Qeq_bool (x * 0) 0) eqn:E0; [reflexivity |].
  apply Qeq_bool_neq in E0. exfalso. apply E0. ring.
Qed.

(** The float product at work: 0.57 s at 100 Hz are 56 samples (the product
    is 56.99999999999999), 0.7 s at 44.1 kHz are 30869 samples, half a second
    at 44.1 kHz are 22050 samples, and 0.6172839506172839 s at 1620 Hz are
    1000 samples although the exact product is below 1000. *)
Lemma duration_samples_examples :
  duration_samples float_params = 56%Z /\
  duration_samples (mkParams (7 # 10) 0 5 classic 0 0 42 44100) = 30869%Z /\
  duration_samples (mkParams (1 # 2) 0 5 classic 0 0 42 44100) = 22050%Z /\
  duration_samples boundary_params = 1000%Z /\
  Py.int (duration boundary_params * inject_Z (sample_rate boundary_params)) = 999%Z.
Proof. repeat split; vm_compute; reflexivity. Qed.

(** ** Requests that cover fewer than 1000 samples *)

Section ShortRequests.

Context {RS : RandomSource} {L : DspLibrary R}.

Local Open Scope R_scope.

Lemma select_and_load_total (sample_cache : SampleCache) (fart_type : FartType)
                            (w : World) :
  sample_cache fart_type <> [] ->
  exists base w', _select_and_load_samples sample_cache fart_type w = Ok (base, w').
Proof.
  intros Hne.
  destruct (@select_samples_total _ sample_cache fart_type w Hne)
    as (sel & idx & w' & Hs & _).
  unfold _select_and_load_samples, bind. rewrite Hs.
  destruct sel as [| [audio sr] [| s sel]]; unfold ret; do 2 eexists; reflexivity.
Qed.

(** The layer set of a wet request that covers fewer than 1000 samples: the
    noise and the rumble are produced, and the bubbling generator raises
    (for a request of no sample at all, the FFT of the pink noise raises
    first, the same exception). *)
Lemma synthesis_layers_short_error (params : AudioParameters) (w : World) :
  (5 < wetness params)%Z -> (duration_samples params < 1000)%Z ->
  _generate_synthesis_layers params w = Err ValueError.
Proof.
  intros Hwet Hhi.
  pose proof (duration_samples_zero_rate params) as Hzero.
  unfold _generate_synthesis_layers.
  fold (duration_samples params).
  destruct (Z.ltb_spec 5 (wetness params)) as [_ | Hc]; [| lia].
  destruct (Z.lt_trichotomy (duration_samples params) 0) as [Hneg | [E | Hpos]].
  - unfold bind at 1. unfold _generate_noise, bind at 1.
    rewrite np_normal_negative by exact Hneg. reflexivity.
  - rewrite E. unfold bind at 1. unfold _generate_noise, bind at 1.
    rewrite np_normal_run by lia. reflexivity.
  - assert (Hsr : sample_rate params <> 0%Z) by (intros E; apply Hzero in E; lia).
    assert (Hlo : (0 <= duration_samples params)%Z) by lia.
    unfold bind at 1. rewrite generate_noise_pink by (lia || assumption).
    destruct (@generate_rumble_total _ (duration_samples params) (sample_rate params)
                (_pitch_to_freq (pitch params))
                (fst w, snd (draws_from (Z.to_nat (duration_samples params)) (snd w)))
                Hlo Hsr) as (rumble & w2 & Hr).
    unfold bind at 1. rewrite Hr.
    unfold bind. rewrite generate_bubbling_short by lia. reflexivity.
Qed.

Lemma generate_short_error (sample_cache : SampleCache) (params : AudioParameters)
                           (w : World) :
  (5 < wetness params)%Z -> (duration_samples params < 1000)%Z ->
  (0 <= randomness_seed params < 2 ^ 32)%Z ->
  sample_cache (type params) <> [] ->
  generate sample_cache params w = Err ValueError.
Proof.
  intros Hwet Hlen Hseed Hne.
  unfold generate. unfold bind at 1. unfold Random.np_seed_checked.
  destruct (Z.leb_spec 0 (randomness_seed params)) as [_ | Hc]; [| lia].
  destruct (Z.ltb_spec (randomness_seed params) (2 ^ 32)) as [_ | Hc]; [| lia].
  cbn [andb]. unfold bind at 1. unfold Random.seed. cbn [fst snd].
  destruct (@select_and_load_total sample_cache (type params)
              (py_seed (randomness_seed params), np_seed (randomness_seed params)) Hne)
    as (base & w1 & Hsel).
  unfold bind at 1. rewrite Hsel.
  unfold bind. rewrite synthesis_layers_short_error by assumption. reflexivity.
Qed.

(** C10, as the code has it.  The bubbling generator needs a buffer of at
    least 1000 samples.  (1) With at least one bubble to place and fewer than
    1000 samples it raises [ValueError], because the start position is drawn
    from the empty range [[0, length - 1000]].  (2) Hence, for parameters
    (valid or not) with [wetness > 5] such that [int(duration * sample_rate)],
    the float product truncated, is below 1000, no layer set is produced and
    [generate] fails; with a seed that NumPy accepts and a recording of the
    requested type the exception is that [ValueError].  (3) With at least 1000 samples and a non-zero sample rate
    the generator returns a buffer, and every burst it places starts in
    [[0, length - 1000]], is at most 500 samples long, ends at least 500
    samples before the end of the buffer and is not truncated.  (4) As a
    random draw, the start position [random.randint(0, length - 1000)] takes
    each integer of [[0, length - 1000]] with the same probability
    [1 / (length - 999)], and with fewer than 1000 samples it is the
    exception with probability 1. *)
Theorem bubbling_needs_1000_samples :
  (forall (length sr wetness : Z) (w : World),
     (1 <= wetness)%Z -> (length < 1000)%Z ->
     _generate_bubbling length sr wetness w = Err ValueError) /\
  (forall (sample_cache : SampleCache) (params : AudioParameters) (w : World),
     (5 < wetness params)%Z -> (duration_samples params < 1000)%Z ->
     _generate_synthesis_layers params w = Err ValueError /\
     (exists e, generate sample_cache params w = Err e) /\
     ((0 <= randomness_seed params < 2 ^ 32)%Z ->
      sample_cache (type params) <> [] ->
      generate sample_cache params w = Err ValueError)) /\
  (forall (length sr wetness : Z) (w : World),
     (1000 <= length)%Z -> sr <> 0%Z ->
     exists out w' bubbles,
       _generate_bubbling length sr wetness w = Ok (out, w') /\
       List.length bubbles = Z.to_nat (wetness * 5) /\
       Forall (fun b =>
                 (0 <= pos b <= length - 1000)%Z /\
                 (bubble_length b <= 500)%Z /\
                 (pos b + bubble_length b <= length - 500)%Z /\
                 Py.min (pos b + bubble_length b) length
                 = (pos b + bubble_length b)%Z)
              bubbles /\
       superpose length sr bubbles (repeat 0 (Z.to_nat length)) = Ok out) /\
  (forall length k : Z,
     (1000 <= length)%Z -> (0 <= k <= length - 1000)%Z ->
     (Dist.prob (randint_dist 0 (length - 1000)) (draws k)
      == 1 / inject_Z (length - 999))%Q) /\
  (forall length : Z,
     (length < 1000)%Z ->
     randint_dist 0 (length - 1000) = Dist.ret (Err ValueError)).
Proof.
  split; [| split; [| split; [| split]]].
  - intros length sr wetness w Hw Hlen. apply generate_bubbling_short; assumption.
  - intros sample_cache params w Hwet Hshort.
    split; [apply synthesis_layers_short_error; assumption |].
    split; [apply generate_short; assumption |].
    intros Hseed Hne. apply generate_short_error; assumption.
  - intros length sr wetness w Hlen Hsr.
    destruct (@generate_bubbling_total _ length sr wetness w Hlen Hsr)
      as (out & w' & Hrun).
    pose proof (generate_bubbling_ok _ _ _ _ Hrun) as (bubbles & Hn & Hall & Hsup).
    exists out, w', bubbles. split; [exact Hrun |]. split; [exact Hn |].
    split; [| exact Hsup].
    eapply Forall_impl; [| exact Hall].
    intros b Hb. destruct (burst_fits Hb) as [Hend Hmin].
    destruct Hb as (Hp & Hl & _).
    repeat split; lia || assumption.
  - intros length k Hlen Hk. rewrite randint_uniform by lia.
    replace (length - 1000 - 0 + 1)%Z with (length - 999)%Z by lia. reflexivity.
  - intros length Hlen. unfold randint_dist.
    destruct (Z.ltb_spec (length - 1000) 0) as [_ | Hc]; [reflexivity | lia].
Qed.

End ShortRequests.

Lemma bubbling_needs_1000_samples_witness :
  _generate_bubbling 50 100 6 (Counter.world 42 42) = Err ValueError /\
  generate (L := Padding.library 0%R) demo_cache short_wet_params
           (Counter.world 0 0) = Err ValueError /\
  (exists out w' bubbles,
     _generate_bubbling 1000 100 6 (Counter.world 42 42) = Ok (out, w') /\
     List.length bubbles = 30%nat /\
     Forall (fun b =>
               (0 <= pos b <= 0)%Z /\
               (bubble_length b <= 500)%Z /\
               (pos b + bubble_length b <= 500)%Z /\
               Py.min (pos b + bubble_length b) 1000
               = (pos b + bubble_length b)%Z)
            bubbles /\
     superpose 1000 100 bubbles (repeat 0%R 1000) = Ok out).
Proof.
  pose proof (@bubbling_needs_1000_samples Counter.source (Padding.library 0%R))
    as (Hshort & Hgen & Htotal & _).
  split; [| split].
  - apply Hshort; lia.
  - apply (Hgen demo_cache short_wet_params (Counter.world 0 0)).
    + simpl. lia.
    + vm_compute. reflexivity.
    + simpl. lia.
    + discriminate.
  - apply (Htotal 1000%Z 100%Z 6%Z (Counter.world 42 42)); lia.
Defined.

(** The request [boundary_params] is rendered. *)
Lemma boundary_render :
  exists (out : list R) (w' : World),
    generate (L := Padding.library 0%R) boundary_cache boundary_params
             (Counter.world 0 0)
    = Ok ((out, 1620%Z), w').
Proof.
  destruct (@generate_total Counter.source (Padding.library 0%R) boundary_cache
              boundary_params (Counter.world 0 0) (Counter.world 44 42)
              (repeat 1%R 1000) (Padding.fit 0%R (repeat 1%R 1000) 1000))
    as (out & w' & Hrun & _).
  - simpl. lia.
  - vm_compute. discriminate.
  - intros _. vm_compute. discriminate.
  - reflexivity.
  - reflexivity.
  - rewrite Padding.fit_length. vm_compute. split; discriminate.
  - exists out, w'. exact Hrun.
Qed.


(** The exact product [duration * sample_rate] is below 1000 for this valid
    request (whether [duration] is read as the decimal number or as the float
    nearest to it), and yet the request is rendered: the float product is
    1000.0, so the bubbling generator gets a buffer of 1000 samples. *)
Lemma float_product_reaches_1000 :
  valid_params boundary_params /\
  (duration boundary_params * inject_Z (sample_rate boundary_params) < 1000)%Q /\
  (Float64.nearest (duration boundary_params)
   * inject_Z (sample_rate boundary_params) < 1000)%Q /\
  duration_samples boundary_params = 1000%Z /\
  exists (out : list R) (w' : World),
    generate (L := Padding.library 0%R) boundary_cache boundary_params
             (Counter.world 0 0)
    = Ok ((out, 1620%Z), w').
Proof.
  split.
  { unfold valid_params, boundary_params; simpl.
    repeat split; try lia; unfold Qle; simpl; lia. }
  split; [vm_compute; reflexivity |].
  split; [vm_compute; reflexivity |].
  split; [vm_compute; reflexivity |].
  exact boundary_render.
Qed.

(** ** The content of the bubbling layer *)

Section BubblingContent.

Context {RS : RandomSource}.

Local Open Scope R_scope.

(** Sample [j] of a burst: the carrier times the decay at instant [j]. *)
Lemma bubble_wave_nth (sr : Z) (b : Bubble) (wave : list R) (j : nat) :
  bubble_wave sr b = Ok wave ->
  (j < Z.to_nat (bubble_length b))%nat ->
  nth j wave 0
  = sin (2 * PI * freq b * burst_instant sr b j)
    * exp (- burst_instant sr b j * 50).
Proof.
  intros H Hj. unfold bubble_wave in H.
  apply rbind_ok in H. destruct H as (d & Hd & H).
  apply div_ok in Hd as [_ ->].
  apply rbind_ok in H. destruct H as (t & Ht & H).
  apply linspace_ok in Ht. inversion H; subst wave. clear H.
  assert (Lt : length t = Z.to_nat (bubble_length b))
    by (rewrite Ht; apply linspace_pts_length).
  assert (Hnth : nth j t 0 = burst_instant sr b j).
  { rewrite Ht, nth_linspace_pts by exact Hj.
    unfold burst_instant, Rdiv, Rminus. ring. }
  assert (Hmap : forall f : R -> R, nth j (map f t) 0 = f (nth j t 0)).
  { intros f. rewrite (nth_indep _ 0 (f 0)) by (rewrite length_map, Lt; exact Hj).
    apply map_nth. }
  rewrite nth_mul. unfold envelope. rewrite !Hmap.
  rewrite Hnth. reflexivity.
Qed.

(** One pass of the loop adds the burst, and nothing else. *)
Lemma add_bubble_burst (length sr : Z) (b : Bubble) (audio out : list R) :
  drawn_in_range length b ->
  List.length audio = Z.to_nat length ->
  add_bubble length sr b audio = Ok out ->
  List.length out = Z.to_nat length /\
  forall i, nth i out 0 = nth i audio 0 + burst_at sr b i.
Proof.
  intros Hb La Ha.
  destruct (@add_bubble_nth length sr b audio out Hb La Ha)
    as (Lout & wave & Hw & Hnth).
  split; [exact Lout |]. intros i. rewrite Hnth. unfold burst_at.
  destruct (Nat.leb_spec (Z.to_nat (pos b)) i) as [Hlo | Hlo]; cbn [andb];
    [| reflexivity].
  destruct (Nat.ltb_spec i (Z.to_nat (pos b) + Z.to_nat (bubble_length b)))
    as [Hhi | Hhi]; [| reflexivity].
  rewrite (@bubble_wave_nth sr b wave _ Hw) by lia. cbv zeta. reflexivity.
Qed.

(** The loop adds up the bursts. *)
Lemma superpose_sum (length sr : Z) (bubbles : list Bubble) :
  Forall (drawn_in_range length) bubbles ->
  forall (audio out : list R),
    List.length audio = Z.to_nat length ->
    superpose length sr bubbles audio = Ok out ->
    List.length out = Z.to_nat length /\
    forall i, nth i out 0 = nth i audio 0 + bursts_at sr bubbles i.
Proof.
  induction 1 as [| b bubbles Hb _ IH]; intros audio out La H.
  - simpl in H. inversion H; subst out. split; [exact La |].
    intros i. simpl. ring.
  - cbn [superpose] in H.
    destruct (add_bubble length sr b audio) as [e | a1] eqn:Ha; [discriminate H |].
    cbn [rbind] in H.
    destruct (@add_bubble_burst length sr b audio a1 Hb La Ha) as [L1 H1].
    destruct (IH a1 out L1 H) as [Lout Hout].
    split; [exact Lout |]. intros i. rewrite Hout, H1. simpl. ring.
Qed.

(** The bubbling layer, sample by sample. *)
Lemma bubbling_content (length sr wetness : Z) (out : list R) (w w' : World) :
  _generate_bubbling length sr wetness w = Ok (out, w') ->
  exists bubbles,
    List.length bubbles = Z.to_nat (wetness * 5) /\
    Forall (drawn_in_range length) bubbles /\
    List.length out = Z.to_nat length /\
    forall i, nth i out 0 = bursts_at sr bubbles i.
Proof.
  intros H. apply generate_bubbling_ok in H.
  destruct H as (bubbles & Hn & Hall & Hsup).
  destruct (@superpose_sum length sr bubbles Hall _ out (repeat_length _ _) Hsup)
    as [Lout Hout].
  exists bubbles. split; [exact Hn |]. split; [exact Hall |].
  split; [exact Lout |]. intros i. rewrite Hout.
  assert (Hz : nth i (repeat 0 (Z.to_nat length)) 0 = 0).
  { destruct (Nat.lt_ge_cases i (Z.to_nat length)) as [Hi | Hi].
    - apply nth_repeat_lt, Hi.
    - apply nth_overflow. rewrite repeat_length. exact Hi. }
  rewrite Hz. ring.
Qed.

(** C4, as the code has it.  For valid parameters and a positive sample
    rate: (1) with [wetness <= 5] the layer set is produced and has no
    [bubbling] entry; (2) with [wetness > 5] and at least 1000 samples,
    [int(duration * sample_rate) >= 1000], the layer set is produced and has
    one; (3) with [wetness > 5] and fewer samples no layer set is produced,
    whatever the sample rate: the call raises [ValueError].  (4) Whenever a layer set is returned it has
    the key [bubbling] if and only if [wetness > 5], and the bubbling layer is
    the sum of exactly [5 * wetness] bursts on a silent buffer of
    [int(duration * sample_rate)] samples: burst [b] starts at a position in
    [[0, length - 1000]], lasts between 100 and 500 samples, has a carrier
    frequency in [[300, 1000]] Hz, and adds
    [0.1 * sin(2 pi freq t) * exp(-t * 50)] to each of its samples, where
    [t] runs over [linspace(0, bubble_length / sr, bubble_length)]. *)
Theorem bubbling_layer_iff_wet
  (params : AudioParameters) (w : World)
  (Hvalid : valid_params params) :
  ((0 < sample_rate params)%Z -> (wetness params <= 5)%Z ->
   exists layers w',
     _generate_synthesis_layers params w = Ok (layers, w') /\
     contains "bubbling" layers = false) /\
  ((0 < sample_rate params)%Z -> (5 < wetness params)%Z ->
   (1000 <= duration_samples params)%Z ->
   exists layers w',
     _generate_synthesis_layers params w = Ok (layers, w') /\
     contains "bubbling" layers = true) /\
  ((5 < wetness params)%Z -> (duration_samples params < 1000)%Z ->
   _generate_synthesis_layers params w = Err ValueError) /\
  (forall layers w',
     _generate_synthesis_layers params w = Ok (layers, w') ->
     (contains "bubbling" layers = true <-> (5 < wetness params)%Z) /\
     forall bubbling, lookup "bubbling" layers = Some bubbling ->
       exists bubbles,
         Z.of_nat (length bubbles) = (5 * wetness params)%Z /\
         Forall (fun b =>
                   (0 <= pos b <= duration_samples params - 1000)%Z /\
                   (100 <= bubble_length b <= 500)%Z /\
                   300 <= freq b <= 1000)
                bubbles /\
         length bubbling = Z.to_nat (duration_samples params) /\
         forall i, nth i bubbling 0 = bursts_at (sample_rate params) bubbles i).
Proof.
  assert (Hlo : (0 < sample_rate params)%Z -> (0 <= duration_samples params)%Z).
  { intros Hsr. apply duration_samples_nonneg; [| lia].
    destruct Hvalid as ((Hd & _) & _).
    eapply Qle_trans; [| exact Hd]. discriminate. }
  assert (Hshape : forall layers w',
             _generate_synthesis_layers params w = Ok (layers, w') ->
             (contains "bubbling" layers = true <-> (5 < wetness params)%Z)).
  { intros layers w' Hrun. apply synthesis_layers_ok in Hrun.
    destruct Hrun as (noise & rumble & w1 & w2 & _ & _ & Hcase).
    destruct Hcase as [[Hdry ->] | [Hwet (bubbling & _ & ->)]]; unfold contains; simpl.
    - split; [discriminate | lia].
    - split; [intros _; exact Hwet | reflexivity]. }
  split; [| split; [| split]].
  - intros Hsr Hdry.
    destruct (@synthesis_layers_total _ params w) as (layers & w' & Hrun);
      [lia | apply Hlo, Hsr | lia |].
    exists layers, w'. split; [exact Hrun |].
    destruct (contains "bubbling" layers) eqn:E; [| reflexivity].
    apply (Hshape _ _ Hrun) in E. lia.
  - intros Hsr Hwet Hlen.
    destruct (@synthesis_layers_total _ params w) as (layers & w' & Hrun);
      [lia | lia | intros _; exact Hlen |].
    exists layers, w'. split; [exact Hrun |]. apply (Hshape _ _ Hrun), Hwet.
  - intros Hwet Hshort.
    apply synthesis_layers_short_error; assumption.
  - intros layers w' Hrun. split; [apply (Hshape _ _ Hrun) |].
    apply synthesis_layers_ok in Hrun.
    destruct Hrun as (noise & rumble & w1 & w2 & _ & _ & Hcase).
    destruct Hcase as [[Hdry ->] | [Hwet (bubbling & Hb & ->)]];
      intros b Hlook; simpl in Hlook; [discriminate Hlook |].
    inversion Hlook; subst b.
    apply bubbling_content in Hb.
    destruct Hb as (bubbles & Hn & Hall & Lout & Hout).
    exists bubbles. split; [| split; [| split]].
    + rewrite Hn. destruct Hvalid as (_ & Hw & _). lia.
    + exact Hall.
    + exact Lout.
    + exact Hout.
Qed.

End BubblingContent.

Lemma wet_params_valid : valid_params wet_params.
Proof.
  unfold valid_params, wet_params; simpl.
  repeat split; try lia; unfold Qle; simpl; lia.
Qed.

Lemma bubbling_layer_iff_wet_witness :
  exists (layers : Layers) (w' : World) (bubbling : list R) (bubbles : list Bubble),
    _generate_synthesis_layers wet_params (Counter.world 42 42) = Ok (layers, w') /\
    lookup "bubbling" layers = Some bubbling /\
    length bubbles = 30%nat /\
    length bubbling = 1000%nat /\
    forall i, nth i bubbling 0%R = bursts_at 100 bubbles i.
Proof.
  pose proof (@bubbling_layer_iff_wet Counter.source wet_params (Counter.world 42 42)
                wet_params_valid) as (_ & Hwet & _ & Hcontent).
  destruct Hwet as (layers & w' & Hrun & Hkey);
    [simpl; lia | simpl; lia | vm_compute; discriminate |].
  destruct (lookup "bubbling" layers) as [bubbling |] eqn:Hlook;
    [| unfold contains in Hkey; rewrite Hlook in Hkey; discriminate Hkey].
  destruct (proj2 (Hcontent layers w' Hrun) bubbling Hlook)
    as (bubbles & Hn & _ & Hlen & Hsum).
  exists layers, w', bubbling, bubbles.
  split; [exact Hrun |]. split; [exact Hlook |].
  split; [simpl in Hn; lia |]. split; [exact Hlen | exact Hsum].
Defined.

(** A valid request with [wetness = 10] for which no layer set, and so no
    bubbling layer, is produced. *)
Lemma wettest_request_without_layers :
  valid_params short_wettest_params /\
  wetness short_wettest_params = 10%Z /\
  _generate_synthesis_layers short_wettest_params (Counter.world 42 42)
  = Err ValueError.
Proof.
  split.
  { unfold valid_params, short_wettest_params; simpl.
    repeat split; try lia; unfold Qle; simpl; lia. }
  split; [reflexivity |].
  apply synthesis_layers_short_error.
  - simpl. lia.
  - vm_compute. reflexivity.
Qed.
